(** * Retrieval core of the RHC onboarding assistant

    A shallow embedding of the embedding/retrieval modules of the extension
    ([ai/pseudo.ts], [ai/provider.ts], [ai/embeddings.ts], [ai/rag.ts]) and the
    properties of its specification; then the code around them (the chat
    handler's discovery and keyword paths, the search command, the scaffold's
    file names, the validation rules and the unreferenced-policy command) with
    further properties read off the code.

    Modelling conventions.
    - A JavaScript string is a [string] of 8-bit code units (the Latin-1 range
      of UTF-16 code units); the character classes and the case mapping below
      are the ones JavaScript applies on that range.
    - Counts, array lengths, the dimensionality and the result limit are
      natural numbers; 32-bit hashes are [Z] with the wrap-around written out.
    - Floating-point numbers are idealised as real numbers ([R]); a score that
      JavaScript computes as [NaN] is [None].
    - Module-level variables and the part of the disk the module looks at are
      fields of an explicit [World]; a call returns an [Outcome] (a value and
      the next world, or a thrown error). *)

From Stdlib Require Import Reals Lra Lia ZArith List String Ascii Bool.
From Stdlib Require Import Sorting.Sorted DecimalString.
From Stdlib Require Import Sorting.Permutation.
Import ListNotations.

Open Scope string_scope.
Open Scope list_scope.

(** ** JavaScript string primitives used by the modules *)

Module Js.

Definition charCode (c : ascii) : Z := Z.of_N (N_of_ascii c).

Definition inRange (lo hi : N) (c : ascii) : bool :=
  (lo <=? N_of_ascii c)%N && (N_of_ascii c <=? hi)%N.

(** [[a-z]], [[A-Z]], [[0-9]] *)
Definition isLower : ascii -> bool := inRange 97 122.
Definition isUpper : ascii -> bool := inRange 65 90.
Definition isDigit : ascii -> bool := inRange 48 57.

(** [\s]: TAB, LF, VT, FF, CR, SPACE and NO-BREAK SPACE. *)
Definition isSpace (c : ascii) : bool :=
  inRange 9 13 c || (N_of_ascii c =? 32)%N || (N_of_ascii c =? 160)%N.

(** Line terminators, which [.] does not match. *)
Definition isLineTerminator (c : ascii) : bool :=
  (N_of_ascii c =? 10)%N || (N_of_ascii c =? 13)%N.

Definition space : ascii := " "%char.

(** [String.prototype.toLowerCase] on one code unit: [A-Z] and the accented
    capitals U+00C0..U+00DE (but not the multiplication sign U+00D7). *)
Definition lowerChar (c : ascii) : ascii :=
  if isUpper c || (inRange 192 222 c && negb (N_of_ascii c =? 215)%N)
  then ascii_of_N (N_of_ascii c + 32)
  else c.

Fixpoint mapChars (f : ascii -> ascii) (s : string) : string :=
  match s with
  | EmptyString => EmptyString
  | String c r => String (f c) (mapChars f r)
  end.

Definition toLowerCase (s : string) : string := mapChars lowerChar s.

(** [s.replace(/([a-z])([A-Z])/g, '$1 $2')]: the scan resumes after the two
    characters of a match. *)
Fixpoint replaceCamel (s : string) : string :=
  match s with
  | EmptyString => EmptyString
  | String a r =>
      match r with
      | String b r' =>
          if isLower a && isUpper b
          then String a (String space (String b (replaceCamel r')))
          else String a (replaceCamel r)
      | EmptyString => String a EmptyString
      end
  end.

(** [[._-]] *)
Definition isSeparator (c : ascii) : bool :=
  (N_of_ascii c =? 46)%N || (N_of_ascii c =? 95)%N || (N_of_ascii c =? 45)%N.

(** [s.replace(/[._-]+/g, ' ')]: [inRun] tells that the previous character
    belonged to the run being replaced. *)
Fixpoint replaceSeparatorRuns (inRun : bool) (s : string) : string :=
  match s with
  | EmptyString => EmptyString
  | String c r =>
      if isSeparator c
      then if inRun then replaceSeparatorRuns true r
           else String space (replaceSeparatorRuns true r)
      else String c (replaceSeparatorRuns false r)
  end.

(** [s.replace(/[^a-z0-9\s]/g, ' ')] *)
Definition replaceNonAlnum (s : string) : string :=
  mapChars (fun c => if isLower c || isDigit c || isSpace c then c else space) s.

(** [s.split(/\s+/)]: [cur] is the piece being read, [inRun] tells that a
    whitespace run is being skipped (the piece before it is already pushed).
    The piece after the last run is always pushed, also when it is empty. *)
Fixpoint splitWsFrom (cur : string) (inRun : bool) (s : string) : list string :=
  match s with
  | EmptyString => [cur]
  | String c r =>
      if isSpace c
      then if inRun then splitWsFrom EmptyString true r
           else cur :: splitWsFrom EmptyString true r
      else splitWsFrom (cur ++ String c EmptyString) false r
  end.

Definition splitWs (s : string) : list string := splitWsFrom EmptyString false s.

(** Truthiness of a string: [Boolean(s)]. *)
Definition truthy (s : string) : bool :=
  match s with EmptyString => false | _ => true end.

(** [parts.filter(Boolean)] on an array of strings. *)
Definition filterBoolean (parts : list string) : list string := filter truthy parts.

(** [parts.filter(Boolean).join(' ')] on optional fields. *)
Definition truthyFields (fields : list (option string)) : list string :=
  flat_map (fun f => match f with
                     | Some s => if truthy s then [s] else []
                     | None => []
                     end) fields.

Fixpoint join (sep : string) (parts : list string) : string :=
  match parts with
  | [] => EmptyString
  | [p] => p
  | p :: rest => p ++ sep ++ join sep rest
  end.

(** [s.includes(t)] *)
Fixpoint includes (s t : string) : bool :=
  String.prefix t s ||
  match s with
  | EmptyString => false
  | String _ r => includes r t
  end.

Fixpoint dropWhileSpace (s : string) : string :=
  match s with
  | EmptyString => EmptyString
  | String c r => if isSpace c then dropWhileSpace r else s
  end.

(** Removes the trailing whitespace: a character is kept when something is
    kept after it or when it is not whitespace. *)
Fixpoint trimEnd (s : string) : string :=
  match s with
  | EmptyString => EmptyString
  | String c r =>
      match trimEnd r with
      | EmptyString => if isSpace c then EmptyString else String c EmptyString
      | r' => String c r'
      end
  end.

(** [s.trim()] *)
Definition trim (s : string) : string := trimEnd (dropWhileSpace s).

(** [String(n)] for an array index or a length. *)
Definition ofNat (n : nat) : string := NilZero.string_of_uint (Nat.to_uint n).

(** [a || b] on an optional string. *)
Definition orElse (a : option string) (b : string) : string :=
  match a with
  | Some s => if truthy s then s else b
  | None => b
  end.

End Js.

(** ** [ai/pseudo.ts] *)

Module Pseudo.

(** [h = (h * 31 + tok.charCodeAt(i)) >>> 0] over the characters of [tok]. *)
Fixpoint hashFrom (h : Z) (tok : string) : Z :=
  match tok with
  | EmptyString => h
  | String c r => hashFrom ((h * 31 + Js.charCode c) mod 2 ^ 32)%Z r
  end.

Definition hash (tok : string) : Z := hashFrom 0 tok.

(** [v[i] += 1]; every index the loop computes is inside the array. *)
Fixpoint bump (i : nat) (v : list Z) : list Z :=
  match v, i with
  | [], _ => []
  | x :: r, O => (x + 1)%Z :: r
  | x :: r, S j => x :: bump j r
  end.

Definition tokens (text : string) : list string :=
  let expanded := Js.replaceSeparatorRuns false (Js.replaceCamel text) in
  let normText := Js.replaceNonAlnum (Js.toLowerCase expanded) in
  Js.filterBoolean (Js.splitWs normText).

(** The slot of a token: [h % dims]. *)
Definition slot (dims : nat) (tok : string) : nat :=
  Z.to_nat (hash tok mod Z.of_nat dims).

(** The array after the token loop. The counts are small integers, which the
    floating-point array holds exactly. With [dims = 0] the index is [NaN] and
    no element of the (empty) array is touched. *)
Definition histogram (text : string) (dims : nat) : list Z :=
  fold_left (fun v tok => match dims with O => v | _ => bump (slot dims tok) v end)
            (tokens text) (repeat 0%Z dims).

Definition sumSquares (v : list Z) : Z :=
  fold_left (fun acc x => (acc + x * x)%Z) v 0%Z.

Definition pseudoEmbedVector (text : string) (dims : nat) : list R :=
  let v := histogram text dims in
  let sumSq := sumSquares v in
  let inv := if (sumSq =? 0)%Z then 1%R else (1 / sqrt (IZR sumSq))%R in
  map (fun x => (IZR x * inv)%R) v.

End Pseudo.


(** ** [ai/types.ts] *)

Module Types.

Inductive Kind := event | policy | doc.

(** The string a [kind] tag is at run time. *)
Definition kindName (k : Kind) : string :=
  match k with
  | event => "event"
  | policy => "policy"
  | doc => "doc"
  end.

(** [meta: Record<string, any>]: the keys this program stores; a key that is
    absent or [undefined] reads as [None]. *)
Record Meta := {
  file : option string;
  eventId : option string;
  title : option string;
  reasonType : option string;
  chunk : option nat
}.

Record EmbeddingRecord := {
  id : string;
  kind : Kind;
  resourceType : option string;
  text : string;
  vector : list R;
  meta : Meta
}.

Record EmbeddingIndexFile := {
  version : Z;
  created : string;
  records : list EmbeddingRecord;
  dims : nat
}.

(** A score is [None] when JavaScript computes [NaN]. *)
Record SimilarityResult := {
  sid : string;
  score : option R;
  smeta : Meta;
  stext : string
}.

End Types.

(** ** [indexer/index.ts]: the content index the build walks

    Only the fields the embedding build reads. The indexer copies [EventId]
    without checking it, so an event may lack its id. *)

Module Indexer.

Record RHCEventSummary := {
  eventId : option string;
  title : option string;
  reasonType : option string
}.

Record PolicyIndexEntry := {
  file : string;
  events : list RHCEventSummary
}.

Record RHCIndex := {
  policies : list PolicyIndexEntry
}.

End Indexer.

(** ** [ai/provider.ts] *)

Module Provider.

(** The local copy of the pseudo embedding. *)
Fixpoint hashFrom (h : Z) (tok : string) : Z :=
  match tok with
  | EmptyString => h
  | String c r => hashFrom ((h * 31 + Js.charCode c) mod 2 ^ 32)%Z r
  end.

Fixpoint bump (i : nat) (v : list Z) : list Z :=
  match v, i with
  | [], _ => []
  | x :: r, O => (x + 1)%Z :: r
  | x :: r, S j => x :: bump j r
  end.

Definition tokens (text : string) : list string :=
  let expanded := Js.replaceSeparatorRuns false (Js.replaceCamel text) in
  let normText := Js.replaceNonAlnum (Js.toLowerCase expanded) in
  Js.filterBoolean (Js.splitWs normText).

Definition histogram (text : string) (dims : nat) : list Z :=
  fold_left (fun v tok =>
               match dims with
               | O => v
               | _ => bump (Z.to_nat (hashFrom 0 tok mod Z.of_nat dims)) v
               end)
            (tokens text) (repeat 0%Z dims).

Definition pseudoEmbedVector (text : string) (dims : nat) : list R :=
  let v := histogram text dims in
  let sumSq := fold_left (fun acc x => (acc + x * x)%Z) v 0%Z in
  let inv := if (sumSq =? 0)%Z then 1%R else (1 / sqrt (IZR sumSq))%R in
  map (fun x => (IZR x * inv)%R) v.

(** [interface Embedder] *)
Record Embedder := {
  dims : nat;
  embed : list string -> list (list R)
}.

Definition LocalPseudoEmbedder : Embedder :=
  let this_dims := 128 in
  {| dims := this_dims;
     embed := fun texts => map (fun t => pseudoEmbedVector t this_dims) texts |}.

Definition AzureOpenAIStubEmbedder : Embedder :=
  let this_dims := 1536 in
  {| dims := this_dims;
     embed := fun texts => map (fun t => pseudoEmbedVector t this_dims) texts |}.

(** [cfg.get<string>('rhc.ai.embeddingProvider', 'local-pseudo')]: [None] is
    an unset key. *)
Definition configuredProvider (setting : option string) : string :=
  match setting with
  | Some p => p
  | None => "local-pseudo"
  end.

Definition createEmbedder (setting : option string) : Embedder :=
  if String.eqb (configuredProvider setting) "azureOpenAI"
  then AzureOpenAIStubEmbedder
  else LocalPseudoEmbedder.

End Provider.

(** ** [ai/embeddings.ts] *)

Module Embeddings.

Import Types.

Definition INDEX_VERSION : Z := 2.
Definition DEFAULT_DIMS : nat := 128.

(** *** The host: workspace, configuration, content index, clock *)

Record Env := {
  workspaceFolder : option string;    (* workspaceFolders?.[0]?.uri.fsPath *)
  includeDocs : option bool;          (* rhc.index.includeDocs *)
  embeddingProvider : option string;  (* rhc.ai.embeddingProvider *)
  baseIndex : option Indexer.RHCIndex; (* getIndex() *)
  now : string                        (* new Date().toISOString() *)
}.

(** *** The disk under the workspace root, as far as the module looks at it.
    A file that parses is taken to have its declared type
    [EmbeddingIndexFile]; writing always succeeds. *)

Inductive StoredFile :=
  | Unreadable                          (* readFileSync throws *)
  | Malformed (raw : string)            (* JSON.parse throws *)
  | Document (parsed : EmbeddingIndexFile).

(** A directory holds the names [readdir] lists, each with the text
    [readFile] yields, or [None] when [readFile] throws. *)
Inductive DirState :=
  | Missing                             (* stat throws *)
  | NotADirectory
  | Directory (entries : list (string * option string)).

Record Disk := {
  storageDirExists : bool;              (* <root>/.rhc *)
  indexFile : option StoredFile;        (* <root>/.rhc/embeddings.json *)
  documentation : DirState              (* <root>/documentation *)
}.

Inductive FsCall :=
  | ExistsSync (p : string)
  | MkdirSync (p : string)
  | WriteFileSync (p : string)
  | ReadFileSync (p : string)
  | Stat (p : string)
  | Readdir (p : string)
  | ReadFile (p : string).

(** *** Module-level state, the disk, and what the module emitted *)

Record World := {
  embedder : Provider.Embedder;
  inMemory : option (list EmbeddingRecord);
  dims : nat;
  disk : Disk;
  fsCalls : list FsCall;                (* oldest first *)
  outputLines : list string             (* oldest first *)
}.

Inductive Outcome (A : Type) :=
  | Returned (a : A) (w : World)
  | Thrown (message : string) (w : World).
Arguments Returned {A} a w.
Arguments Thrown {A} message w.

(** The state of a fresh extension host over a disk. *)
Definition initialWorld (env : Env) (d : Disk) : World :=
  {| embedder := Provider.createEmbedder (embeddingProvider env);
     inMemory := None;
     dims := DEFAULT_DIMS;
     disk := d;
     fsCalls := [];
     outputLines := [] |}.

Definition called (c : FsCall) (w : World) : World :=
  {| embedder := embedder w; inMemory := inMemory w; dims := dims w;
     disk := disk w; fsCalls := fsCalls w ++ [c]; outputLines := outputLines w |}.

Definition withDisk (d : Disk) (w : World) : World :=
  {| embedder := embedder w; inMemory := inMemory w; dims := dims w;
     disk := d; fsCalls := fsCalls w; outputLines := outputLines w |}.

Definition withEmbedder (e : Provider.Embedder) (w : World) : World :=
  {| embedder := e; inMemory := inMemory w; dims := dims w;
     disk := disk w; fsCalls := fsCalls w; outputLines := outputLines w |}.

Definition withIndex (recs : list EmbeddingRecord) (d : nat) (w : World) : World :=
  {| embedder := embedder w; inMemory := Some recs; dims := d;
     disk := disk w; fsCalls := fsCalls w; outputLines := outputLines w |}.

Definition appendLine (line : string) (w : World) : World :=
  {| embedder := embedder w; inMemory := inMemory w; dims := dims w;
     disk := disk w; fsCalls := fsCalls w; outputLines := outputLines w ++ [line] |}.

(** [path.join] of a normalised path and a name. *)
Definition pathJoin (a b : string) : string := a ++ "/" ++ b.

Definition workspaceRoot (env : Env) : option string := workspaceFolder env.

Definition storageDir (env : Env) : option string :=
  match workspaceRoot env with
  | Some root => if Js.truthy root then Some (pathJoin root ".rhc") else None
  | None => None
  end.

Definition indexFilePath (env : Env) : option string :=
  match storageDir env with
  | Some dir => Some (pathJoin dir "embeddings.json")
  | None => None
  end.

(** [dimsLocal = DEFAULT_DIMS]: [None] is an omitted argument. *)
Definition pseudoEmbed (text : string) (dimsLocal : option nat) : list R :=
  Pseudo.pseudoEmbedVector text
    (match dimsLocal with Some d => d | None => DEFAULT_DIMS end).

(** [x || 1] on a number. *)
Definition orOne (x : R) : R := if Req_dec_T x 0 then 1%R else x.

(** The loop of [cosine]: the sums [(dot, la, lb)] over the indices of [a].
    Where [b] is shorter than [a], [b[i]] is [undefined] and the sums, and
    then the score, are [NaN]. *)
Fixpoint cosineSums (a b : list R) (acc : R * R * R) : option (R * R * R) :=
  match a with
  | [] => Some acc
  | av :: a' =>
      match b with
      | [] => None
      | bv :: b' =>
          let '(dot, la, lb) := acc in
          cosineSums a' b' (dot + av * bv, la + av * av, lb + bv * bv)%R
      end
  end.

Definition cosine (a b : list R) : option R :=
  match cosineSums a b (0, 0, 0)%R with
  | Some (dot, la, lb) => Some (dot / orOne (sqrt la * sqrt lb))%R
  | None => None
  end.

(** [/PolicyFile_(.+)\.json$/i]: what follows the prefix must be a non-empty
    group without line terminators and then the extension, up to the end. *)
Definition hasLineTerminator (s : string) : bool :=
  existsb Js.isLineTerminator (list_ascii_of_string s).

Definition matchGroupAndExtension (rest : string) : option string :=
  let n := String.length rest in
  let group := String.substring 0 (n - 5) rest in
  let extension := String.substring (n - 5) 5 rest in
  if (6 <=? n)%nat && String.eqb (Js.toLowerCase extension) ".json"
     && negb (hasLineTerminator group)
  then Some group else None.

(** [exec]: the leftmost position where the whole pattern matches; the
    result is the first capture group. *)
Fixpoint execPolicyFile (s : string) : option string :=
  let here :=
    if String.prefix "policyfile_" (Js.toLowerCase s)
    then matchGroupAndExtension (String.substring 11 (String.length s - 11) s)
    else None in
  match here with
  | Some group => Some group
  | None =>
      match s with
      | EmptyString => None
      | String _ r => execPolicyFile r
      end
  end.

(** [arr.forEach((x, i) => out.push(f x i))] *)
Fixpoint forEachFrom {A B : Type} (i : nat) (f : A -> nat -> B) (l : list A) : list B :=
  match l with
  | [] => []
  | x :: r => f x i :: forEachFrom (S i) f r
  end.

Definition forEach {A B : Type} (f : A -> nat -> B) (l : list A) : list B :=
  forEachFrom 0 f l.

(** [while (i < txt.length) { out.push(txt.slice(i, i + size)); i += size }];
    [txt.length] rounds are enough for a positive [size]. *)
Fixpoint chunkLoop (rounds : nat) (txt : string) (size i : nat) : list string :=
  match rounds with
  | O => []
  | S n =>
      if (i <? String.length txt)%nat
      then String.substring i size txt :: chunkLoop n txt size (i + size)
      else []
  end.

Definition chunkText (txt : string) (size : nat) : list string :=
  chunkLoop (String.length txt) txt size 0.

Definition eventText (inferredRT : option string) (ev : Indexer.RHCEventSummary) : string :=
  Js.join " " (Js.truthyFields
    [Indexer.eventId ev; Indexer.title ev; Indexer.reasonType ev; inferredRT]).

(** The records one policy of the content index deposits. An index past the
    end of an array (which does not occur: the arrays have one element per
    event) reads as the empty text or vector. *)
Definition policyRecords (e : Provider.Embedder) (p : Indexer.PolicyIndexEntry)
  : list EmbeddingRecord :=
  let inferredRT := execPolicyFile (Indexer.file p) in
  let policyText := Js.join " " (Js.truthyFields [Some (Indexer.file p); inferredRT]) in
  let policyVec := nth 0 (Provider.embed e [policyText]) [] in
  let eventTexts := map (eventText inferredRT) (Indexer.events p) in
  let eventVectors := Provider.embed e eventTexts in
  {| id := "policy:" ++ Indexer.file p; kind := policy; resourceType := inferredRT;
     text := policyText; vector := policyVec;
     meta := {| file := Some (Indexer.file p); eventId := None; title := None;
                reasonType := None; chunk := None |} |}
  :: forEach (fun ev i =>
       {| id := "event:" ++ Indexer.file p ++ "#" ++ Js.orElse (Indexer.eventId ev) "unknown";
          kind := event; resourceType := inferredRT;
          text := nth i eventTexts EmptyString; vector := nth i eventVectors [];
          meta := {| file := Some (Indexer.file p); eventId := Indexer.eventId ev;
                     title := Indexer.title ev; reasonType := Indexer.reasonType ev;
                     chunk := None |} |})
       (Indexer.events p).

(** The records one readable documentation file deposits. *)
Definition docRecords (e : Provider.Embedder) (f txt : string) : list EmbeddingRecord :=
  let chunks := chunkText txt 800 in
  let vectors := Provider.embed e chunks in
  forEach (fun c i =>
    {| id := "doc:" ++ f ++ "#" ++ Js.ofNat i; kind := doc; resourceType := None;
       text := c; vector := nth i vectors [];
       meta := {| file := Some f; eventId := None; title := None;
                  reasonType := None; chunk := Some i |} |})
    chunks.

(** The documentation stage of the build: [stat], [readdir], then one
    [readFile] per listed name; a file that cannot be read deposits nothing. *)
Definition readDocs (e : Provider.Embedder) (root : string) (w : World)
  : list EmbeddingRecord * World :=
  let docDir := pathJoin root "documentation" in
  let w1 := called (Stat docDir) w in
  match documentation (disk w) with
  | Directory entries =>
      fold_left
        (fun (acc : list EmbeddingRecord * World) (entry : string * option string) =>
           let w' := called (ReadFile (pathJoin docDir (fst entry))) (snd acc) in
           match snd entry with
           | Some txt => (fst acc ++ docRecords e (fst entry) txt, w')
           | None => (fst acc, w')
           end)
        entries ([], called (Readdir docDir) w1)
  | NotADirectory => ([], w1)
  | Missing => ([], w1)
  end.

Definition effectiveDimsOf (e : Provider.Embedder) : nat :=
  if (Provider.dims e =? 0)%nat then DEFAULT_DIMS else Provider.dims e.

Definition builtMessage (count effectiveDims : nat) : string :=
  "[RHC AI] Embedding index built with " ++ Js.ofNat count
  ++ " records (dims=" ++ Js.ofNat effectiveDims ++ ").".

(** The optional documentation chunks: read only when the setting is on and
    there is a workspace root. *)
Definition documentationStage (env : Env) (e : Provider.Embedder) (w : World)
  : list EmbeddingRecord * World :=
  match includeDocs env with
  | Some true =>
      match workspaceRoot env with
      | Some root => if Js.truthy root then readDocs e root w else ([], w)
      | None => ([], w)
      end
  | _ => ([], w)
  end.

(** [if (dir && !fs.existsSync(dir)) fs.mkdirSync(dir, { recursive: true })] *)
Definition ensureStorageDir (env : Env) (w : World) : World :=
  match storageDir env with
  | Some dir =>
      let w' := called (ExistsSync dir) w in
      if storageDirExists (disk w') then w'
      else called (MkdirSync dir)
             (withDisk {| storageDirExists := true;
                          indexFile := indexFile (disk w');
                          documentation := documentation (disk w') |} w')
  | None => w
  end.

(** [if (file) fs.writeFileSync(file, JSON.stringify(payload, null, 2), 'utf8')] *)
Definition writeIndexFile (env : Env) (payload : EmbeddingIndexFile) (w : World) : World :=
  match indexFilePath env with
  | Some file =>
      called (WriteFileSync file)
        (withDisk {| storageDirExists := storageDirExists (disk w);
                     indexFile := Some (Document payload);
                     documentation := documentation (disk w) |} w)
  | None => w
  end.

(** [buildEmbeddingIndex(output?)]; [output] tells whether a channel is given. *)
Definition buildEmbeddingIndex (env : Env) (output : bool) (w : World) : Outcome unit :=
  match baseIndex env with
  | None => Thrown "Base index not built yet. Run RHC: Refresh Index first." w
  | Some idx =>
      let e := Provider.createEmbedder (embeddingProvider env) in
      let w0 := withEmbedder e w in
      let effectiveDims := effectiveDimsOf e in
      let policyRecs := flat_map (policyRecords e) (Indexer.policies idx) in
      let docs := documentationStage env e w0 in
      let recs := policyRecs ++ fst docs in
      (* Persist *)
      let payload := {| version := INDEX_VERSION; created := now env;
                        records := recs; Types.dims := effectiveDims |} in
      let w1 := writeIndexFile env payload (ensureStorageDir env (snd docs)) in
      let w2 := withIndex recs effectiveDims w1 in
      Returned tt (if output
                   then appendLine (builtMessage (List.length recs) effectiveDims) w2
                   else w2)
  end.

Definition ensureEmbeddingsLoaded (env : Env) (w : World) : Outcome bool :=
  match inMemory w with
  | Some _ => Returned true w
  | None =>
      match indexFilePath env with
      | None => Returned false w
      | Some file =>
          let w1 := called (ExistsSync file) w in
          match indexFile (disk w) with
          | None => Returned false w1
          | Some stored =>
              let w2 := called (ReadFileSync file) w1 in
              match stored with
              | Unreadable => Returned false w2
              | Malformed _ => Returned false w2
              | Document parsed =>
                  if (version parsed =? INDEX_VERSION)%Z
                  then Returned true (withIndex (records parsed) (Types.dims parsed) w2)
                  else Returned false w2
              end
          end
      end
  end.

(** [(a, b) => b.score - a.score] *)
Definition byScoreDescending (a b : SimilarityResult) : option R :=
  match score b, score a with
  | Some x, Some y => Some (x - y)%R
  | _, _ => None
  end.

(** Whether a comparator result is [> 0]; [NaN] is not. *)
Definition positive (v : option R) : bool :=
  match v with
  | Some x => if Rlt_dec 0 x then true else false
  | None => false
  end.

(** [Array.prototype.sort] is stable: an element is put after the elements
    already placed that the comparator does not order after it. *)
Fixpoint insertBy {A : Type} (cmp : A -> A -> option R) (x : A) (placed : list A) : list A :=
  match placed with
  | [] => [x]
  | y :: r => if positive (cmp y x) then x :: y :: r else y :: insertBy cmp x r
  end.

Definition sortBy {A : Type} (cmp : A -> A -> option R) (l : list A) : list A :=
  fold_left (fun placed x => insertBy cmp x placed) l [].

(** The two [continue] tests of the search loop. *)
Definition skippedByKind (filterKind : option (list string)) (r : EmbeddingRecord) : bool :=
  match filterKind with
  | Some kinds => negb (existsb (String.eqb (kindName (kind r))) kinds)
  | None => false
  end.

Definition skippedByHint (resourceTypeHint : option string) (r : EmbeddingRecord) : bool :=
  match resourceTypeHint, resourceType r with
  | Some hint, Some rt =>
      Js.truthy hint && Js.truthy rt
      && negb (String.eqb (Js.toLowerCase rt) (Js.toLowerCase hint))
  | _, _ => false
  end.

Definition scored (qv : list R) (r : EmbeddingRecord) : SimilarityResult :=
  {| sid := id r; score := cosine qv (vector r); smeta := meta r; stext := text r |}.

(** [similaritySearch(query, limit = 10, filterKind?, resourceTypeHint?)] *)
Definition similaritySearch (w : World) (query : string) (limit : option nat)
    (filterKind : option (list string)) (resourceTypeHint : option string)
  : Outcome (list SimilarityResult) :=
  match inMemory w with
  | None => Thrown "Embedding index not loaded" w
  | Some recs =>
      let qv := pseudoEmbed query (Some (dims w)) in
      let out :=
        flat_map (fun r =>
                    if skippedByKind filterKind r then []
                    else if skippedByHint resourceTypeHint r then []
                    else [scored qv r]) recs in
      Returned (firstn (match limit with Some k => k | None => 10 end)
                       (sortBy byScoreDescending out)) w
  end.

End Embeddings.

(** ** [ai/rag.ts] *)

Module Rag.

Import Types.

Record RagAnswer := {
  results : list SimilarityResult;
  markdown : string
}.

Definition newline : string := String (ascii_of_N 10) EmptyString.

(** [r.score > 0.20] *)
Definition scoreAbove (threshold : R) (r : SimilarityResult) : bool :=
  match score r with
  | Some x => if Rlt_dec threshold x then true else false
  | None => false
  end.

Definition overlapsOrScores (normLowerTokens : list string) (r : SimilarityResult) : bool :=
  existsb (fun t => Js.includes (Js.toLowerCase (stext r)) t) normLowerTokens
  || scoreAbove (20 / 100) r.

(** The separator in front of a title, as the bytes of the source literal. *)
Definition titleSeparator : string := " â€” ".

Definition resultLine (r : SimilarityResult) : string :=
  let evId := Js.orElse (eventId (smeta r)) "unknown" in
  let shown (field : option string) (render : string -> string) : string :=
    match field with
    | Some s => if Js.truthy s then render s else EmptyString
    | None => EmptyString
    end in
  let title := shown (title (smeta r)) (fun s => (titleSeparator ++ s)%string) in
  let reason := shown (reasonType (smeta r)) (fun s => (" (ReasonType: " ++ s ++ ")")%string) in
  let file := shown (file (smeta r)) (fun s => (" in `" ++ s ++ "`")%string) in
  ("- **" ++ evId ++ "**" ++ title ++ reason ++ file)%string.

Definition fallbackHeadline (count : nat) : string :=
  "No strong token matches; showing top " ++ Js.ofNat count ++ " similar event(s) (fallback).".

Definition relatedHeadline (norm : string) (count : nat) : string :=
  "Events potentially related to **" ++ norm ++ "** (top " ++ Js.ofNat count ++ "):".

(** The part of [eventsForResourceType] after the search: post-filter,
    fallback, and the lines of the answer. *)
Definition composeAnswer (norm : string) (sims : list SimilarityResult) : RagAnswer :=
  let normLowerTokens := Js.filterBoolean (Js.splitWs (Js.toLowerCase norm)) in
  let filtered := filter (overlapsOrScores normLowerTokens) sims in
  let fallback := (List.length filtered =? 0)%nat in
  let filtered' :=
    if fallback then firstn (Nat.min 5 (List.length sims)) sims else filtered in
  let headline :=
    if fallback then fallbackHeadline (List.length filtered')
    else relatedHeadline norm (List.length filtered') in
  let lines :=
    [headline] ++ map resultLine filtered'
    ++ (if (List.length filtered' =? 0)%nat
        then ["No matching events found. Try refining the resource type phrasing."]
        else []) in
  {| results := filtered'; markdown := Js.join newline lines |}.

(** [eventsForResourceType(resourceTypePhrase, limit = 15)] *)
Definition eventsForResourceType (w : Embeddings.World) (resourceTypePhrase : string)
    (limit : option nat) : Embeddings.Outcome RagAnswer :=
  let norm := Js.trim resourceTypePhrase in
  let query := (norm ++ " events")%string in
  match Embeddings.similaritySearch w query
          (Some (match limit with Some k => k | None => 15 end))
          (Some ["event"]) None with
  | Embeddings.Thrown message w' => Embeddings.Thrown message w'
  | Embeddings.Returned sims w' => Embeddings.Returned (composeAnswer norm sims) w'
  end.

End Rag.

(** ** [extension.ts]: the event-discovery path of the chat handler *)

Module Extension.

Import Types Embeddings.

(** [cfg.get<number>('rhc.ai.maxContextEvents') || 15]: [None] is an unset
    key; 0 is falsy. The setting is taken to be a natural number; a negative
    or fractional value, which the code would pass on to [slice], is outside
    the model. *)
Definition contextLimit (maxContextEvents : option nat) : nat :=
  match maxContextEvents with
  | Some (S k) => S k
  | Some O => 15
  | None => 15
  end.

Definition buildingNotice : string := "Building embedding index (first use)...".

Definition rebuildTip : string :=
  "Tip: Rebuild embeddings after adding new policies (`RHC AI: Rebuild Embedding Index`).".

(** The dash is kept as the bytes of the source file. *)
Definition discoveryFooter : string :=
  "— Event discovery via pseudo embeddings (experimental).".

(** The second [try] of the path: the answer for the phrase, appended to what
    was streamed so far. *)
Definition streamAnswer (maxContextEvents : option nat) (phrase : string)
    (stream : list string) (w : World) : list string * World :=
  let limit := contextLimit maxContextEvents in
  match Rag.eventsForResourceType w phrase (Some limit) with
  | Returned answer w' =>
      (stream ++ [Rag.markdown answer]
              ++ [if (List.length (Rag.results answer) =? 0)%nat
                  then rebuildTip else discoveryFooter], w')
  | Thrown message w' => (stream ++ [("Event discovery failed: " ++ message)%string], w')
  end.

(** The handler from "Ensure embeddings are available" to the [return] of the
    event-discovery branch, for an extracted, non-empty [phrase]; the result
    is what [stream.markdown] received, in order. The handler is given an
    output channel, so the build is called with one. *)
Definition discoverEvents (env : Env) (maxContextEvents : option nat) (phrase : string)
    (w : World) : list string * World :=
  match ensureEmbeddingsLoaded env w with
  | Thrown message w1 => ([("Failed to build embeddings: " ++ message)%string], w1)
  | Returned true w1 => streamAnswer maxContextEvents phrase [] w1
  | Returned false w1 =>
      let stream := [buildingNotice] in
      match buildEmbeddingIndex env true w1 with
      | Thrown message w2 =>
          (stream ++ [("Failed to build embeddings: " ++ message)%string], w2)
      | Returned _ w2 => streamAnswer maxContextEvents phrase stream w2
      end
  end.

(** *** The keyword search of the chat handler *)

(** [/^policy:(.+)$/i.exec(t)]: the first capture group. *)
Definition execPolicyFilter (t : string) : option string :=
  let rest := String.substring 7 (String.length t - 7) t in
  if String.prefix "policy:" (Js.toLowerCase t)
     && Js.truthy rest && negb (hasLineTerminator rest)
  then Some rest else None.

(** The loop over the tokens of the prompt: the policy filter (the last one
    given wins) and the search tokens. *)
Definition parseFilters (tokens : list string) : option string * list string :=
  fold_left (fun (acc : option string * list string) t =>
               match execPolicyFilter t with
               | Some group => (Some (Js.toLowerCase group), snd acc)
               | None => (fst acc, snd acc ++ [Js.toLowerCase t])
               end)
            tokens (None, []).

Record Candidate := {
  cscore : nat;
  cid : option string;
  ctitle : option string;
  cpolicy : string
}.

(** [((e.eventId || '') + ' ' + (e.title || '')).toLowerCase()] *)
Definition haystack (eventId title : option string) : string :=
  Js.toLowerCase (Js.orElse eventId EmptyString ++ " " ++ Js.orElse title EmptyString).

(** The loop over the search tokens, left at the first token the haystack
    does not contain: the score when every token was found. *)
Fixpoint scoreTokens (hay : string) (searchTokens : list string) (score : nat) : option nat :=
  match searchTokens with
  | [] => Some score
  | st :: rest =>
      if Js.includes hay st then scoreTokens hay rest (score + 1) else None
  end.

(** The candidates collected from the index, before they are sorted. *)
Definition collectCandidates (policyFilter : option string) (searchTokens : list string)
    (idx : Indexer.RHCIndex) : list Candidate :=
  flat_map (fun p =>
              let skipped :=
                match policyFilter with
                | Some f =>
                    Js.truthy f && negb (Js.includes (Js.toLowerCase (Indexer.file p)) f)
                | None => false
                end in
              if skipped then []
              else flat_map (fun e =>
                               let hay := haystack (Indexer.eventId e) (Indexer.title e) in
                               match scoreTokens hay searchTokens 0 with
                               | Some score =>
                                   [ {| cscore := score; cid := Indexer.eventId e;
                                        ctitle := Indexer.title e;
                                        cpolicy := Indexer.file p |} ]
                               | None => []
                               end) (Indexer.events p))
           (Indexer.policies idx).

(** From "Parse filters" to the candidates: [None] when no search term is
    left after the filters. *)
Definition keywordCandidates (raw : string) (idx : Indexer.RHCIndex) : option (list Candidate) :=
  let tokens := Js.splitWs raw in
  let parsed := parseFilters tokens in
  match snd parsed with
  | [] => None
  | searchTokens => Some (collectCandidates (fst parsed) searchTokens idx)
  end.

End Extension.

(** ** [commands/searchEvents.ts] *)

Module SearchEvents.

Record Match := {
  policy : string;
  id : option string;
  title : option string
}.

(** [field && field.toLowerCase().includes(q)] *)
Definition fieldIncludes (field : option string) (q : string) : bool :=
  match field with
  | Some s => Js.truthy s && Js.includes (Js.toLowerCase s) q
  | None => false
  end.

(** The two loops that collect [matches]. *)
Definition collectMatches (q : string) (index : Indexer.RHCIndex) : list Match :=
  flat_map (fun p =>
              flat_map (fun e =>
                          if fieldIncludes (Indexer.eventId e) q
                             || fieldIncludes (Indexer.title e) q
                          then [ {| policy := Indexer.file p; id := Indexer.eventId e;
                                    title := Indexer.title e |} ]
                          else [])
                       (Indexer.events p))
           (Indexer.policies index).

Definition newline : string := String (ascii_of_N 10) EmptyString.

(** [`- ${m.id} (${m.title || ''}) in ${m.policy}`] *)
Definition matchLine (m : Match) : string :=
  "- " ++ match id m with Some s => s | None => "undefined" end
  ++ " (" ++ Js.orElse (title m) EmptyString ++ ") in " ++ policy m.

Definition report (query : string) (matches : list Match) : string :=
  let body := Js.join newline (map matchLine matches) in
  "# Event Search: " ++ query ++ newline ++ newline
  ++ Js.ofNat (List.length matches) ++ " match(es)" ++ newline ++ newline
  ++ (if Js.truthy body then body else "No matches.").

(** [searchEvents()]: [input] is what the input box returned, [None] when it
    was dismissed; the result is the content of the document shown, if any. *)
Definition searchEvents (input : option string) (index : Indexer.RHCIndex) : option string :=
  match input with
  | None => None
  | Some query =>
      if Js.truthy query
      then let q := Js.toLowerCase query in
           Some (report query (collectMatches q index))
      else None
  end.

End SearchEvents.

(** ** [commands/createOrUpdateTools/scaffold.ts]: the names of the files *)

Module Scaffold.

(** [s.split(/[\/]/)] *)
Fixpoint splitFrom (cur : string) (s : string) : list string :=
  match s with
  | EmptyString => [cur]
  | String c r =>
      if Ascii.eqb c "/" then cur :: splitFrom EmptyString r
      else splitFrom (cur ++ String c EmptyString) r
  end.

Definition split (s : string) : list string := splitFrom EmptyString s.

(** [parts.pop()] on a non-empty array. *)
Definition pop (parts : list string) : string := List.last parts EmptyString.

(** [resourceType.split(/[\/]/).pop() || 'Resource'] *)
Definition shortName (resourceType : string) : string :=
  let last := pop (split resourceType) in
  if Js.truthy last then last else "Resource".

Definition policyFileName (resourceType : string) : string :=
  "PolicyFile_" ++ shortName resourceType ++ ".json".

Definition resourceConfigFileName (resourceType : string) : string :=
  "ResourceConfig_" ++ shortName resourceType ++ ".json".

End Scaffold.

(** ** [indexer/index.ts]: the resource configs of the index *)

Module ResourceConfigs.

(** [interface ResourceConfigIndexEntry] *)
Record ResourceConfigIndexEntry := {
  file : string;
  resourceType : option string;
  policyFile : option string;
  regionCount : option nat
}.

End ResourceConfigs.

(** ** [commands/validationTools/rules.ts] *)

Module Rules.

Inductive DiagnosticSeverity := Error | Warning | Information | Hint.

(** [interface ValidationIssue]; the optional [line] is never set. *)
Record ValidationIssue := {
  file : string;
  message : string;
  code : string;
  severity : DiagnosticSeverity
}.

(** [!x] on an optional string. *)
Definition falsy (x : option string) : bool :=
  match x with
  | Some s => negb (Js.truthy s)
  | None => true
  end.

(** [set.has(x)] and [set.add(x)] on a set of strings kept in insertion
    order. *)
Definition has (x : string) (set : list string) : bool := existsb (String.eqb x) set.

Definition add (x : string) (set : list string) : list string :=
  if has x set then set else set ++ [x].

(** The inner loop over the events of one policy file: duplicates (RHC002)
    and required fields (RHC001); [set] holds the event ids seen so far. *)
Fixpoint eventIssues (policyFile : string) (set : list string)
    (events : list Indexer.RHCEventSummary) : list ValidationIssue :=
  match events with
  | [] => []
  | e :: rest =>
      match Indexer.eventId e with
      | Some eventId =>
          if Js.truthy eventId
          then (if has eventId set
                then [ {| file := policyFile;
                          message := "Duplicate EventId " ++ eventId;
                          code := "RHC002"; severity := Error |} ]
                else [])
               ++ (if falsy (Indexer.title e) || falsy (Indexer.reasonType e)
                   then [ {| file := policyFile;
                             message := "Event " ++ eventId
                                        ++ " missing required field (title or reasonType)";
                             code := "RHC001"; severity := Error |} ]
                   else [])
               ++ eventIssues policyFile (add eventId set) rest
          else eventIssues policyFile set rest
      | None => eventIssues policyFile set rest
      end
  end.

(** [new Set(index.resourceConfigs.map(r => r.policyFile))] and its [has] on
    a file name; an absent [policyFile] is a member that no name equals. *)
Definition referenced (resourceConfigs : list ResourceConfigs.ResourceConfigIndexEntry)
    : list (option string) :=
  map ResourceConfigs.policyFile resourceConfigs.

Definition isReferenced (referenced : list (option string)) (file : string) : bool :=
  existsb (fun r => match r with
                    | Some f => String.eqb f file
                    | None => false
                    end) referenced.

(** [fileContents.get(key)] on the entries of the map. *)
Definition get (fileContents : list (string * string)) (key : string) : option string :=
  match find (fun kv => String.eqb (fst kv) key) fileContents with
  | Some kv => Some (snd kv)
  | None => None
  end.

Definition doubleQuote : string := String (ascii_of_N 34) EmptyString.

Definition recommendedActionsKey : string :=
  doubleQuote ++ "RecommendedActions" ++ doubleQuote.

(** The pattern ["RecommendedActions"\s*:\s*\[\s*\]] at the start of [s]. *)
Definition emptyActionsHere (s : string) : bool :=
  if String.prefix recommendedActionsKey s
  then match Js.dropWhileSpace (String.substring 20 (String.length s - 20) s) with
       | String c1 r1 =>
           Ascii.eqb c1 ":" &&
           match Js.dropWhileSpace r1 with
           | String c2 r2 =>
               Ascii.eqb c2 "[" &&
               match Js.dropWhileSpace r2 with
               | String c3 _ => Ascii.eqb c3 "]"
               | EmptyString => false
               end
           | EmptyString => false
           end
       | EmptyString => false
       end
  else false.

(** [/"RecommendedActions"\s*:\s*\[\s*\]/.test(content)] *)
Fixpoint testEmptyActions (content : string) : bool :=
  emptyActionsHere content ||
  match content with
  | EmptyString => false
  | String _ r => testEmptyActions r
  end.

(** The longest prefix of characters that pass [p], and what follows it. *)
Fixpoint span (p : ascii -> bool) (s : string) : string * string :=
  match s with
  | EmptyString => (EmptyString, EmptyString)
  | String c r =>
      if p c then (String c (fst (span p r)), snd (span p r))
      else (EmptyString, s)
  end.

(** [[^#>]] *)
Definition isPlaceholderChar (c : ascii) : bool :=
  negb (Ascii.eqb c "#" || Ascii.eqb c ">").

(** The pattern [<#(?!SupportCase)[^#>]+#>] at the start of [s]: the text
    matched. *)
Definition placeholderHere (s : string) : option string :=
  if String.prefix "<#" s
  then let r := String.substring 2 (String.length s - 2) s in
       if String.prefix "SupportCase" r then None
       else let body := fst (span isPlaceholderChar r) in
            let after := snd (span isPlaceholderChar r) in
            if Js.truthy body && String.prefix "#>" after
            then Some ("<#" ++ body ++ "#>")%string
            else None
  else None.

(** [content.match(/.../g)]: the matches from left to right, the search
    resuming behind each match; [skip] counts the characters of the last
    match still to pass. *)
Fixpoint matchAllFrom (skip : nat) (content : string) : list string :=
  match content with
  | EmptyString => []
  | String _ r =>
      match skip with
      | S k => matchAllFrom k r
      | O =>
          match placeholderHere content with
          | Some m => m :: matchAllFrom (String.length m - 1) r
          | None => matchAllFrom 0 r
          end
      end
  end.

Definition matchPlaceholders (content : string) : list string := matchAllFrom 0 content.

(** [[...new Set(matches)]] *)
Fixpoint unique (seen : list string) (matches : list string) : list string :=
  match matches with
  | [] => []
  | m :: rest => if has m seen then unique seen rest else m :: unique (seen ++ [m]) rest
  end.

(** [runRules(index, fileContents)]; the resource configs of the index are
    passed beside its policies. The map [policyEventIds] of the source is
    filled but never read, and is left out. *)
Definition runRules (index : Indexer.RHCIndex)
    (resourceConfigs : list ResourceConfigs.ResourceConfigIndexEntry)
    (fileContents : list (string * string)) : list ValidationIssue :=
  let policies := Indexer.policies index in
  (* RHC002, RHC001 *)
  flat_map (fun p => eventIssues (Indexer.file p) [] (Indexer.events p)) policies
  (* RHC003 *)
  ++ (let referenced := referenced resourceConfigs in
      flat_map (fun p =>
                  if negb (isReferenced referenced (Indexer.file p))
                  then [ {| file := Indexer.file p;
                            message := "Policy file is not referenced by any resource config";
                            code := "RHC003"; severity := Warning |} ]
                  else []) policies)
  (* RHC004 *)
  ++ flat_map (fun rc =>
                 if falsy (ResourceConfigs.policyFile rc)
                    || falsy (ResourceConfigs.resourceType rc)
                 then [ {| file := ResourceConfigs.file rc;
                           message := "Resource config missing PolicyFile or ResourceType";
                           code := "RHC004"; severity := Error |} ]
                 else []) resourceConfigs
  (* RHC005 *)
  ++ flat_map (fun rc =>
                 match ResourceConfigs.regionCount rc with
                 | Some O => [ {| file := ResourceConfigs.file rc;
                                  message := "MdmAccounts list is empty";
                                  code := "RHC005"; severity := Warning |} ]
                 | _ => []
                 end) resourceConfigs
  (* RHC009 *)
  ++ flat_map (fun p =>
                 match get fileContents (Indexer.file p) with
                 | Some content =>
                     if Js.truthy content
                        && (Js.includes content "Unavailable"
                            && negb (Js.includes content "<#SupportCase>"))
                     then [ {| file := Indexer.file p;
                               message := "Unavailable-related events missing SupportCase action token";
                               code := "RHC009"; severity := Information |} ]
                     else []
                 | None => []
                 end) policies
  (* RHC007 *)
  ++ flat_map (fun p =>
                 let content := Js.orElse (get fileContents (Indexer.file p)) EmptyString in
                 if testEmptyActions content
                 then [ {| file := Indexer.file p;
                           message := "One or more events have empty RecommendedActions array";
                           code := "RHC007"; severity := Error |} ]
                 else []) policies
  (* RHC006 *)
  ++ flat_map (fun p =>
                 let content := Js.orElse (get fileContents (Indexer.file p)) EmptyString in
                 match matchPlaceholders content with
                 | [] => []
                 | matches =>
                     [ {| file := Indexer.file p;
                          message := "Unresolved placeholder tokens: "
                                     ++ Js.join ", " (unique [] matches);
                          code := "RHC006"; severity := Hint |} ]
                 end) policies.

End Rules.

(** ** [commands/validationTools/unreferencedPolicies.ts] *)

Module UnreferencedPolicies.

Definition newline : string := String (ascii_of_N 10) EmptyString.

(** [index.policies.filter(p => !referenced.has(p.file))] *)
Definition unref (index : Indexer.RHCIndex)
    (resourceConfigs : list ResourceConfigs.ResourceConfigIndexEntry)
    : list Indexer.PolicyIndexEntry :=
  let referenced := map ResourceConfigs.policyFile resourceConfigs in
  filter (fun p => negb (existsb (fun r => match r with
                                           | Some f => String.eqb f (Indexer.file p)
                                           | None => false
                                           end) referenced))
         (Indexer.policies index).

(** [listUnreferencedPolicies()]: the content of the document shown. *)
Definition listUnreferencedPolicies (index : Indexer.RHCIndex)
    (resourceConfigs : list ResourceConfigs.ResourceConfigIndexEntry) : string :=
  let unref := unref index resourceConfigs in
  let body :=
    Js.join newline
      (map (fun p => ("- " ++ Indexer.file p ++ " ("
                      ++ Js.ofNat (List.length (Indexer.events p)) ++ " events)")%string)
           unref) in
  "# Unreferenced Policies (count=" ++ Js.ofNat (List.length unref) ++ ")"
  ++ newline ++ newline
  ++ (if Js.truthy body then body else "All policies are referenced.").

End UnreferencedPolicies.

(** * Specification vocabulary *)

Section Vocabulary.

Import Types Embeddings.

(** The sum of the counts of a histogram. *)
Definition total (v : list Z) : Z := fold_right Z.add 0%Z v.

(** The sum of squares and the Euclidean norm of a vector of reals. *)
Definition sumSquaresR (v : list R) : R := fold_right (fun x acc => x * x + acc)%R 0%R v.

Definition norm (v : list R) : R := sqrt (sumSquaresR v).

(** The dot product of two vectors. *)
Definition dot (a b : list R) : R :=
  fold_right (fun p acc => fst p * snd p + acc)%R 0%R (combine a b).

(** The data-model invariant of an index: every vector has the index's
    dimensionality. *)
Definition indexInvariant (d : nat) (recs : list EmbeddingRecord) : Prop :=
  Forall (fun r => List.length (vector r) = d) recs.

(** A record survives the kind and resource-type filters. *)
Definition survives (filterKind : option (list string)) (hint : option string)
    (r : EmbeddingRecord) : bool :=
  negb (skippedByKind filterKind r) && negb (skippedByHint hint r).

(** [x] may stand before [y] in a ranking: both scores are numbers and the
    one of [y] is not larger. *)
Definition descending (x y : SimilarityResult) : Prop :=
  match score x, score y with
  | Some a, Some b => (b <= a)%R
  | _, _ => False
  end.

Definition hasScore (x : SimilarityResult) : Prop := score x <> None.

(** Calls that only read the disk. *)
Definition isRead (c : FsCall) : Prop :=
  match c with
  | MkdirSync _ | WriteFileSync _ => False
  | _ => True
  end.

(** [w'] is [w] after some further disk reads. *)
Definition afterReads (w w' : World) : Prop :=
  embedder w' = embedder w /\ inMemory w' = inMemory w /\ dims w' = dims w /\
  disk w' = disk w /\ outputLines w' = outputLines w /\
  exists cs, fsCalls w' = fsCalls w ++ cs /\ Forall isRead cs.

(** The records a build deposits, in deposit order. *)
Definition builtRecords (env : Env) (idx : Indexer.RHCIndex) (w : World) : list EmbeddingRecord :=
  let e := Provider.createEmbedder (embeddingProvider env) in
  flat_map (policyRecords e) (Indexer.policies idx)
  ++ fst (documentationStage env e (withEmbedder e w)).

Definition builtDims (env : Env) : nat :=
  effectiveDimsOf (Provider.createEmbedder (embeddingProvider env)).

(** The payload a build serializes. *)
Definition builtPayload (env : Env) (idx : Indexer.RHCIndex) (w : World) : EmbeddingIndexFile :=
  {| version := INDEX_VERSION; created := now env;
     records := builtRecords env idx w; Types.dims := builtDims env |}.

(** The disk calls a build may add: reads, creating the storage directory,
    writing the index file. *)
Definition buildCall (env : Env) (c : FsCall) : Prop :=
  match c with
  | MkdirSync p => storageDir env = Some p
  | WriteFileSync p => indexFilePath env = Some p
  | _ => True
  end.

Definition sameModuleState (w w' : World) : Prop :=
  embedder w' = embedder w /\ inMemory w' = inMemory w /\ dims w' = dims w /\
  outputLines w' = outputLines w.

Definition addsCalls (P : FsCall -> Prop) (w w' : World) : Prop :=
  exists cs, fsCalls w' = fsCalls w ++ cs /\ Forall P cs.

(** Sample inputs: one policy file with one event, a workspace, disks. *)
Definition sampleIndex : Indexer.RHCIndex :=
  {| Indexer.policies :=
       [ {| Indexer.file := "PolicyFile_Foo.json";
            Indexer.events :=
              [ {| Indexer.eventId := Some "Bar"; Indexer.title := Some "Bar Title";
                   Indexer.reasonType := Some "Unplanned" |} ] |} ] |}.

Definition sampleEnv : Env :=
  {| workspaceFolder := Some "/ws"; includeDocs := Some true; embeddingProvider := None;
     baseIndex := Some sampleIndex; now := "2025-01-01T00:00:00.000Z" |}.

(** The same workspace with the stub provider configured. *)
Definition azureEnv : Env :=
  {| workspaceFolder := Some "/ws"; includeDocs := None;
     embeddingProvider := Some "azureOpenAI";
     baseIndex := Some sampleIndex; now := "2025-01-02T00:00:00.000Z" |}.

Definition emptyDisk : Disk :=
  {| storageDirExists := false; indexFile := None; documentation := Missing |}.

Definition sampleDisk : Disk :=
  {| storageDirExists := false; indexFile := None;
     documentation := Directory [("guide.md", Some "Restart the cache"); ("img", None)] |}.

Definition sampleWorld : World := initialWorld sampleEnv sampleDisk.

Definition sampleRecords : list EmbeddingRecord :=
  [ {| id := "event:PolicyFile_Foo.json#Bar"; kind := event; resourceType := Some "Foo";
       text := "Bar Bar Title Unplanned Foo"; vector := [0; 1]%R;
       meta := {| file := Some "PolicyFile_Foo.json"; eventId := Some "Bar";
                  title := Some "Bar Title"; reasonType := Some "Unplanned";
                  chunk := None |} |};
    {| id := "policy:PolicyFile_Foo.json"; kind := policy; resourceType := Some "Foo";
       text := "PolicyFile_Foo.json Foo"; vector := [1; 0]%R;
       meta := {| file := Some "PolicyFile_Foo.json"; eventId := None; title := None;
                  reasonType := None; chunk := None |} |} ].

(** A world holding a two-dimensional index. *)
Definition loadedWorld : World := withIndex sampleRecords 2 sampleWorld.

(** A persisted file of an older format. *)
Definition staleDisk : Disk :=
  {| storageDirExists := true;
     indexFile := Some (Document {| version := 1; created := "2024-01-01T00:00:00.000Z";
                                    records := sampleRecords; Types.dims := 2 |});
     documentation := Missing |}.

(** A persisted file of the current format. *)
Definition currentDisk : Disk :=
  {| storageDirExists := true;
     indexFile := Some (Document {| version := 2; created := "2024-01-01T00:00:00.000Z";
                                    records := sampleRecords; Types.dims := 2 |});
     documentation := Missing |}.

(** The persisted file can be adopted: it is there, parses, and carries the
    current format version. *)
Definition loadable (env : Env) (w : World) (parsed : EmbeddingIndexFile) : Prop :=
  indexFilePath env <> None /\
  indexFile (disk w) = Some (Document parsed) /\
  version parsed = INDEX_VERSION.

(** The persisted file cannot be adopted: no storage location, no file, a
    file that cannot be read or parsed, or another format version. *)
Definition unavailable (env : Env) (w : World) : Prop :=
  indexFilePath env = None \/
  indexFile (disk w) = None \/
  indexFile (disk w) = Some Unreadable \/
  (exists raw, indexFile (disk w) = Some (Malformed raw)) \/
  (exists parsed, indexFile (disk w) = Some (Document parsed) /\
                  version parsed <> INDEX_VERSION).

(** The claim that a build leaves the disk alone. *)
Definition buildLeavesDiskAlone : Prop :=
  forall (env : Embeddings.Env) (output : bool) (w w' : Embeddings.World),
    Embeddings.buildEmbeddingIndex env output w = Embeddings.Returned tt w' ->
    Embeddings.disk w' = Embeddings.disk w /\
    addsCalls isRead w w'.

(** The world of [sampleEnv] over an empty disk. *)
Definition emptyWorld : Embeddings.World := Embeddings.initialWorld sampleEnv emptyDisk.

(** The whitespace-delimited tokens of a phrase. *)
Definition phraseTokens (phrase : string) : list string :=
  Js.filterBoolean (Js.splitWs phrase).

(** A string of whitespace only. *)
Fixpoint allSpace (s : string) : bool :=
  match s with
  | EmptyString => true
  | String c r => Js.isSpace c && allSpace r
  end.

(** [text] contains [tok], case-insensitively. *)
Definition containsIgnoringCase (text tok : string) : Prop :=
  exists pre post, Js.toLowerCase text = (pre ++ Js.toLowerCase tok ++ post)%string.

(** What the post-filter retains: token overlap with the phrase, or a score
    above 0.20. *)
Definition relevant (phrase : string) (r : SimilarityResult) : Prop :=
  (exists t, In t (phraseTokens phrase) /\ containsIgnoringCase (stext r) t) \/
  (exists x, score r = Some x /\ (20 / 100 < x)%R).

(** The answer is announced as the low-confidence fallback. *)
Definition flaggedFallback (a : Rag.RagAnswer) : bool :=
  String.prefix "No strong token matches" (Rag.markdown a).

(** A persisted document obeys the data-model invariant. *)
Definition diskInvariant (d : Disk) : Prop :=
  forall parsed, indexFile d = Some (Document parsed) ->
                 indexInvariant (Types.dims parsed) (records parsed).

Definition worldInvariant (w : World) : Prop :=
  (forall recs, inMemory w = Some recs -> indexInvariant (dims w) recs) /\
  diskInvariant (disk w).

(** One call of an exported operation, under any host configuration. *)
Inductive step : World -> World -> Prop :=
  | step_build env output w w' :
      buildEmbeddingIndex env output w = Returned tt w' -> step w w'
  | step_build_thrown env output w message w' :
      buildEmbeddingIndex env output w = Thrown message w' -> step w w'
  | step_load env w b w' :
      ensureEmbeddingsLoaded env w = Returned b w' -> step w w'
  | step_search w q limit filterKind hint res w' :
      similaritySearch w q limit filterKind hint = Returned res w' -> step w w'.

(** The worlds reached from a fresh host over a disk whose index file, if it
    is a document, was written with vectors of its [dims]. *)
Inductive reachable : World -> Prop :=
  | reachable_fresh env d : diskInvariant d -> reachable (initialWorld env d)
  | reachable_step w w' : reachable w -> step w w' -> reachable w'.

(** A world built under the local provider, searched while the stub provider
    is the configured one. *)
Definition switchedWorld : Embeddings.World :=
  Embeddings.withEmbedder (Provider.createEmbedder (Embeddings.embeddingProvider azureEnv))
    loadedWorld.

(** Every character of a string passes a test. *)
Fixpoint allChars (p : ascii -> bool) (s : string) : bool :=
  match s with
  | EmptyString => true
  | String c r => p c && allChars p r
  end.

(** [[a-z0-9]] *)
Definition isTokenChar (c : ascii) : bool := Js.isLower c || Js.isDigit c.

(** The record the sample build deposits for the one readable documentation
    file of [sampleDisk]. *)
Definition sampleDocRecord : EmbeddingRecord :=
  {| id := "doc:guide.md#0"; kind := doc; resourceType := None;
     text := "Restart the cache";
     vector := Pseudo.pseudoEmbedVector "Restart the cache" 128;
     meta := {| file := Some "guide.md"; eventId := None; title := None;
                reasonType := None; chunk := Some 0%nat |} |}.

(** A world holding the 128-dimensional index of the one documentation
    record. *)
Definition docWorld : World := withIndex [sampleDocRecord] 128 sampleWorld.

(** An optional field is present and contains [query], case-insensitively. *)
Definition mentions (field : option string) (query : string) : Prop :=
  exists s, field = Some s /\ containsIgnoringCase s query.

(** The match the search command shows for event [e] of policy [p]. *)
Definition matchOf (p : Indexer.PolicyIndexEntry) (e : Indexer.RHCEventSummary)
    : SearchEvents.Match :=
  {| SearchEvents.policy := Indexer.file p; SearchEvents.id := Indexer.eventId e;
     SearchEvents.title := Indexer.title e |}.

(** The issues of one rule. *)
Definition issuesWithCode (c : string) (issues : list Rules.ValidationIssue)
    : list Rules.ValidationIssue :=
  filter (fun i => String.eqb (Rules.code i) c) issues.

(** The event ids of a policy file that the rules look at: the non-empty
    ones, in file order. *)
Definition eventIds (p : Indexer.PolicyIndexEntry) : list string :=
  Js.truthyFields (map Indexer.eventId (Indexer.events p)).

(** The required-field issue of event [eventId] of policy file [file]. *)
Definition missingFieldIssue (file eventId : string) : Rules.ValidationIssue :=
  {| Rules.file := file;
     Rules.message := "Event " ++ eventId ++ " missing required field (title or reasonType)";
     Rules.code := "RHC001"; Rules.severity := Rules.Error |}.

(** The codes of the rules on policy files and on resource configs, each
    with its severity. *)
Definition policyRules : list (string * Rules.DiagnosticSeverity) :=
  [ ("RHC001", Rules.Error); ("RHC002", Rules.Error); ("RHC003", Rules.Warning);
    ("RHC006", Rules.Hint); ("RHC007", Rules.Error); ("RHC009", Rules.Information) ].

Definition configRules : list (string * Rules.DiagnosticSeverity) :=
  [ ("RHC004", Rules.Error); ("RHC005", Rules.Warning) ].

(** A placeholder token [<#body#>]: a non-empty body without [#] and [>]
    that does not begin with [SupportCase]. *)
Definition placeholderToken (t : string) : Prop :=
  exists body,
    t = ("<#" ++ body ++ "#>")%string /\
    body <> EmptyString /\
    allChars Rules.isPlaceholderChar body = true /\
    String.prefix "SupportCase" body = false.

(** [content] holds a placeholder token. *)
Definition hasPlaceholder (content : string) : Prop :=
  exists pre t post, content = (pre ++ t ++ post)%string /\ placeholderToken t.

(** Resource configs and file contents for [sampleIndex]. *)
Definition sampleConfigs : list ResourceConfigs.ResourceConfigIndexEntry :=
  [ {| ResourceConfigs.file := "Prod/ResourceConfig_Foo.json";
       ResourceConfigs.resourceType := Some "Contoso/Foo";
       ResourceConfigs.policyFile := Some "PolicyFile_Foo.json";
       ResourceConfigs.regionCount := Some 0%nat |} ].

Definition sampleContents : list (string * string) :=
  [ ("PolicyFile_Foo.json", "Unavailable <#Region#>") ].

(** The world after a load adopted the persisted file of [currentDisk]. *)
Definition adoptedWorld : World :=
  withIndex sampleRecords 2
    (called (ReadFileSync "/ws/.rhc/embeddings.json")
       (called (ExistsSync "/ws/.rhc/embeddings.json")
          (initialWorld azureEnv currentDisk))).

(** The same host at another moment: only the clock differs. *)
Definition atTime (t : string) (env : Env) : Env :=
  {| workspaceFolder := workspaceFolder env; includeDocs := includeDocs env;
     embeddingProvider := embeddingProvider env; baseIndex := baseIndex env;
     now := t |}.

(** Two persisted documents agree on everything but the [created] stamp. *)
Definition sameButCreated (p p' : EmbeddingIndexFile) : Prop :=
  version p' = version p /\ records p' = records p /\ Types.dims p' = Types.dims p.

End Vocabulary.

(** * Properties *)

(** ** The model on the scenarios of the specification *)

Section Scenarios.

Import Types Embeddings.

Example tokens_camel_and_separators :
  Pseudo.tokens "virtualMachines.foo_bar--Baz  9x!"
  = ["virtual"; "machines"; "foo"; "bar"; "baz"; "9x"].
Proof. reflexivity. Qed.

Example tokens_of_blank_text : Pseudo.tokens "  .-_ !? " = [].
Proof. reflexivity. Qed.

Example hash_wraps_around : Pseudo.hash "unavailable" = 3629504592%Z.
Proof. reflexivity. Qed.

Example histogram_counts_tokens : Pseudo.histogram "bar Bar foo" 4 = [0; 0; 1; 2]%Z.
Proof. reflexivity. Qed.

Example resourceType_is_inferred :
  execPolicyFile "PolicyFile_Foo.json" = Some "Foo"
  /\ execPolicyFile "policyfile_a.b.JSON" = Some "a.b"
  /\ execPolicyFile "PolicyFile_.json" = None
  /\ execPolicyFile "Foo.json" = None.
Proof. repeat split; reflexivity. Qed.

Example scenario_record_ids :
  map (fun r => (id r, kind r, resourceType r, text r))
      (flat_map (policyRecords Provider.LocalPseudoEmbedder) (Indexer.policies sampleIndex))
  = [ ("policy:PolicyFile_Foo.json", policy, Some "Foo", "PolicyFile_Foo.json Foo");
      ("event:PolicyFile_Foo.json#Bar", event, Some "Foo", "Bar Bar Title Unplanned Foo") ].
Proof. reflexivity. Qed.

Example scenario_chunks :
  map String.length
      (chunkText (String.concat "" (repeat "0123456789" 200)) 800)
  = [800; 800; 400]%nat.
Proof. vm_compute. reflexivity. Qed.

Example kind_filter_and_hint :
  map id (filter (survives (Some ["event"]) (Some "FOO")) sampleRecords)
  = ["event:PolicyFile_Foo.json#Bar"]
  /\ filter (survives None (Some "Other")) sampleRecords = [].
Proof. split; reflexivity. Qed.

Example load_adopts_current_format :
  match ensureEmbeddingsLoaded azureEnv (initialWorld azureEnv currentDisk) with
  | Returned true w' =>
      inMemory w' = Some sampleRecords /\ dims w' = 2%nat
      /\ fsCalls w' = [ExistsSync "/ws/.rhc/embeddings.json";
                       ReadFileSync "/ws/.rhc/embeddings.json"]
  | _ => False
  end.
Proof. simpl. repeat split. Qed.

Example load_rejects_older_format :
  match ensureEmbeddingsLoaded sampleEnv (initialWorld sampleEnv staleDisk) with
  | Returned false w' => inMemory w' = None /\ dims w' = 128%nat
  | _ => False
  end.
Proof. simpl. split; reflexivity. Qed.

Example build_calls_on_empty_disk :
  match buildEmbeddingIndex sampleEnv false emptyWorld with
  | Returned _ w' =>
      fsCalls w' = [Stat "/ws/documentation"; ExistsSync "/ws/.rhc"; MkdirSync "/ws/.rhc";
                    WriteFileSync "/ws/.rhc/embeddings.json"]
      /\ storageDirExists (disk w') = true
  | Thrown _ _ => False
  end.
Proof. simpl. split; reflexivity. Qed.

End Scenarios.

(** ** Chunking reads the whole text *)

Section ChunkFacts.

Lemma string_append_nil_r (s : string) : (s ++ EmptyString)%string = s.
Proof. induction s as [|c s IH]; simpl; [reflexivity|]. rewrite IH. reflexivity. Qed.

Lemma substring_zero_length (s : string) (i : nat) : String.substring i 0 s = EmptyString.
Proof. revert i; induction s as [|c s IH]; intros [|i]; simpl; auto. Qed.

Lemma substring_past_end (s : string) (i m : nat) :
  (String.length s <= i)%nat -> String.substring i m s = EmptyString.
Proof.
  revert i; induction s as [|c s IH]; intros i H.
  - destruct i, m; reflexivity.
  - destruct i as [|i]; simpl in H; [lia|]. simpl. apply IH. lia.
Qed.

Lemma substring_split (s : string) (i a b : nat) :
  String.substring i (a + b) s
  = (String.substring i a s ++ String.substring (i + a) b s)%string.
Proof.
  revert i a; induction s as [|c s IH]; intros i a.
  - destruct i, a, b; reflexivity.
  - destruct i as [|i].
    + destruct a as [|a]; [reflexivity|]. simpl. rewrite (IH 0%nat a). reflexivity.
    + simpl. apply IH.
Qed.

Lemma substring_whole (s : string) : String.substring 0 (String.length s) s = s.
Proof. induction s as [|c s IH]; simpl; [reflexivity|]. rewrite IH. reflexivity. Qed.

Lemma chunkLoop_covers (txt : string) (size : nat) :
  (0 < size)%nat ->
  forall rounds i,
    (String.length txt - i <= rounds)%nat ->
    fold_right String.append EmptyString (Embeddings.chunkLoop rounds txt size i)
    = String.substring i (String.length txt - i) txt.
Proof.
  intros Hsize. induction rounds as [|n IH]; intros i Hr; simpl.
  - replace (String.length txt - i)%nat with 0%nat by lia.
    symmetry. apply substring_zero_length.
  - destruct (Nat.ltb_spec i (String.length txt)) as [Hlt|Hge]; simpl.
    + rewrite IH by lia.
      destruct (Nat.le_gt_cases size (String.length txt - i)) as [Hfit|Hlast].
      * rewrite <- substring_split. f_equal. lia.
      * rewrite (substring_past_end txt (i + size)) by lia.
        rewrite string_append_nil_r.
        assert (Hsplit : size = ((String.length txt - i)
                                 + (size - (String.length txt - i)))%nat) by lia.
        rewrite Hsplit at 1. rewrite substring_split.
        rewrite (substring_past_end txt (i + (String.length txt - i))) by lia.
        apply string_append_nil_r.
    + replace (String.length txt - i)%nat with 0%nat by lia.
      symmetry. apply substring_zero_length.
Qed.

(** The rounds given to the chunk loop are enough: for a positive size the
    chunks, in order, make up the text. *)
Lemma chunkText_covers (txt : string) (size : nat) :
  (0 < size)%nat ->
  fold_right String.append EmptyString (Embeddings.chunkText txt size) = txt.
Proof.
  intros Hsize. unfold Embeddings.chunkText.
  rewrite (chunkLoop_covers txt size Hsize) by lia.
  rewrite Nat.sub_0_r. apply substring_whole.
Qed.

End ChunkFacts.


(** ** The pseudo embedding *)

Section PseudoFacts.

Open Scope Z_scope.

Lemma bump_length (i : nat) (v : list Z) : List.length (Pseudo.bump i v) = List.length v.
Proof.
  revert i; induction v as [|x v IH]; intros [|i]; simpl; auto.
Qed.

Lemma bump_total (i : nat) (v : list Z) :
  (i < List.length v)%nat -> total (Pseudo.bump i v) = total v + 1.
Proof.
  revert i; induction v as [|x v IH]; intros [|i] Hi; simpl in *; try lia.
  rewrite IH by lia. lia.
Qed.

Lemma bump_nonneg (i : nat) (v : list Z) :
  Forall (fun x => 0 <= x) v -> Forall (fun x => 0 <= x) (Pseudo.bump i v).
Proof.
  intros H; revert i; induction H as [|x v Hx Hv IH]; intros [|i]; simpl;
    constructor; auto; lia.
Qed.

Lemma slot_in_range (d : nat) (tok : string) : (0 < d)%nat -> (Pseudo.slot d tok < d)%nat.
Proof.
  intros Hd. unfold Pseudo.slot.
  pose proof (Z.mod_pos_bound (Pseudo.hash tok) (Z.of_nat d)). lia.
Qed.

Lemma sumSquares_from (v : list Z) (acc : Z) :
  fold_left (fun a x => a + x * x) v acc = acc + Pseudo.sumSquares v.
Proof.
  unfold Pseudo.sumSquares. revert acc.
  induction v as [|x v IH]; intros acc; simpl; [lia|].
  rewrite IH, (IH (x * x)). lia.
Qed.

Lemma sumSquares_cons (x : Z) (v : list Z) :
  Pseudo.sumSquares (x :: v) = x * x + Pseudo.sumSquares v.
Proof.
  unfold Pseudo.sumSquares at 1. simpl. apply sumSquares_from.
Qed.

Lemma sumSquares_ge_total (v : list Z) : total v <= Pseudo.sumSquares v.
Proof.
  induction v as [|x v IH]; [unfold Pseudo.sumSquares; simpl; lia|].
  rewrite sumSquares_cons. simpl. nia.
Qed.

Lemma sumSquares_repeat_zero (n : nat) : Pseudo.sumSquares (repeat 0 n) = 0.
Proof.
  induction n as [|n IH]; [reflexivity|].
  simpl repeat. rewrite sumSquares_cons, IH. reflexivity.
Qed.

(** The token loop keeps the length, and adds one per token while [dims > 0]. *)
Lemma token_loop_invariant (d : nat) (toks : list string) (v : list Z) :
  (0 < d)%nat -> List.length v = d ->
  let v' := fold_left (fun v tok => match d with O => v | _ => Pseudo.bump (Pseudo.slot d tok) v end)
                      toks v in
  List.length v' = d /\ total v' = total v + Z.of_nat (List.length toks).
Proof.
  intros Hd. revert v. induction toks as [|tok toks IH]; intros v Hv; simpl.
  - split; [assumption|lia].
  - destruct d as [|d']; [lia|].
    destruct (IH (Pseudo.bump (Pseudo.slot (S d') tok) v)) as [Hl Ht].
    + rewrite bump_length; assumption.
    + split; [exact Hl|].
      rewrite Ht, bump_total; [lia|]. rewrite Hv. apply slot_in_range; lia.
Qed.

Lemma total_repeat_zero (n : nat) : total (repeat 0 n) = 0.
Proof. induction n; simpl; auto. Qed.

Lemma histogram_length (t : string) (d : nat) : List.length (Pseudo.histogram t d) = d.
Proof.
  unfold Pseudo.histogram. destruct d as [|d'].
  - simpl. induction (Pseudo.tokens t); simpl; auto.
  - exact (proj1 (token_loop_invariant (S d') (Pseudo.tokens t) (repeat 0 (S d'))
                    (Nat.lt_0_succ d') (repeat_length _ _))).
Qed.

Lemma histogram_total (t : string) (d : nat) :
  (0 < d)%nat -> total (Pseudo.histogram t d) = Z.of_nat (List.length (Pseudo.tokens t)).
Proof.
  intros Hd. unfold Pseudo.histogram.
  destruct (token_loop_invariant d (Pseudo.tokens t) (repeat 0 d) Hd (repeat_length _ _)) as [_ Ht].
  rewrite Ht, total_repeat_zero. lia.
Qed.

Lemma pseudoEmbedVector_length (t : string) (d : nat) :
  List.length (Pseudo.pseudoEmbedVector t d) = d.
Proof.
  unfold Pseudo.pseudoEmbedVector. cbv zeta. rewrite length_map. apply histogram_length.
Qed.

Lemma sumSquaresR_scaled (k : R) (v : list Z) :
  sumSquaresR (map (fun x => IZR x * k)%R v) = (k * k * IZR (Pseudo.sumSquares v))%R.
Proof.
  induction v as [|x v IH].
  - simpl. unfold Pseudo.sumSquares. simpl. lra.
  - rewrite sumSquares_cons. simpl. rewrite IH, plus_IZR, mult_IZR. lra.
Qed.

End PseudoFacts.

(** C1. For every text [t] and dimensionality [d > 0], [pseudoEmbedVector t d]
    has length [d]; its Euclidean norm is 1 when [t] has a token, and it is the
    all-zero vector when [t] normalizes to zero tokens. *)
Theorem pseudoEmbedVector_unit_or_zero (t : string) (d : nat) :
  (0 < d)%nat ->
  List.length (Pseudo.pseudoEmbedVector t d) = d /\
  (Pseudo.tokens t <> [] -> norm (Pseudo.pseudoEmbedVector t d) = 1%R) /\
  (Pseudo.tokens t = [] -> Pseudo.pseudoEmbedVector t d = repeat 0%R d).
Proof.
  intros Hd. split; [apply pseudoEmbedVector_length|]. split.
  - intros Htok.
    assert (Hpos : (0 < Pseudo.sumSquares (Pseudo.histogram t d))%Z).
    { pose proof (sumSquares_ge_total (Pseudo.histogram t d)) as Hge.
      rewrite (histogram_total t d Hd) in Hge.
      destruct (Pseudo.tokens t); [congruence|simpl List.length in Hge; lia]. }
    unfold norm, Pseudo.pseudoEmbedVector. cbv zeta.
    destruct (Z.eqb_spec (Pseudo.sumSquares (Pseudo.histogram t d)) 0) as [E|_]; [lia|].
    rewrite sumSquaresR_scaled.
    assert (HposR : (0 < IZR (Pseudo.sumSquares (Pseudo.histogram t d)))%R)
      by (apply IZR_lt; exact Hpos).
    set (s := IZR (Pseudo.sumSquares (Pseudo.histogram t d))) in *.
    assert (Hs : (0 < sqrt s)%R) by (apply sqrt_lt_R0; exact HposR).
    replace (1 / sqrt s * (1 / sqrt s) * s)%R with 1%R; [apply sqrt_1|].
    rewrite <- (sqrt_sqrt s) at 3 by lra. field. lra.
  - intros Htok. unfold Pseudo.pseudoEmbedVector, Pseudo.histogram. cbv zeta.
    rewrite Htok. simpl fold_left. rewrite sumSquares_repeat_zero. simpl.
    clear. induction d as [|d IH]; simpl; [reflexivity|]. rewrite IH. f_equal. lra.
Qed.

Lemma pseudoEmbedVector_unit_or_zero_witness :
  (0 < 4)%nat /\
  List.length (Pseudo.pseudoEmbedVector "virtualMachines" 4) = 4%nat.
Proof.
  split; [lia|].
  exact (proj1 (pseudoEmbedVector_unit_or_zero "virtualMachines" 4 ltac:(lia))).
Defined.

(** Both provider variants map their copy of the pseudo embedding, at their
    own dimensionality, over the batch. *)
Lemma createEmbedder_embed (setting : option string) (texts : list string) :
  Provider.embed (Provider.createEmbedder setting) texts
  = map (fun t => Provider.pseudoEmbedVector t
                    (Provider.dims (Provider.createEmbedder setting))) texts.
Proof.
  unfold Provider.createEmbedder. destruct (String.eqb _ _); reflexivity.
Qed.

Lemma createEmbedder_dims (setting : option string) :
  Provider.dims (Provider.createEmbedder setting) = 128%nat
  \/ Provider.dims (Provider.createEmbedder setting) = 1536%nat.
Proof.
  unfold Provider.createEmbedder. destruct (String.eqb _ _); [right|left]; reflexivity.
Qed.

(** C10. The copy of [pseudoEmbedVector] in the provider module computes the
    same vector as the one of the pseudo module, for every text and every
    dimensionality; so what either provider variant embeds at build time and
    what the search embeds at query time are values of that one function. *)
Theorem provider_copy_agrees :
  (forall (t : string) (d : nat),
      Provider.pseudoEmbedVector t d = Pseudo.pseudoEmbedVector t d) /\
  (forall (setting : option string) (texts : list string),
      Provider.embed (Provider.createEmbedder setting) texts
      = map (fun t => Pseudo.pseudoEmbedVector t
                        (Provider.dims (Provider.createEmbedder setting))) texts) /\
  (forall (q : string) (d : nat),
      Embeddings.pseudoEmbed q (Some d) = Pseudo.pseudoEmbedVector q d).
Proof.
  split; [|split].
  - intros t d. reflexivity.
  - intros setting texts. rewrite createEmbedder_embed. reflexivity.
  - intros q d. reflexivity.
Qed.

(** ** Cosine scoring *)

Section CosineFacts.

Open Scope R_scope.

Lemma sumSquaresR_nonneg (v : list R) : 0 <= sumSquaresR v.
Proof.
  induction v as [|x v IH]; simpl; [lra|]. pose proof (Rle_0_sqr x) as H.
  unfold Rsqr in H. lra.
Qed.

Lemma sumSquaresR_zero (v : list R) : sumSquaresR v = 0 -> Forall (fun x => x = 0) v.
Proof.
  induction v as [|x v IH]; simpl; intros H; constructor.
  - pose proof (sumSquaresR_nonneg v). pose proof (Rle_0_sqr x) as Hx. unfold Rsqr in Hx.
    assert (x * x = 0) by lra. destruct (Rmult_integral _ _ H1); assumption.
  - apply IH. pose proof (sumSquaresR_nonneg v). pose proof (Rle_0_sqr x) as Hx.
    unfold Rsqr in Hx. lra.
Qed.


Lemma dot_zero_left (a b : list R) : Forall (fun x => x = 0) a -> dot a b = 0.
Proof.
  intros H; revert b; induction H as [|x a Hx Ha IH]; intros [|y b];
    unfold dot in *; simpl; try reflexivity.
  rewrite IH, Hx. lra.
Qed.



(** The loop computes the three sums when [b] is as long as [a]. *)
Lemma cosineSums_equal_length (a b : list R) (d la lb : R) :
  List.length a = List.length b ->
  Embeddings.cosineSums a b (d, la, lb)
  = Some (d + dot a b, la + sumSquaresR a, lb + sumSquaresR b).
Proof.
  revert b d la lb; induction a as [|x a IH]; intros [|y b] d la lb Hlen;
    simpl in Hlen; try discriminate.
  - unfold dot; simpl. apply f_equal; apply f_equal2; [apply f_equal2|]; lra.
  - simpl. rewrite IH by lia. unfold dot; simpl.
    apply f_equal; apply f_equal2; [apply f_equal2|]; lra.
Qed.

Lemma cosineSums_longer (a b : list R) (acc : R * R * R) :
  (List.length a <= List.length b)%nat -> Embeddings.cosineSums a b acc <> None.
Proof.
  revert b acc; induction a as [|x a IH]; intros b acc Hlen; simpl; [discriminate|].
  destruct b as [|y b]; simpl in Hlen; [lia|].
  destruct acc as [[d la] lb]. apply IH. lia.
Qed.

Lemma cosine_value (a b : list R) :
  List.length a = List.length b ->
  Embeddings.cosine a b = Some (dot a b / Embeddings.orOne (norm a * norm b)).
Proof.
  intros Hlen. unfold Embeddings.cosine. rewrite cosineSums_equal_length by assumption.
  unfold norm. rewrite !Rplus_0_l. reflexivity.
Qed.


End CosineFacts.



(** ** Sorting and the search *)

Section SearchFacts.

Import Types Embeddings.

Lemma descending_trans (x y z : SimilarityResult) :
  descending x y -> descending y z -> descending x z.
Proof.
  unfold descending. destruct (score x), (score y), (score z); try tauto. lra.
Qed.

Lemma insertBy_length {A : Type} (cmp : A -> A -> option R) (x : A) (l : list A) :
  List.length (insertBy cmp x l) = S (List.length l).
Proof.
  induction l as [|y l IH]; simpl; [reflexivity|].
  destruct (positive (cmp y x)); simpl; auto.
Qed.

Lemma insertBy_Forall {A : Type} (cmp : A -> A -> option R) (P : A -> Prop) (x : A) (l : list A) :
  P x -> Forall P l -> Forall P (insertBy cmp x l).
Proof.
  intros Hx Hl. induction Hl as [|y l Hy Hl IH]; simpl.
  - constructor; auto.
  - destruct (positive (cmp y x)); repeat constructor; auto.
Qed.

Lemma sortBy_from_length {A : Type} (cmp : A -> A -> option R) (l placed : list A) :
  List.length (fold_left (fun p x => insertBy cmp x p) l placed)
  = (List.length l + List.length placed)%nat.
Proof.
  revert placed; induction l as [|x l IH]; intros placed; simpl; [reflexivity|].
  rewrite IH, insertBy_length. lia.
Qed.

Lemma sortBy_length {A : Type} (cmp : A -> A -> option R) (l : list A) :
  List.length (sortBy cmp l) = List.length l.
Proof. unfold sortBy. rewrite sortBy_from_length. simpl. lia. Qed.

Lemma insertBy_descending (x : SimilarityResult) (l : list SimilarityResult) :
  hasScore x -> Forall hasScore l -> StronglySorted descending l ->
  StronglySorted descending (insertBy byScoreDescending x l).
Proof.
  intros Hx Hl Hs. induction Hs as [|y l Hs IH Hy]; simpl.
  - repeat constructor.
  - inversion Hl as [|? ? Hys Hl']; subst.
    unfold positive, byScoreDescending.
    unfold hasScore in Hx, Hys.
    destruct (score x) as [sx|] eqn:Ex; [|congruence].
    destruct (score y) as [sy|] eqn:Ey; [|congruence].
    destruct (Rlt_dec 0 (sx - sy)) as [Hlt|Hge].
    + constructor; [constructor; assumption|].
      assert (Hxy : descending x y) by (unfold descending; rewrite Ex, Ey; lra).
      constructor; [exact Hxy|].
      eapply Forall_impl; [|exact Hy]. intros z Hz. eapply descending_trans; eassumption.
    + constructor; [apply IH; assumption|].
      apply insertBy_Forall; [|exact Hy].
      unfold descending; rewrite Ex, Ey; lra.
Qed.

Lemma sortBy_from_descending (l placed : list SimilarityResult) :
  Forall hasScore l -> Forall hasScore placed -> StronglySorted descending placed ->
  StronglySorted descending (fold_left (fun p x => insertBy byScoreDescending x p) l placed).
Proof.
  intros Hl; revert placed; induction Hl as [|x l Hx Hl IH]; intros placed Hp Hs; simpl.
  - exact Hs.
  - apply IH.
    + apply insertBy_Forall; assumption.
    + apply insertBy_descending; assumption.
Qed.

Lemma sortBy_descending (l : list SimilarityResult) :
  Forall hasScore l -> StronglySorted descending (sortBy byScoreDescending l).
Proof.
  intros Hl. apply sortBy_from_descending; [exact Hl|constructor|constructor].
Qed.

Lemma firstn_Forall {A : Type} (P : A -> Prop) (n : nat) (l : list A) :
  Forall P l -> Forall P (firstn n l).
Proof.
  intros H; revert n; induction H as [|x l Hx Hl IH]; intros [|n]; simpl;
    constructor; auto.
Qed.

Lemma firstn_StronglySorted {A : Type} (R : A -> A -> Prop) (n : nat) (l : list A) :
  StronglySorted R l -> StronglySorted R (firstn n l).
Proof.
  intros Hs; revert n; induction Hs as [|x l Hs IH Hx]; intros [|n]; simpl;
    try constructor; auto.
  apply firstn_Forall, Hx.
Qed.

(** The loop of the search pushes one result per surviving record, in order. *)
Lemma search_loop (qv : list R) (filterKind : option (list string)) (hint : option string)
    (recs : list EmbeddingRecord) :
  flat_map (fun r => if skippedByKind filterKind r then []
                     else if skippedByHint hint r then []
                     else [scored qv r]) recs
  = map (scored qv) (filter (survives filterKind hint) recs).
Proof.
  unfold survives. induction recs as [|r recs IH]; simpl; [reflexivity|].
  destruct (skippedByKind filterKind r); simpl; [exact IH|].
  destruct (skippedByHint hint r); simpl; [exact IH|]. f_equal. exact IH.
Qed.

Lemma similaritySearch_value (w : World) (recs : list EmbeddingRecord) (q : string)
    (limit : option nat) (filterKind : option (list string)) (hint : option string) :
  inMemory w = Some recs ->
  similaritySearch w q limit filterKind hint
  = Returned (firstn (match limit with Some k => k | None => 10 end)
                (sortBy byScoreDescending
                   (map (scored (Pseudo.pseudoEmbedVector q (dims w)))
                        (filter (survives filterKind hint) recs)))) w.
Proof.
  intros Hm. unfold similaritySearch. rewrite Hm, search_loop. reflexivity.
Qed.

Lemma scored_hasScore (q : string) (d : nat) (recs : list EmbeddingRecord) :
  indexInvariant d recs ->
  Forall hasScore (map (scored (Pseudo.pseudoEmbedVector q d)) recs).
Proof.
  intros Hinv. apply Forall_map. eapply Forall_impl; [|exact Hinv].
  intros r Hr. unfold hasScore, scored; simpl.
  rewrite cosine_value by (rewrite pseudoEmbedVector_length; auto). discriminate.
Qed.

Lemma indexInvariant_filter (d : nat) (f : EmbeddingRecord -> bool) (recs : list EmbeddingRecord) :
  indexInvariant d recs -> indexInvariant d (filter f recs).
Proof.
  unfold indexInvariant. rewrite !Forall_forall. intros H r Hr.
  apply filter_In in Hr. apply H, Hr.
Qed.

End SearchFacts.

(** C6. On a loaded index (one that obeys the data-model invariant, as every
    index a build produced or a load adopted from such a build does), for
    every query, filters and limit [k], the search returns a sequence sorted
    by non-increasing score, of length at most [k]: the smaller of [k] and
    the number of records that survive the kind and resource-type filters. *)
Theorem similaritySearch_sorted_and_bounded (w : Embeddings.World)
    (recs : list Types.EmbeddingRecord) (q : string) (k : nat)
    (filterKind : option (list string)) (hint : option string) :
  Embeddings.inMemory w = Some recs ->
  indexInvariant (Embeddings.dims w) recs ->
  exists res : list Types.SimilarityResult,
    Embeddings.similaritySearch w q (Some k) filterKind hint = Embeddings.Returned res w /\
    StronglySorted descending res /\
    (List.length res <= k)%nat /\
    List.length res = Nat.min k (List.length (filter (survives filterKind hint) recs)).
Proof.
  intros Hm Hinv. eexists. split; [apply similaritySearch_value; exact Hm|].
  split; [|split].
  - apply firstn_StronglySorted, sortBy_descending, scored_hasScore,
      indexInvariant_filter, Hinv.
  - rewrite length_firstn. lia.
  - rewrite length_firstn, sortBy_length, length_map. reflexivity.
Qed.

(** ** The build *)

Section BuildFacts.

Import Types Embeddings.

Lemma afterReads_refl (w : World) : afterReads w w.
Proof.
  repeat split. exists []. rewrite app_nil_r. split; constructor.
Qed.

Lemma afterReads_called (c : FsCall) (w w' : World) :
  isRead c -> afterReads w w' -> afterReads w (called c w').
Proof.
  intros Hc (He & Hm & Hd & Hk & Ho & cs & Hcs & Hr).
  unfold afterReads, called; simpl. repeat split; auto.
  exists (cs ++ [c]). rewrite Hcs, app_assoc. split; [reflexivity|].
  apply Forall_app. split; [exact Hr|]. repeat constructor. exact Hc.
Qed.

Lemma readDocs_afterReads (e : Provider.Embedder) (root : string) (w : World) :
  afterReads w (snd (readDocs e root w)).
Proof.
  unfold readDocs.
  assert (H1 : afterReads w (called (Stat (pathJoin root "documentation")) w))
    by (apply afterReads_called; [exact I|apply afterReads_refl]).
  destruct (documentation (disk w)) as [| |entries]; simpl; try exact H1.
  assert (H2 : afterReads w (called (Readdir (pathJoin root "documentation"))
                               (called (Stat (pathJoin root "documentation")) w)))
    by (apply afterReads_called; [exact I|exact H1]).
  revert H2.
  generalize (called (Readdir (pathJoin root "documentation"))
                (called (Stat (pathJoin root "documentation")) w)).
  generalize (@nil EmbeddingRecord).
  induction entries as [|[f content] entries IH]; intros recs w' H2; simpl; [exact H2|].
  destruct content as [txt|]; simpl; apply IH; apply afterReads_called; auto; exact I.
Qed.

Lemma documentationStage_afterReads (env : Env) (e : Provider.Embedder) (w : World) :
  afterReads w (snd (documentationStage env e w)).
Proof.
  unfold documentationStage.
  destruct (includeDocs env) as [[|]|]; simpl; try apply afterReads_refl.
  destruct (workspaceRoot env) as [root|]; simpl; try apply afterReads_refl.
  destruct (Js.truthy root); simpl; [apply readDocs_afterReads|apply afterReads_refl].
Qed.

(** Every record a [forEach] pushes satisfies what holds at each index. *)
Lemma forEachFrom_Forall {A B : Type} (P : B -> Prop) (f : A -> nat -> B) (l : list A) (k : nat) :
  (forall j x, nth_error l j = Some x -> P (f x (k + j)%nat)) ->
  Forall P (forEachFrom k f l).
Proof.
  revert k; induction l as [|x l IH]; intros k H; simpl; constructor.
  - specialize (H 0%nat x eq_refl). rewrite Nat.add_0_r in H. exact H.
  - apply IH. intros j y Hj. specialize (H (S j) y Hj).
    rewrite Nat.add_succ_r in H. exact H.
Qed.

Lemma nth_map_at {A B : Type} (g : A -> B) (l : list A) (i : nat) (x : A) (d : B) :
  nth_error l i = Some x -> nth i (map g l) d = g x.
Proof.
  intros H. apply nth_error_nth. apply map_nth_error. exact H.
Qed.

Lemma policyRecords_invariant (setting : option string) (p : Indexer.PolicyIndexEntry) :
  indexInvariant (Provider.dims (Provider.createEmbedder setting))
                 (policyRecords (Provider.createEmbedder setting) p).
Proof.
  unfold indexInvariant, policyRecords. cbv zeta. constructor.
  - simpl vector. rewrite createEmbedder_embed. simpl. apply pseudoEmbedVector_length.
  - apply forEachFrom_Forall. intros j ev Hj. simpl.
    rewrite createEmbedder_embed, map_map.
    rewrite (nth_map_at _ _ _ _ _ Hj). apply pseudoEmbedVector_length.
Qed.

Lemma docRecords_invariant (setting : option string) (f txt : string) :
  indexInvariant (Provider.dims (Provider.createEmbedder setting))
                 (docRecords (Provider.createEmbedder setting) f txt).
Proof.
  unfold indexInvariant, docRecords. cbv zeta.
  apply forEachFrom_Forall. intros j c Hj. simpl.
  rewrite createEmbedder_embed.
  rewrite (nth_map_at _ _ _ _ _ Hj). apply pseudoEmbedVector_length.
Qed.

Lemma readDocs_invariant (setting : option string) (root : string) (w : World) :
  indexInvariant (Provider.dims (Provider.createEmbedder setting))
                 (fst (readDocs (Provider.createEmbedder setting) root w)).
Proof.
  unfold readDocs. destruct (documentation (disk w)) as [| |entries]; simpl;
    try constructor.
  generalize (called (Readdir (pathJoin root "documentation"))
                (called (Stat (pathJoin root "documentation")) w)).
  assert (H0 : indexInvariant (Provider.dims (Provider.createEmbedder setting)) [])
    by constructor.
  revert H0. generalize (@nil EmbeddingRecord).
  induction entries as [|[f content] entries IH]; intros recs H0 w'; simpl; [exact H0|].
  destruct content as [txt|]; simpl; apply IH; auto.
  apply Forall_app. split; [exact H0|apply docRecords_invariant].
Qed.

Lemma documentationStage_invariant (env : Env) (setting : option string) (w : World) :
  indexInvariant (Provider.dims (Provider.createEmbedder setting))
                 (fst (documentationStage env (Provider.createEmbedder setting) w)).
Proof.
  unfold documentationStage.
  destruct (includeDocs env) as [[|]|]; simpl; try constructor.
  destruct (workspaceRoot env) as [root|]; simpl; try constructor.
  destruct (Js.truthy root); simpl; [apply readDocs_invariant|constructor].
Qed.

Lemma effectiveDimsOf_createEmbedder (setting : option string) :
  effectiveDimsOf (Provider.createEmbedder setting)
  = Provider.dims (Provider.createEmbedder setting).
Proof.
  unfold effectiveDimsOf.
  destruct (createEmbedder_dims setting) as [H|H]; rewrite H; reflexivity.
Qed.

Lemma builtRecords_invariant (env : Env) (idx : Indexer.RHCIndex) (w : World) :
  indexInvariant (builtDims env) (builtRecords env idx w).
Proof.
  unfold builtDims, builtRecords. cbv zeta. rewrite effectiveDimsOf_createEmbedder.
  apply Forall_app. split; [|apply documentationStage_invariant].
  apply Forall_flat_map. apply Forall_forall. intros p _. apply policyRecords_invariant.
Qed.

End BuildFacts.

Section BuildEffects.

Import Types Embeddings.

Lemma addsCalls_trans (P : FsCall -> Prop) (w1 w2 w3 : World) :
  addsCalls P w1 w2 -> addsCalls P w2 w3 -> addsCalls P w1 w3.
Proof.
  intros (c1 & H1 & F1) (c2 & H2 & F2). exists (c1 ++ c2).
  rewrite H2, H1, app_assoc. split; [reflexivity|]. apply Forall_app; auto.
Qed.

Lemma isRead_buildCall (env : Env) (c : FsCall) : isRead c -> buildCall env c.
Proof. destruct c; simpl; tauto. Qed.

Lemma ensureStorageDir_effects (env : Env) (w : World) :
  sameModuleState w (ensureStorageDir env w) /\
  indexFile (disk (ensureStorageDir env w)) = indexFile (disk w) /\
  documentation (disk (ensureStorageDir env w)) = documentation (disk w) /\
  (storageDir env <> None -> storageDirExists (disk (ensureStorageDir env w)) = true) /\
  (storageDir env = None -> ensureStorageDir env w = w) /\
  addsCalls (buildCall env) w (ensureStorageDir env w).
Proof.
  unfold ensureStorageDir, sameModuleState, addsCalls.
  destruct (storageDir env) as [dir|] eqn:Hdir.
  - simpl. destruct (storageDirExists (disk w)) eqn:Hex; simpl; repeat split; auto;
      try discriminate.
    + exists [ExistsSync dir]. split; [reflexivity|]. repeat constructor.
    + exists [ExistsSync dir; MkdirSync dir]. rewrite <- app_assoc. split; [reflexivity|].
      repeat constructor. simpl. exact Hdir.
  - repeat split; auto; try congruence. exists []. rewrite app_nil_r. split; constructor.
Qed.

Lemma writeIndexFile_effects (env : Env) (payload : EmbeddingIndexFile) (w : World) :
  sameModuleState w (writeIndexFile env payload w) /\
  storageDirExists (disk (writeIndexFile env payload w)) = storageDirExists (disk w) /\
  documentation (disk (writeIndexFile env payload w)) = documentation (disk w) /\
  (indexFilePath env <> None ->
   indexFile (disk (writeIndexFile env payload w)) = Some (Document payload)) /\
  (indexFilePath env = None -> writeIndexFile env payload w = w) /\
  addsCalls (buildCall env) w (writeIndexFile env payload w).
Proof.
  unfold writeIndexFile, sameModuleState, addsCalls.
  destruct (indexFilePath env) as [file|] eqn:Hfile.
  - simpl. repeat split; auto; try discriminate.
    exists [WriteFileSync file]. split; [reflexivity|]. repeat constructor. exact Hfile.
  - repeat split; auto; try congruence. exists []. rewrite app_nil_r. split; constructor.
Qed.

Lemma indexFilePath_storageDir (env : Env) :
  indexFilePath env = None <-> storageDir env = None.
Proof.
  unfold indexFilePath. destruct (storageDir env); split; congruence.
Qed.

Lemma buildEmbeddingIndex_unfold (env : Env) (output : bool) (w : World) (idx : Indexer.RHCIndex) :
  baseIndex env = Some idx ->
  buildEmbeddingIndex env output w
  = Returned tt
      (let e := Provider.createEmbedder (embeddingProvider env) in
       let w2 := withIndex (builtRecords env idx w) (builtDims env)
                   (writeIndexFile env (builtPayload env idx w)
                      (ensureStorageDir env
                         (snd (documentationStage env e (withEmbedder e w))))) in
       if output
       then appendLine (builtMessage (List.length (builtRecords env idx w)) (builtDims env)) w2
       else w2).
Proof.
  intros Hidx. unfold buildEmbeddingIndex. rewrite Hidx. reflexivity.
Qed.

(** What a build returns and every field of the world it leaves. *)
Lemma buildEmbeddingIndex_world (env : Env) (output : bool) (w : World) (idx : Indexer.RHCIndex) :
  baseIndex env = Some idx ->
  exists w' : World,
    buildEmbeddingIndex env output w = Returned tt w' /\
    embedder w' = Provider.createEmbedder (embeddingProvider env) /\
    inMemory w' = Some (builtRecords env idx w) /\
    dims w' = builtDims env /\
    outputLines w'
    = outputLines w
      ++ (if output
          then [builtMessage (List.length (builtRecords env idx w)) (builtDims env)]
          else []) /\
    documentation (disk w') = documentation (disk w) /\
    (indexFilePath env <> None ->
     indexFile (disk w') = Some (Document (builtPayload env idx w)) /\
     storageDirExists (disk w') = true) /\
    (indexFilePath env = None -> disk w' = disk w) /\
    addsCalls (buildCall env) w w'.
Proof.
  intros Hidx. rewrite (buildEmbeddingIndex_unfold env output w idx Hidx). cbv zeta.
  set (e := Provider.createEmbedder (embeddingProvider env)).
  set (docs := documentationStage env e (withEmbedder e w)).
  set (w1 := ensureStorageDir env (snd docs)).
  set (w2 := writeIndexFile env (builtPayload env idx w) w1).
  destruct (documentationStage_afterReads env e (withEmbedder e w))
    as (De & Dm & Dd & Dk & Do & cs & Dcs & Dr).
  fold docs in De, Dm, Dd, Dk, Do, Dcs.
  destruct (ensureStorageDir_effects env (snd docs))
    as ((Se & Sm & Sd & So) & Sf & Sdoc & Sex & Snone & Scalls).
  fold w1 in Se, Sm, Sd, So, Sf, Sdoc, Sex, Snone, Scalls.
  destruct (writeIndexFile_effects env (builtPayload env idx w) w1)
    as ((We & Wm & Wd & Wo) & Wex & Wdoc & Wfile & Wnone & Wcalls).
  fold w2 in We, Wm, Wd, Wo, Wex, Wdoc, Wfile, Wnone, Wcalls.
  assert (Hcalls : addsCalls (buildCall env) w w2).
  { apply addsCalls_trans with w1; [|exact Wcalls].
    apply addsCalls_trans with (snd docs); [|exact Scalls].
    exists cs. split; [exact Dcs|].
    eapply Forall_impl; [|exact Dr]. apply isRead_buildCall. }
  simpl in Dk, Do.
  assert (Hdisk : indexFilePath env = None -> disk w2 = disk w).
  { intros Hnone. rewrite (Wnone Hnone).
    rewrite (Snone (proj1 (indexFilePath_storageDir env) Hnone)). exact Dk. }
  assert (Hdir : indexFilePath env <> None -> storageDirExists (disk w2) = true).
  { intros Hsome. rewrite Wex. apply Sex. rewrite <- indexFilePath_storageDir. exact Hsome. }
  assert (Hout : outputLines w2 = outputLines w) by (rewrite Wo, So; exact Do).
  assert (Hdoc : documentation (disk w2) = documentation (disk w))
    by (rewrite Wdoc, Sdoc, Dk; reflexivity).
  assert (Hemb : embedder w2 = e) by (rewrite We, Se, De; reflexivity).
  clearbody w2 w1 docs e.
  eexists. split; [reflexivity|].
  destruct output; simpl; rewrite Hout, Hdoc, ?app_nil_r; repeat split; auto.
Qed.

End BuildEffects.

Lemma similaritySearch_sorted_and_bounded_witness :
  exists res : list Types.SimilarityResult,
    Embeddings.similaritySearch loadedWorld "bar" (Some 1%nat) (Some ["event"; "policy"]) None
    = Embeddings.Returned res loadedWorld /\
    StronglySorted descending res /\
    (List.length res <= 1)%nat /\
    List.length res
    = Nat.min 1 (List.length (filter (survives (Some ["event"; "policy"]) None) sampleRecords)).
Proof.
  apply (similaritySearch_sorted_and_bounded loadedWorld sampleRecords "bar" 1
           (Some ["event"; "policy"]) None).
  - reflexivity.
  - repeat constructor.
Defined.

(** ** Loading *)

Section LoadFacts.

Import Types Embeddings.

Lemma addsCalls_reads_1 (c : FsCall) (w : World) :
  isRead c -> addsCalls isRead w (called c w).
Proof. intros H. exists [c]. split; [reflexivity|]. repeat constructor. exact H. Qed.

Lemma addsCalls_reads_2 (c1 c2 : FsCall) (w : World) :
  isRead c1 -> isRead c2 -> addsCalls isRead w (called c2 (called c1 w)).
Proof.
  intros H1 H2. exists [c1; c2]. simpl. rewrite <- app_assoc.
  split; [reflexivity|]. repeat constructor; assumption.
Qed.

Lemma ensureEmbeddingsLoaded_unavailable (env : Env) (w : World) :
  inMemory w = None -> unavailable env w ->
  exists w', ensureEmbeddingsLoaded env w = Returned false w' /\
             inMemory w' = None /\ dims w' = dims w /\ embedder w' = embedder w /\
             disk w' = disk w /\ addsCalls isRead w w'.
Proof.
  intros Hm Hun. unfold ensureEmbeddingsLoaded. rewrite Hm.
  destruct (indexFilePath env) as [file|] eqn:Hfile.
  - destruct (indexFile (disk w)) as [[|raw|parsed]|] eqn:Hstored.
    + eexists; split; [reflexivity|]. simpl. repeat split; auto.
      apply addsCalls_reads_2; exact I.
    + eexists; split; [reflexivity|]. simpl. repeat split; auto.
      apply addsCalls_reads_2; exact I.
    + destruct (Z.eqb_spec (version parsed) INDEX_VERSION) as [Hv|Hv].
      * exfalso. destruct Hun as [H|[H|[H|[[raw H]|[p [H Hp]]]]]]; congruence.
      * eexists; split; [reflexivity|]. simpl. repeat split; auto.
        apply addsCalls_reads_2; exact I.
    + eexists; split; [reflexivity|]. simpl. repeat split; auto.
      apply addsCalls_reads_1; exact I.
  - eexists; split; [reflexivity|]. repeat split; auto.
    exists []. rewrite app_nil_r. split; constructor.
Qed.

Lemma ensureEmbeddingsLoaded_loadable (env : Env) (w : World) (parsed : EmbeddingIndexFile) :
  inMemory w = None -> loadable env w parsed ->
  exists w', ensureEmbeddingsLoaded env w = Returned true w' /\
             inMemory w' = Some (records parsed) /\ dims w' = Types.dims parsed /\
             embedder w' = embedder w /\ disk w' = disk w /\ addsCalls isRead w w'.
Proof.
  intros Hm (Hfile & Hstored & Hv). unfold ensureEmbeddingsLoaded. rewrite Hm.
  destruct (indexFilePath env) as [file|]; [|congruence].
  rewrite Hstored, Hv, Z.eqb_refl.
  eexists; split; [reflexivity|]. simpl. repeat split; auto.
  apply addsCalls_reads_2; exact I.
Qed.

Lemma unavailable_or_loadable (env : Env) (w : World) :
  unavailable env w \/ exists parsed, loadable env w parsed.
Proof.
  unfold unavailable, loadable.
  destruct (indexFilePath env) as [file|]; [|left; left; reflexivity].
  destruct (indexFile (disk w)) as [[|raw|parsed]|].
  - left; right; right; left; reflexivity.
  - left; right; right; right; left; exists raw; reflexivity.
  - destruct (Z.eq_dec (version parsed) INDEX_VERSION) as [Hv|Hv].
    + right. exists parsed. repeat split; [discriminate|exact Hv].
    + left; right; right; right; right. exists parsed. split; [reflexivity|exact Hv].
  - left; right; left; reflexivity.
Qed.

End LoadFacts.

(** C3. [ensureEmbeddingsLoaded] returns [true] without touching the disk
    when an in-memory index exists. Otherwise, when the persisted file is
    missing, unreadable, unparseable or of another format version, it returns
    [false], raises nothing and leaves the in-memory index and [dims] as they
    were; only on a parse with the current version does it adopt the file's
    records and [dims] and return [true]. It never raises. *)
Theorem ensureEmbeddingsLoaded_contract (env : Embeddings.Env) (w : Embeddings.World) :
  (forall recs, Embeddings.inMemory w = Some recs ->
     Embeddings.ensureEmbeddingsLoaded env w = Embeddings.Returned true w) /\
  (Embeddings.inMemory w = None -> unavailable env w ->
     exists w', Embeddings.ensureEmbeddingsLoaded env w = Embeddings.Returned false w' /\
                Embeddings.inMemory w' = Embeddings.inMemory w /\
                Embeddings.dims w' = Embeddings.dims w /\
                Embeddings.disk w' = Embeddings.disk w) /\
  (forall parsed, Embeddings.inMemory w = None -> loadable env w parsed ->
     exists w', Embeddings.ensureEmbeddingsLoaded env w = Embeddings.Returned true w' /\
                Embeddings.inMemory w' = Some (Types.records parsed) /\
                Embeddings.dims w' = Types.dims parsed /\
                Embeddings.disk w' = Embeddings.disk w) /\
  (forall w', Embeddings.inMemory w = None ->
     Embeddings.ensureEmbeddingsLoaded env w = Embeddings.Returned true w' ->
     exists parsed, loadable env w parsed) /\
  (forall message w', Embeddings.ensureEmbeddingsLoaded env w <> Embeddings.Thrown message w').
Proof.
  split; [|split; [|split; [|split]]].
  - intros recs Hm. unfold Embeddings.ensureEmbeddingsLoaded. rewrite Hm. reflexivity.
  - intros Hm Hun.
    destruct (ensureEmbeddingsLoaded_unavailable env w Hm Hun)
      as (w' & Hr & Hm' & Hd & _ & Hk & _).
    exists w'. rewrite Hm. auto.
  - intros parsed Hm Hl.
    destruct (ensureEmbeddingsLoaded_loadable env w parsed Hm Hl)
      as (w' & Hr & Hm' & Hd & _ & Hk & _).
    exists w'. auto.
  - intros w' Hm Hr. destruct (unavailable_or_loadable env w) as [Hun|Hl]; [|exact Hl].
    destruct (ensureEmbeddingsLoaded_unavailable env w Hm Hun) as (w'' & Hr' & _).
    rewrite Hr' in Hr. discriminate.
  - intros message w' Hr. destruct (Embeddings.inMemory w) as [recs|] eqn:Hm.
    + unfold Embeddings.ensureEmbeddingsLoaded in Hr. rewrite Hm in Hr. discriminate.
    + destruct (unavailable_or_loadable env w) as [Hun|[parsed Hl]].
      * destruct (ensureEmbeddingsLoaded_unavailable env w Hm Hun) as (w'' & Hr' & _).
        rewrite Hr' in Hr. discriminate.
      * destruct (ensureEmbeddingsLoaded_loadable env w parsed Hm Hl) as (w'' & Hr' & _).
        rewrite Hr' in Hr. discriminate.
Qed.

Lemma ensureEmbeddingsLoaded_contract_witness :
  exists w', Embeddings.ensureEmbeddingsLoaded sampleEnv (Embeddings.initialWorld sampleEnv staleDisk)
             = Embeddings.Returned false w' /\
             Embeddings.inMemory w' = None /\
             Embeddings.dims w' = 128%nat /\
             Embeddings.disk w' = staleDisk.
Proof.
  apply (proj1 (proj2 (ensureEmbeddingsLoaded_contract sampleEnv
                         (Embeddings.initialWorld sampleEnv staleDisk)))).
  - reflexivity.
  - right; right; right; right. eexists. split; [reflexivity|]. vm_compute. discriminate.
Defined.

(** C9. Without an in-memory index the search fails with the error
    "Embedding index not loaded" (it does not return an empty result); with an
    in-memory index, also an empty one, it returns a result and never raises
    that error. *)
Theorem similaritySearch_requires_loaded_index (w : Embeddings.World) (q : string)
    (limit : option nat) (filterKind : option (list string)) (hint : option string) :
  (Embeddings.inMemory w = None ->
   Embeddings.similaritySearch w q limit filterKind hint
   = Embeddings.Thrown "Embedding index not loaded" w) /\
  (forall recs, Embeddings.inMemory w = Some recs ->
   exists res, Embeddings.similaritySearch w q limit filterKind hint
               = Embeddings.Returned res w).
Proof.
  split.
  - intros Hm. unfold Embeddings.similaritySearch. rewrite Hm. reflexivity.
  - intros recs Hm. eexists. apply similaritySearch_value. exact Hm.
Qed.

Lemma similaritySearch_requires_loaded_index_witness :
  Embeddings.similaritySearch sampleWorld "bar" None None None
  = Embeddings.Thrown "Embedding index not loaded" sampleWorld.
Proof.
  exact (proj1 (similaritySearch_requires_loaded_index sampleWorld "bar" None None None)
               eq_refl).
Defined.

(** ** Persisting and loading again *)

(** C2. Round trip: after a build that persisted its result, loading in a
    host that holds no index (over the disk the build left, for the same
    workspace, whatever else is configured) adopts exactly the record
    sequence and the [dims] the build holds in memory. *)
Theorem persist_then_load_roundtrip (env env' : Embeddings.Env) (output : bool)
    (w : Embeddings.World) (idx : Indexer.RHCIndex) (root : string) :
  Embeddings.baseIndex env = Some idx ->
  Embeddings.workspaceFolder env = Some root ->
  Js.truthy root = true ->
  Embeddings.workspaceFolder env' = Some root ->
  exists w1 : Embeddings.World,
    Embeddings.buildEmbeddingIndex env output w = Embeddings.Returned tt w1 /\
    forall fresh : Embeddings.World,
      Embeddings.inMemory fresh = None ->
      Embeddings.disk fresh = Embeddings.disk w1 ->
      exists w2 : Embeddings.World,
        Embeddings.ensureEmbeddingsLoaded env' fresh = Embeddings.Returned true w2 /\
        Embeddings.inMemory w2 = Embeddings.inMemory w1 /\
        Embeddings.dims w2 = Embeddings.dims w1.
Proof.
  intros Hidx Hroot Htruthy Hroot'.
  assert (Hpath : forall e, Embeddings.workspaceFolder e = Some root ->
                            Embeddings.indexFilePath e <> None).
  { intros e He. unfold Embeddings.indexFilePath, Embeddings.storageDir,
      Embeddings.workspaceRoot. rewrite He, Htruthy. discriminate. }
  destruct (buildEmbeddingIndex_world env output w idx Hidx)
    as (w1 & Hbuild & _ & Hm1 & Hd1 & _ & _ & Hfile & _).
  exists w1. split; [exact Hbuild|].
  intros fresh Hnone Hdisk.
  destruct (Hfile (Hpath env Hroot)) as [Hstored _].
  destruct (ensureEmbeddingsLoaded_loadable env' fresh (builtPayload env idx w) Hnone)
    as (w2 & Hload & Hm2 & Hd2 & _).
  { repeat split; [apply Hpath; exact Hroot'|rewrite Hdisk; exact Hstored]. }
  exists w2. split; [exact Hload|]. rewrite Hm2, Hd2, Hm1, Hd1. split; reflexivity.
Qed.

Lemma persist_then_load_roundtrip_witness :
  exists w1 : Embeddings.World,
    Embeddings.buildEmbeddingIndex sampleEnv true sampleWorld = Embeddings.Returned tt w1 /\
    forall fresh : Embeddings.World,
      Embeddings.inMemory fresh = None ->
      Embeddings.disk fresh = Embeddings.disk w1 ->
      exists w2 : Embeddings.World,
        Embeddings.ensureEmbeddingsLoaded azureEnv fresh = Embeddings.Returned true w2 /\
        Embeddings.inMemory w2 = Embeddings.inMemory w1 /\
        Embeddings.dims w2 = Embeddings.dims w1.
Proof.
  exact (persist_then_load_roundtrip sampleEnv azureEnv true sampleWorld sampleIndex "/ws"
           eq_refl eq_refl eq_refl eq_refl).
Defined.

(** ** Side effects of the build *)

(** C7, as stated, fails: the build itself creates the storage directory and
    writes the index file. *)
Lemma build_persists_counterexample : ~ buildLeavesDiskAlone.
Proof.
  intros H.
  destruct (buildEmbeddingIndex_world sampleEnv false emptyWorld sampleIndex eq_refl)
    as (w' & Hbuild & _ & _ & _ & _ & _ & Hfile & _).
  destruct (H sampleEnv false emptyWorld w' Hbuild) as [Hdisk _].
  destruct Hfile as [Hstored _]; [discriminate|].
  rewrite Hdisk in Hstored. discriminate.
Qed.

(** C7, amended. A build that finds the content index returns normally and:
    replaces the module's embedder by the configured one, the in-memory index
    by the records it deposits and [dims] by the provider's dimensionality;
    appends one line to the output channel when one is given; only reads the
    documentation directory; and, when there is a workspace root, itself
    persists the result: the storage directory exists afterwards and the
    index file holds the built payload. Without a workspace root the disk is
    unchanged. Its disk calls are reads, the creation of the storage directory
    and the write of the index file. *)
Theorem buildEmbeddingIndex_effects (env : Embeddings.Env) (output : bool)
    (w : Embeddings.World) (idx : Indexer.RHCIndex) :
  Embeddings.baseIndex env = Some idx ->
  exists w' : Embeddings.World,
    Embeddings.buildEmbeddingIndex env output w = Embeddings.Returned tt w' /\
    Embeddings.embedder w' = Provider.createEmbedder (Embeddings.embeddingProvider env) /\
    Embeddings.inMemory w' = Some (builtRecords env idx w) /\
    Embeddings.dims w' = builtDims env /\
    Embeddings.outputLines w'
    = Embeddings.outputLines w
      ++ (if output
          then [Embeddings.builtMessage (List.length (builtRecords env idx w)) (builtDims env)]
          else []) /\
    Embeddings.documentation (Embeddings.disk w')
    = Embeddings.documentation (Embeddings.disk w) /\
    (Embeddings.indexFilePath env <> None ->
     Embeddings.indexFile (Embeddings.disk w')
     = Some (Embeddings.Document (builtPayload env idx w)) /\
     Embeddings.storageDirExists (Embeddings.disk w') = true) /\
    (Embeddings.indexFilePath env = None -> Embeddings.disk w' = Embeddings.disk w) /\
    addsCalls (buildCall env) w w'.
Proof.
  intros Hidx. exact (buildEmbeddingIndex_world env output w idx Hidx).
Qed.

Lemma buildEmbeddingIndex_effects_witness :
  exists w' : Embeddings.World,
    Embeddings.buildEmbeddingIndex sampleEnv true sampleWorld = Embeddings.Returned tt w' /\
    Embeddings.indexFile (Embeddings.disk w')
    = Some (Embeddings.Document (builtPayload sampleEnv sampleIndex sampleWorld)) /\
    Embeddings.inMemory w' = Some (builtRecords sampleEnv sampleIndex sampleWorld).
Proof.
  destruct (buildEmbeddingIndex_effects sampleEnv true sampleWorld sampleIndex eq_refl)
    as (w' & Hbuild & _ & Hm & _ & _ & _ & Hfile & _).
  exists w'. split; [exact Hbuild|]. split; [|exact Hm].
  apply Hfile. discriminate.
Defined.

(** ** Strings: tokens and containment *)

Section StringFacts.

Lemma isSpace_lowerChar (c : ascii) : Js.isSpace (Js.lowerChar c) = Js.isSpace c.
Proof. destruct c as [[] [] [] [] [] [] [] []]; reflexivity. Qed.

Lemma mapChars_append (f : ascii -> ascii) (s t : string) :
  Js.mapChars f (s ++ t) = (Js.mapChars f s ++ Js.mapChars f t)%string.
Proof. induction s as [|c s IH]; simpl; [reflexivity|]. rewrite IH. reflexivity. Qed.

Lemma splitWsFrom_toLowerCase (cur : string) (inRun : bool) (s : string) :
  Js.splitWsFrom (Js.toLowerCase cur) inRun (Js.toLowerCase s)
  = map Js.toLowerCase (Js.splitWsFrom cur inRun s).
Proof.
  revert cur inRun; induction s as [|c s IH]; intros cur inRun; simpl; [reflexivity|].
  rewrite isSpace_lowerChar. destruct (Js.isSpace c).
  - change EmptyString with (Js.toLowerCase EmptyString) at 1 2.
    destruct inRun; simpl; rewrite IH; reflexivity.
  - rewrite <- IH. unfold Js.toLowerCase. rewrite mapChars_append. reflexivity.
Qed.

Lemma filterBoolean_toLowerCase (parts : list string) :
  Js.filterBoolean (map Js.toLowerCase parts) = map Js.toLowerCase (Js.filterBoolean parts).
Proof.
  unfold Js.filterBoolean. induction parts as [|p parts IH]; simpl; [reflexivity|].
  destruct p as [|c p]; simpl; rewrite IH; reflexivity.
Qed.

Lemma splitWsFrom_cons (cur : string) (inRun : bool) (c : ascii) (s : string) :
  Js.splitWsFrom cur inRun (String c s)
  = if Js.isSpace c
    then if inRun then Js.splitWsFrom EmptyString true s
         else cur :: Js.splitWsFrom EmptyString true s
    else Js.splitWsFrom (cur ++ String c EmptyString) false s.
Proof. reflexivity. Qed.

Lemma filterBoolean_cons (p : string) (parts : list string) :
  Js.filterBoolean (p :: parts) = (Js.filterBoolean [p] ++ Js.filterBoolean parts)%list.
Proof. unfold Js.filterBoolean. simpl. destruct (Js.truthy p); reflexivity. Qed.

(** Whitespace at the end of a string adds no token. *)
Lemma splitWsFrom_trimEnd (s cur : string) (inRun : bool) :
  (inRun = true -> cur = EmptyString) ->
  Js.filterBoolean (Js.splitWsFrom cur inRun (Js.trimEnd s))
  = Js.filterBoolean (Js.splitWsFrom cur inRun s).
Proof.
  revert cur inRun; induction s as [|c s IH]; intros cur inRun Hrun; [reflexivity|].
  simpl Js.trimEnd. rewrite (splitWsFrom_cons cur inRun c s).
  destruct (Js.trimEnd s) as [|c' s'] eqn:Ht.
  - destruct (Js.isSpace c) eqn:Hc.
    + assert (Hrest : Js.filterBoolean (Js.splitWsFrom EmptyString true s) = [])
        by (rewrite <- IH by reflexivity; reflexivity).
      destruct inRun.
      * rewrite Hrest, (Hrun eq_refl). reflexivity.
      * rewrite filterBoolean_cons, Hrest, app_nil_r. reflexivity.
    + rewrite splitWsFrom_cons, Hc. rewrite <- IH by discriminate. reflexivity.
  - rewrite splitWsFrom_cons. destruct (Js.isSpace c) eqn:Hc.
    + destruct inRun.
      * apply IH. reflexivity.
      * rewrite (filterBoolean_cons cur (Js.splitWsFrom EmptyString true (String c' s'))).
        rewrite (filterBoolean_cons cur (Js.splitWsFrom EmptyString true s)).
        f_equal. apply IH. reflexivity.
    + apply IH. discriminate.
Qed.

Lemma splitWsFrom_run_start (s : string) :
  Js.filterBoolean (Js.splitWsFrom EmptyString true s)
  = Js.filterBoolean (Js.splitWsFrom EmptyString false s).
Proof. destruct s as [|c s]; simpl; [reflexivity|]. destruct (Js.isSpace c); reflexivity. Qed.

(** Whitespace at the start of a string adds no token. *)
Lemma splitWs_dropWhileSpace (s : string) :
  Js.filterBoolean (Js.splitWs (Js.dropWhileSpace s)) = Js.filterBoolean (Js.splitWs s).
Proof.
  unfold Js.splitWs. induction s as [|c s IH]; [reflexivity|].
  simpl Js.dropWhileSpace. rewrite (splitWsFrom_cons EmptyString false c s).
  destruct (Js.isSpace c) eqn:Hc.
  - rewrite IH, filterBoolean_cons, splitWsFrom_run_start. reflexivity.
  - rewrite splitWsFrom_cons, Hc. reflexivity.
Qed.

Lemma splitWs_trim (s : string) :
  Js.filterBoolean (Js.splitWs (Js.trim s)) = Js.filterBoolean (Js.splitWs s).
Proof.
  unfold Js.trim, Js.splitWs. rewrite splitWsFrom_trimEnd by discriminate.
  apply splitWs_dropWhileSpace.
Qed.

(** The tokens the post-filter uses are the whitespace-delimited tokens of
    the phrase as given, in lower case. *)
Lemma normLowerTokens_of_phrase (phrase : string) :
  Js.filterBoolean (Js.splitWs (Js.toLowerCase (Js.trim phrase)))
  = map Js.toLowerCase (Js.filterBoolean (Js.splitWs phrase)).
Proof.
  unfold Js.splitWs at 1. change EmptyString with (Js.toLowerCase EmptyString).
  rewrite splitWsFrom_toLowerCase, filterBoolean_toLowerCase.
  fold (Js.splitWs (Js.trim phrase)). rewrite splitWs_trim. reflexivity.
Qed.

Lemma prefix_spec (t s : string) :
  String.prefix t s = true <-> exists post, s = (t ++ post)%string.
Proof.
  revert s; induction t as [|a t IH]; intros s.
  - split; [intros _; exists s; reflexivity|destruct s; reflexivity].
  - destruct s as [|b s]; simpl.
    + split; [discriminate|intros [post H]; discriminate].
    + destruct (ascii_dec a b) as [E|N].
      * subst b. rewrite IH. split; intros [post H]; exists post.
        -- rewrite H. reflexivity.
        -- injection H as H. exact H.
      * split; [discriminate|]. intros [post H]. injection H as H1 H2. congruence.
Qed.

(** [includes] decides whether [t] occurs in [s]. *)
Lemma includes_spec (s t : string) :
  Js.includes s t = true <-> exists pre post, s = (pre ++ t ++ post)%string.
Proof.
  induction s as [|c s IH].
  - change (Js.includes EmptyString t) with (String.prefix t EmptyString || false).
    rewrite orb_false_r. rewrite prefix_spec. split.
    + intros [post H]. exists EmptyString, post. exact H.
    + intros (pre & post & H). destruct pre as [|p pre]; [|discriminate].
      exists post. exact H.
  - change (Js.includes (String c s) t)
      with (String.prefix t (String c s) || Js.includes s t).
    rewrite orb_true_iff, IH, prefix_spec. split.
    + intros [[post H]|(pre & post & H)].
      * exists EmptyString, post. exact H.
      * exists (String c pre), post. rewrite H. reflexivity.
    + intros (pre & post & H). destruct pre as [|p pre].
      * left. exists post. exact H.
      * right. injection H as _ H. exists pre, post. exact H.
Qed.

(** *** Whitespace around a phrase does not change its tokens *)

Lemma isSpace_plain (c : ascii) :
  Js.isSpace c = true ->
  Js.isLower c = false /\ Js.isUpper c = false /\ Js.isSeparator c = false /\
  Js.lowerChar c = c.
Proof.
  destruct c as [[] [] [] [] [] [] [] []]; intros H; try discriminate H;
    repeat split; reflexivity.
Qed.

Lemma replaceCamel_cons_space (sp : ascii) (v : string) :
  Js.isSpace sp = true ->
  Js.replaceCamel (String sp v) = String sp (Js.replaceCamel v).
Proof.
  intros H. destruct (isSpace_plain sp H) as (Hl & _).
  destruct v as [|b v]; simpl; [reflexivity|]. rewrite Hl. reflexivity.
Qed.

Lemma replaceCamel_append_space (n : nat) :
  forall (u : string) (sp : ascii) (v : string),
    (String.length u <= n)%nat -> Js.isSpace sp = true ->
    Js.replaceCamel (u ++ String sp v)
    = (Js.replaceCamel u ++ String sp (Js.replaceCamel v))%string.
Proof.
  induction n as [|n IH]; intros u sp v Hn Hsp.
  - destruct u; [|simpl in Hn; lia]. apply replaceCamel_cons_space. exact Hsp.
  - destruct u as [|a [|b u]].
    + apply replaceCamel_cons_space. exact Hsp.
    + destruct (isSpace_plain sp Hsp) as (_ & Hu & _).
      change (Js.replaceCamel (String a EmptyString ++ String sp v))
        with (if Js.isLower a && Js.isUpper sp
              then String a (String Js.space (String sp (Js.replaceCamel v)))
              else String a (Js.replaceCamel (String sp v))).
      rewrite Hu, andb_false_r, (replaceCamel_cons_space sp v Hsp). reflexivity.
    + simpl in Hn.
      change (Js.replaceCamel (String a (String b u) ++ String sp v))
        with (if Js.isLower a && Js.isUpper b
              then String a (String Js.space (String b (Js.replaceCamel (u ++ String sp v))))
              else String a (Js.replaceCamel (String b u ++ String sp v))).
      change (Js.replaceCamel (String a (String b u)))
        with (if Js.isLower a && Js.isUpper b
              then String a (String Js.space (String b (Js.replaceCamel u)))
              else String a (Js.replaceCamel (String b u))).
      rewrite (IH u sp v) by (try exact Hsp; lia).
      rewrite (IH (String b u) sp v) by (try exact Hsp; simpl; lia).
      destruct (Js.isLower a && Js.isUpper b); reflexivity.
Qed.

Lemma replaceSeparatorRuns_append_space (u : string) (inRun : bool) (sp : ascii) (v : string) :
  Js.isSpace sp = true ->
  Js.replaceSeparatorRuns inRun (u ++ String sp v)
  = (Js.replaceSeparatorRuns inRun u ++ String sp (Js.replaceSeparatorRuns false v))%string.
Proof.
  intros Hsp. destruct (isSpace_plain sp Hsp) as (_ & _ & Hs & _).
  revert inRun; induction u as [|c u IH]; intros inRun; simpl.
  - rewrite Hs. reflexivity.
  - destruct (Js.isSeparator c); [destruct inRun|]; simpl; rewrite IH; reflexivity.
Qed.

Lemma splitWsFrom_append_space (a : string) (cur : string) (inRun : bool)
    (sp : ascii) (b : string) :
  Js.isSpace sp = true -> (inRun = true -> cur = EmptyString) ->
  Js.filterBoolean (Js.splitWsFrom cur inRun (a ++ String sp b))
  = (Js.filterBoolean (Js.splitWsFrom cur inRun a) ++ Js.filterBoolean (Js.splitWs b))%list.
Proof.
  intros Hsp. revert cur inRun; induction a as [|c a IH]; intros cur inRun Hrun.
  - change (EmptyString ++ String sp b)%string with (String sp b).
    rewrite splitWsFrom_cons, Hsp. unfold Js.splitWs.
    rewrite <- splitWsFrom_run_start. destruct inRun.
    + rewrite (Hrun eq_refl). reflexivity.
    + rewrite filterBoolean_cons. reflexivity.
  - change (String c a ++ String sp b)%string with (String c (a ++ String sp b)).
    rewrite !splitWsFrom_cons. destruct (Js.isSpace c).
    + destruct inRun.
      * apply IH. reflexivity.
      * rewrite (filterBoolean_cons cur (Js.splitWsFrom EmptyString true (a ++ String sp b))).
        rewrite (filterBoolean_cons cur (Js.splitWsFrom EmptyString true a)).
        rewrite IH by reflexivity. apply app_assoc.
    + apply IH. discriminate.
Qed.

Lemma toLowerCase_append_space (u : string) (sp : ascii) (v : string) :
  Js.isSpace sp = true ->
  Js.toLowerCase (u ++ String sp v)
  = (Js.toLowerCase u ++ String sp (Js.toLowerCase v))%string.
Proof.
  intros Hsp. destruct (isSpace_plain sp Hsp) as (_ & _ & _ & Hlow).
  unfold Js.toLowerCase. rewrite mapChars_append. simpl. rewrite Hlow. reflexivity.
Qed.

Lemma replaceNonAlnum_append_space (u : string) (sp : ascii) (v : string) :
  Js.isSpace sp = true ->
  Js.replaceNonAlnum (u ++ String sp v)
  = (Js.replaceNonAlnum u ++ String sp (Js.replaceNonAlnum v))%string.
Proof.
  intros Hsp. unfold Js.replaceNonAlnum. rewrite mapChars_append. simpl.
  rewrite Hsp, !orb_true_r. reflexivity.
Qed.

(** The tokens of two texts joined by a whitespace character. *)
Lemma tokens_append_space (u : string) (sp : ascii) (v : string) :
  Js.isSpace sp = true ->
  Pseudo.tokens (u ++ String sp v) = (Pseudo.tokens u ++ Pseudo.tokens v)%list.
Proof.
  intros Hsp. unfold Pseudo.tokens. cbv zeta.
  rewrite (replaceCamel_append_space (String.length u) u sp v (le_n _) Hsp).
  rewrite (replaceSeparatorRuns_append_space _ false sp _ Hsp).
  rewrite (toLowerCase_append_space _ sp _ Hsp).
  rewrite (replaceNonAlnum_append_space _ sp _ Hsp).
  unfold Js.splitWs at 1. apply splitWsFrom_append_space; [exact Hsp|discriminate].
Qed.

Lemma tokens_allSpace (ws : string) : allSpace ws = true -> Pseudo.tokens ws = [].
Proof.
  induction ws as [|c ws IH]; intros H; [reflexivity|].
  simpl in H. apply andb_true_iff in H. destruct H as [Hc Hws].
  change (String c ws) with (EmptyString ++ String c ws)%string.
  rewrite (tokens_append_space EmptyString c ws Hc), (IH Hws). reflexivity.
Qed.

Lemma trimEnd_decompose (s : string) :
  exists ws, s = (Js.trimEnd s ++ ws)%string /\ allSpace ws = true.
Proof.
  induction s as [|c s (ws & Hs & Hws)]; [exists EmptyString; split; reflexivity|].
  simpl Js.trimEnd. destruct (Js.trimEnd s) as [|c' s'] eqn:Ht.
  - destruct (Js.isSpace c) eqn:Hc.
    + exists (String c s). split; [reflexivity|]. simpl. rewrite Hc. simpl in Hs.
      rewrite Hs. exact Hws.
    + exists ws. split; [|exact Hws]. simpl. f_equal. exact Hs.
  - exists ws. split; [|exact Hws]. simpl. f_equal. exact Hs.
Qed.

Lemma tokens_trimEnd (s : string) : Pseudo.tokens (Js.trimEnd s) = Pseudo.tokens s.
Proof.
  destruct (trimEnd_decompose s) as (ws & Hs & Hws).
  rewrite Hs at 2. destruct ws as [|c ws].
  - rewrite string_append_nil_r. reflexivity.
  - simpl in Hws. apply andb_true_iff in Hws. destruct Hws as [Hc Hws].
    rewrite (tokens_append_space _ c ws Hc), (tokens_allSpace ws Hws), app_nil_r.
    reflexivity.
Qed.

Lemma tokens_dropWhileSpace (s : string) :
  Pseudo.tokens (Js.dropWhileSpace s) = Pseudo.tokens s.
Proof.
  induction s as [|c s IH]; [reflexivity|]. simpl.
  destruct (Js.isSpace c) eqn:Hc; [|reflexivity].
  change (String c s) with (EmptyString ++ String c s)%string.
  rewrite (tokens_append_space EmptyString c s Hc). exact IH.
Qed.

Lemma tokens_trim (s : string) : Pseudo.tokens (Js.trim s) = Pseudo.tokens s.
Proof. unfold Js.trim. rewrite tokens_trimEnd. apply tokens_dropWhileSpace. Qed.

(** Appending the keyword to the trimmed phrase or to the phrase as given
    yields the same tokens, hence the same embedding. *)
Lemma tokens_trim_keyword (phrase : string) :
  Pseudo.tokens (Js.trim phrase ++ " events") = Pseudo.tokens (phrase ++ " events").
Proof.
  change " events" with (String " " "events").
  rewrite !tokens_append_space by reflexivity. rewrite tokens_trim. reflexivity.
Qed.

Lemma pseudoEmbedVector_tokens (t1 t2 : string) (d : nat) :
  Pseudo.tokens t1 = Pseudo.tokens t2 ->
  Pseudo.pseudoEmbedVector t1 d = Pseudo.pseudoEmbedVector t2 d.
Proof.
  intros H. unfold Pseudo.pseudoEmbedVector, Pseudo.histogram. rewrite H. reflexivity.
Qed.

Lemma similaritySearch_same_tokens (w : Embeddings.World) (q1 q2 : string)
    (limit : option nat) (filterKind : option (list string)) (hint : option string) :
  Pseudo.tokens q1 = Pseudo.tokens q2 ->
  Embeddings.similaritySearch w q1 limit filterKind hint
  = Embeddings.similaritySearch w q2 limit filterKind hint.
Proof.
  intros H. unfold Embeddings.similaritySearch, Embeddings.pseudoEmbed.
  rewrite (pseudoEmbedVector_tokens q1 q2 _ H). reflexivity.
Qed.

End StringFacts.

(** ** The event-discovery helper *)

Section RagFacts.

Import Types.

Lemma overlapsOrScores_relevant (phrase : string) (r : SimilarityResult) :
  Rag.overlapsOrScores
    (Js.filterBoolean (Js.splitWs (Js.toLowerCase (Js.trim phrase)))) r = true
  <-> relevant phrase r.
Proof.
  unfold Rag.overlapsOrScores, relevant, phraseTokens, containsIgnoringCase.
  rewrite normLowerTokens_of_phrase, orb_true_iff, existsb_exists.
  assert (Hor : forall A B C D : Prop, (A <-> C) -> (B <-> D) -> (A \/ B <-> C \/ D))
    by (intros; tauto).
  apply Hor.
  - split.
    + intros (t & Ht & Hinc). apply in_map_iff in Ht. destruct Ht as (t0 & E & Ht0).
      subst t. exists t0. split; [exact Ht0|]. apply includes_spec. exact Hinc.
    + intros (t0 & Ht0 & Hc). exists (Js.toLowerCase t0).
      split; [apply in_map; exact Ht0|]. apply includes_spec. exact Hc.
  - unfold Rag.scoreAbove. destruct (score r) as [x|].
    + destruct (Rlt_dec (20 / 100) x) as [Hlt|Hge]; split.
      * intros _. exists x. split; [reflexivity|exact Hlt].
      * reflexivity.
      * discriminate.
      * intros (y & E & Hy). injection E as E. subst y. contradiction.
    + split; [discriminate|]. intros (y & E & _). discriminate.
Qed.

Lemma string_append_assoc (a b c : string) : ((a ++ b) ++ c = a ++ (b ++ c))%string.
Proof. induction a as [|x a IH]; simpl; [reflexivity|]. rewrite IH. reflexivity. Qed.

Lemma join_keeps_prefix (p sep h : string) (rest : list string) :
  String.prefix p h = true -> String.prefix p (Js.join sep (h :: rest)) = true.
Proof.
  intros H. apply prefix_spec in H. destruct H as [post H]. apply prefix_spec.
  destruct rest as [|x rest].
  - exists post. exact H.
  - exists (post ++ sep ++ Js.join sep (x :: rest))%string.
    change (Js.join sep (h :: x :: rest)) with (h ++ sep ++ Js.join sep (x :: rest))%string.
    rewrite H. apply string_append_assoc.
Qed.

Lemma prefix_first_char_differs (a b : ascii) (p h sep : string) (rest : list string) :
  a <> b -> String.prefix (String a p) (Js.join sep (String b h :: rest)) = false.
Proof.
  intros Hab. destruct rest as [|x rest]; simpl;
    destruct (ascii_dec a b); congruence.
Qed.

Lemma length_zero_nil {A : Type} (l : list A) : (List.length l =? 0)%nat = true <-> l = [].
Proof. destruct l; simpl; split; congruence. Qed.

End RagFacts.

Lemma composeAnswer_filter_or_fallback (phrase : string)
    (sims : list Types.SimilarityResult) :
  let keep := Rag.overlapsOrScores
                (Js.filterBoolean (Js.splitWs (Js.toLowerCase (Js.trim phrase)))) in
  let answer := Rag.composeAnswer (Js.trim phrase) sims in
  (filter keep sims <> [] ->
   Rag.results answer = filter keep sims /\ flaggedFallback answer = false) /\
  (filter keep sims = [] ->
   Rag.results answer = firstn (Nat.min 5 (List.length sims)) sims /\
   flaggedFallback answer = true).
Proof.
  cbv zeta. unfold Rag.composeAnswer, flaggedFallback. cbv zeta.
  set (keep := Rag.overlapsOrScores _).
  destruct (filter keep sims) as [|x kept] eqn:Hk.
  - split; [congruence|]. intros _. cbn [List.length Nat.eqb Rag.results Rag.markdown].
    split; [reflexivity|].
    match goal with
    | |- String.prefix _ (Js.join _ ([?h] ++ ?rest)) = true =>
        change ([h] ++ rest) with (h :: rest)
    end.
    apply join_keeps_prefix. reflexivity.
  - split; [|discriminate]. intros _. cbn [List.length Nat.eqb Rag.results Rag.markdown].
    split; [reflexivity|].
    refine (prefix_first_char_differs "N" "E" _ _ _ _ _). discriminate.
Qed.

(** C8. [eventsForResourceType] searches event records with the phrase
    followed by the fixed keyword [" events"] (the code trims the phrase
    first, which changes neither the tokens nor the search), then keeps
    exactly the results whose text contains, case-insensitively, a
    whitespace-delimited token of the phrase, or whose score exceeds 0.20;
    when that keeps nothing it returns the first [min 5 n] of the [n]
    unfiltered results and announces the answer as a fallback. *)
Theorem eventsForResourceType_filter_or_fallback (w : Embeddings.World)
    (recs : list Types.EmbeddingRecord) (phrase : string) (limit : option nat) :
  Embeddings.inMemory w = Some recs ->
  exists (sims : list Types.SimilarityResult) (answer : Rag.RagAnswer),
    Embeddings.similaritySearch w (phrase ++ " events")%string
      (Some (match limit with Some k => k | None => 15%nat end)) (Some ["event"]) None
    = Embeddings.Returned sims w /\
    Embeddings.similaritySearch w (Js.trim phrase ++ " events")%string
      (Some (match limit with Some k => k | None => 15%nat end)) (Some ["event"]) None
    = Embeddings.Returned sims w /\
    Rag.eventsForResourceType w phrase limit = Embeddings.Returned answer w /\
    exists keep : Types.SimilarityResult -> bool,
      (forall r, keep r = true <-> relevant phrase r) /\
      (filter keep sims <> [] ->
       Rag.results answer = filter keep sims /\ flaggedFallback answer = false) /\
      (filter keep sims = [] ->
       Rag.results answer = firstn (Nat.min 5 (List.length sims)) sims /\
       flaggedFallback answer = true).
Proof.
  intros Hm.
  pose proof (similaritySearch_value w recs (Js.trim phrase ++ " events")%string
                (Some (match limit with Some k => k | None => 15%nat end))
                (Some ["event"]) None Hm) as Hs.
  match type of Hs with _ = Embeddings.Returned ?sims _ =>
    exists sims, (Rag.composeAnswer (Js.trim phrase) sims) end.
  split; [|split; [exact Hs|]].
  { rewrite <- Hs. apply similaritySearch_same_tokens. symmetry.
    apply tokens_trim_keyword. }
  split; [unfold Rag.eventsForResourceType; cbv zeta; rewrite Hs; reflexivity|].
  exists (Rag.overlapsOrScores
            (Js.filterBoolean (Js.splitWs (Js.toLowerCase (Js.trim phrase))))).
  split; [intros r; apply overlapsOrScores_relevant|].
  apply composeAnswer_filter_or_fallback.
Qed.

Lemma eventsForResourceType_filter_or_fallback_witness :
  exists (sims : list Types.SimilarityResult) (answer : Rag.RagAnswer),
    Embeddings.similaritySearch loadedWorld (" Foo " ++ " events")%string
      (Some 15%nat) (Some ["event"]) None
    = Embeddings.Returned sims loadedWorld /\
    Embeddings.similaritySearch loadedWorld (Js.trim " Foo " ++ " events")%string
      (Some 15%nat) (Some ["event"]) None
    = Embeddings.Returned sims loadedWorld /\
    Rag.eventsForResourceType loadedWorld " Foo " None = Embeddings.Returned answer loadedWorld /\
    exists keep : Types.SimilarityResult -> bool,
      (forall r, keep r = true <-> relevant " Foo " r) /\
      (filter keep sims <> [] ->
       Rag.results answer = filter keep sims /\ flaggedFallback answer = false) /\
      (filter keep sims = [] ->
       Rag.results answer = firstn (Nat.min 5 (List.length sims)) sims /\
       flaggedFallback answer = true).
Proof.
  exact (eventsForResourceType_filter_or_fallback loadedWorld sampleRecords " Foo " None
           eq_refl).
Defined.

(** ** The worlds the module can reach *)

Section Reachability.

Import Types Embeddings.

Lemma step_worldInvariant (w w' : World) :
  worldInvariant w -> step w w' -> worldInvariant w'.
Proof.
  intros [Hmem Hdisk] Hstep. destruct Hstep as
    [env output w w' Hb|env output w message w' Hb|env w b w' Hl|w q limit fk hint res w' Hs].
  - destruct (baseIndex env) as [idx|] eqn:Hidx.
    + destruct (buildEmbeddingIndex_world env output w idx Hidx)
        as (w1 & Hb1 & _ & Hm1 & Hd1 & _ & _ & Hfile & Hnone & _).
      rewrite Hb1 in Hb. injection Hb as Hb. subst w1. split.
      * intros recs Hrecs. rewrite Hm1 in Hrecs. injection Hrecs as Hrecs. subst recs.
        rewrite Hd1. apply builtRecords_invariant.
      * intros parsed Hp. destruct (indexFilePath env) as [file|] eqn:Hpath.
        -- destruct Hfile as [Hstored _]; [discriminate|].
           rewrite Hstored in Hp. injection Hp as Hp. subst parsed.
           apply builtRecords_invariant.
        -- rewrite (Hnone eq_refl) in Hp. apply Hdisk. exact Hp.
    + unfold buildEmbeddingIndex in Hb. rewrite Hidx in Hb. discriminate.
  - unfold buildEmbeddingIndex in Hb. destruct (baseIndex env); [discriminate|].
    injection Hb as _ Hw. subst w'. split; assumption.
  - destruct (inMemory w) as [recs|] eqn:Hm.
    + unfold ensureEmbeddingsLoaded in Hl. rewrite Hm in Hl. injection Hl as _ Hw.
      subst w'. split; [rewrite Hm|]; assumption.
    + destruct (unavailable_or_loadable env w) as [Hun|[parsed Hld]].
      * destruct (ensureEmbeddingsLoaded_unavailable env w Hm Hun)
          as (w1 & Hr & Hm1 & _ & _ & Hk & _).
        rewrite Hr in Hl. injection Hl as _ Hw. subst w1. split.
        -- intros recs Hrecs. congruence.
        -- rewrite Hk. exact Hdisk.
      * destruct (ensureEmbeddingsLoaded_loadable env w parsed Hm Hld)
          as (w1 & Hr & Hm1 & Hd1 & _ & Hk & _).
        rewrite Hr in Hl. injection Hl as _ Hw. subst w1. split.
        -- intros recs Hrecs. rewrite Hm1 in Hrecs. injection Hrecs as Hrecs. subst recs.
           rewrite Hd1. apply Hdisk. apply Hld.
        -- rewrite Hk. exact Hdisk.
  - unfold similaritySearch in Hs. destruct (inMemory w) eqn:Hm; [|discriminate].
    injection Hs as _ Hw. subst w'. split; [rewrite Hm|]; assumption.
Qed.

(** Every reachable world obeys the data-model invariant. *)
Lemma reachable_worldInvariant (w : World) : reachable w -> worldInvariant w.
Proof.
  induction 1 as [env d Hd|w w' Hr IH Hstep].
  - split; [discriminate|exact Hd].
  - eapply step_worldInvariant; eassumption.
Qed.

Lemma sortBy_from_Forall {A : Type} (cmp : A -> A -> option R) (P : A -> Prop)
    (l placed : list A) :
  Forall P l -> Forall P placed ->
  Forall P (fold_left (fun p x => insertBy cmp x p) l placed).
Proof.
  intros Hl; revert placed; induction Hl as [|x l Hx Hl IH]; intros placed Hp; simpl.
  - exact Hp.
  - apply IH. apply insertBy_Forall; assumption.
Qed.

Lemma sortBy_Forall {A : Type} (cmp : A -> A -> option R) (P : A -> Prop) (l : list A) :
  Forall P l -> Forall P (sortBy cmp l).
Proof. intros Hl. apply sortBy_from_Forall; [exact Hl|constructor]. Qed.

End Reachability.

(** ** Sorting rearranges, it neither drops nor invents *)

Section OrderFacts.

Import Types Embeddings.

Lemma insertBy_Permutation {A : Type} (cmp : A -> A -> option R) (x : A) (l : list A) :
  Permutation (insertBy cmp x l) (x :: l).
Proof.
  induction l as [|y l IH]; simpl; [reflexivity|].
  destruct (positive (cmp y x)); [reflexivity|].
  rewrite IH. apply perm_swap.
Qed.

Lemma sortBy_from_Permutation {A : Type} (cmp : A -> A -> option R) (l placed : list A) :
  Permutation (fold_left (fun p x => insertBy cmp x p) l placed) (placed ++ l).
Proof.
  revert placed; induction l as [|x l IH]; intros placed; simpl.
  - rewrite app_nil_r. reflexivity.
  - rewrite IH, insertBy_Permutation. simpl. apply Permutation_middle.
Qed.

Lemma sortBy_Permutation {A : Type} (cmp : A -> A -> option R) (l : list A) :
  Permutation (sortBy cmp l) l.
Proof. unfold sortBy. apply (sortBy_from_Permutation cmp l []). Qed.

Lemma firstn_part_of {A : Type} (n : nat) (sorted l : list A) :
  Permutation sorted l -> exists rest, Permutation (firstn n sorted ++ rest) l.
Proof.
  intros H. exists (skipn n sorted). rewrite firstn_skipn. exact H.
Qed.

End OrderFacts.

(** C4. The search embeds the query with the pseudo embedding at the [dims]
    held with the in-memory index, whatever embedder is configured, and
    scores the surviving records against that vector: it returns as many
    results as the limit and the survivors allow, the results are, up to
    order, part of the survivors' copies scored against that vector, and every
    score returned is the cosine of that vector and a stored vector. The
    query vector has [dims] entries, hence as many as every stored vector of
    an index that obeys the data-model invariant, which every reachable world
    does. *)
Theorem similaritySearch_uses_index_dims (w : Embeddings.World)
    (recs : list Types.EmbeddingRecord) (q : string) (limit : option nat)
    (filterKind : option (list string)) (hint : option string) :
  Embeddings.inMemory w = Some recs ->
  let qv := Pseudo.pseudoEmbedVector q (Embeddings.dims w) in
  let survivors := filter (survives filterKind hint) recs in
  exists res : list Types.SimilarityResult,
    Embeddings.similaritySearch w q limit filterKind hint = Embeddings.Returned res w /\
    List.length res
    = Nat.min (match limit with Some k => k | None => 10%nat end) (List.length survivors) /\
    (exists rest, Permutation (res ++ rest) (map (Embeddings.scored qv) survivors)) /\
    Forall (fun s => exists r, In r recs /\ Types.sid s = Types.id r /\
                               Types.score s = Embeddings.cosine qv (Types.vector r)) res /\
    (forall e : Provider.Embedder,
        Embeddings.similaritySearch (Embeddings.withEmbedder e w) q limit filterKind hint
        = Embeddings.Returned res (Embeddings.withEmbedder e w)) /\
    List.length qv = Embeddings.dims w /\
    (indexInvariant (Embeddings.dims w) recs ->
     Forall (fun r => List.length (Types.vector r) = List.length qv) recs) /\
    (reachable w ->
     Forall (fun r => List.length (Types.vector r) = List.length qv) recs).
Proof.
  intros Hm qv survivors.
  assert (Hinv : indexInvariant (Embeddings.dims w) recs ->
                 Forall (fun r => List.length (Types.vector r) = List.length qv) recs).
  { intros Hinv. unfold qv. rewrite pseudoEmbedVector_length. exact Hinv. }
  eexists. split; [apply similaritySearch_value; exact Hm|].
  split; [|split; [|split; [|split; [|split; [|split]]]]].
  - rewrite length_firstn, sortBy_length, length_map. reflexivity.
  - apply firstn_part_of, sortBy_Permutation.
  - apply firstn_Forall, sortBy_Forall, Forall_map, Forall_forall.
    intros r Hr. apply filter_In in Hr. exists r. repeat split. apply Hr.
  - intros e. apply (similaritySearch_value (Embeddings.withEmbedder e w) recs).
    exact Hm.
  - apply pseudoEmbedVector_length.
  - exact Hinv.
  - intros Hreach. apply Hinv. apply (reachable_worldInvariant w Hreach). exact Hm.
Qed.

Lemma similaritySearch_uses_index_dims_witness :
  Provider.dims (Embeddings.embedder switchedWorld) = 1536%nat /\
  exists res : list Types.SimilarityResult,
    Embeddings.similaritySearch switchedWorld "bar" None None None
    = Embeddings.Returned res switchedWorld /\
    List.length res = 2%nat /\
    Forall (fun s => exists r, In r sampleRecords /\ Types.sid s = Types.id r /\
                               Types.score s
                               = Embeddings.cosine (Pseudo.pseudoEmbedVector "bar" 2)
                                   (Types.vector r)) res /\
    List.length (Pseudo.pseudoEmbedVector "bar" 2) = 2%nat.
Proof.
  split; [reflexivity|].
  destruct (similaritySearch_uses_index_dims switchedWorld sampleRecords "bar" None None None
              eq_refl) as (res & Hres & Hcount & _ & Hscores & _ & Hlen & _).
  exists res. split; [exact Hres|]. split; [exact Hcount|].
  split; [exact Hscores|exact Hlen].
Defined.

(** * Further properties of the code *)

(** ** Tokens and the hashed histogram ([ai/pseudo.ts]) *)

Section TokenFacts.

Lemma allChars_append (p : ascii -> bool) (s t : string) :
  allChars p (s ++ t) = allChars p s && allChars p t.
Proof.
  induction s as [|c s IH]; simpl; [reflexivity|]. rewrite IH, andb_assoc. reflexivity.
Qed.

Lemma replaceNonAlnum_chars (s : string) :
  allChars (fun c => isTokenChar c || Js.isSpace c) (Js.replaceNonAlnum s) = true.
Proof.
  unfold Js.replaceNonAlnum, isTokenChar. induction s as [|c s IH]; simpl; [reflexivity|].
  rewrite IH, andb_true_r.
  destruct (Js.isLower c || Js.isDigit c || Js.isSpace c) eqn:E; [exact E|reflexivity].
Qed.

Lemma splitWsFrom_chars (s cur : string) (inRun : bool) :
  allChars (fun c => isTokenChar c || Js.isSpace c) s = true ->
  allChars isTokenChar cur = true ->
  Forall (fun piece => allChars isTokenChar piece = true) (Js.splitWsFrom cur inRun s).
Proof.
  revert cur inRun; induction s as [|c s IH]; intros cur inRun Hs Hcur.
  - repeat constructor. exact Hcur.
  - simpl in Hs. apply andb_true_iff in Hs. destruct Hs as [Hc Hs].
    rewrite splitWsFrom_cons. destruct (Js.isSpace c) eqn:Esp.
    + destruct inRun; [|constructor; [exact Hcur|]]; apply IH; auto.
    + apply IH; [exact Hs|]. rewrite allChars_append, Hcur. simpl.
      rewrite orb_false_r in Hc. rewrite Hc. reflexivity.
Qed.

Lemma bump_comm (i j : nat) (v : list Z) :
  Pseudo.bump i (Pseudo.bump j v) = Pseudo.bump j (Pseudo.bump i v).
Proof.
  revert i j; induction v as [|x v IH]; intros [|i] [|j]; simpl; try reflexivity.
  rewrite IH. reflexivity.
Qed.

Lemma token_loop_permutation (d : nat) (toks toks' : list string) :
  Permutation toks toks' ->
  forall v : list Z,
    fold_left (fun v tok => match d with O => v | _ => Pseudo.bump (Pseudo.slot d tok) v end)
              toks v
    = fold_left (fun v tok => match d with O => v | _ => Pseudo.bump (Pseudo.slot d tok) v end)
                toks' v.
Proof.
  induction 1 as [|x l l' Hp IH|x y l|l l' l'' Hp1 IH1 Hp2 IH2]; intros v; simpl.
  - reflexivity.
  - apply IH.
  - destruct d as [|d']; [reflexivity|]. rewrite bump_comm. reflexivity.
  - rewrite IH1. apply IH2.
Qed.

Lemma histogram_nonneg (t : string) (d : nat) :
  Forall (fun x => (0 <= x)%Z) (Pseudo.histogram t d).
Proof.
  unfold Pseudo.histogram.
  assert (H0 : Forall (fun x => (0 <= x)%Z) (repeat 0%Z d)).
  { apply Forall_forall. intros x Hx. apply repeat_spec in Hx. lia. }
  revert H0. generalize (repeat 0%Z d).
  induction (Pseudo.tokens t) as [|tok toks IH]; intros v Hv; simpl; [exact Hv|].
  apply IH. destruct d; [exact Hv|]. apply bump_nonneg. exact Hv.
Qed.

Lemma square_le_sumSquares (v : list Z) (x : Z) :
  In x v -> (x * x <= Pseudo.sumSquares v)%Z.
Proof.
  induction v as [|y v IH]; intros Hin; [contradiction|].
  rewrite sumSquares_cons. destruct Hin as [E|Hin].
  - subst y. pose proof (sumSquares_ge_total v).
    assert (0 <= Pseudo.sumSquares v)%Z.
    { clear. induction v as [|z v IH]; [unfold Pseudo.sumSquares; simpl; lia|].
      rewrite sumSquares_cons. nia. }
    lia.
  - specialize (IH Hin). nia.
Qed.

End TokenFacts.

(** X1. Every token the embedding hashes is a non-empty string of lower-case
    letters and digits, whatever the text. *)
Theorem tokens_are_lowercase_alphanumeric (t : string) :
  Forall (fun tok => tok <> EmptyString /\ allChars isTokenChar tok = true)
         (Pseudo.tokens t).
Proof.
  unfold Pseudo.tokens. cbv zeta. unfold Js.filterBoolean.
  apply Forall_forall. intros tok Hin. apply filter_In in Hin. destruct Hin as [Hin Htr].
  split; [intros E; subst tok; discriminate|].
  pose proof (splitWsFrom_chars _ EmptyString false
                (replaceNonAlnum_chars
                   (Js.toLowerCase (Js.replaceSeparatorRuns false (Js.replaceCamel t))))
                eq_refl) as Hall.
  rewrite Forall_forall in Hall. apply Hall. exact Hin.
Qed.

(** X2. The embedding is a bag of tokens: two texts whose token sequences
    are permutations of each other get the same vector, at every
    dimensionality. *)
Theorem pseudoEmbedVector_ignores_token_order (t1 t2 : string) (d : nat) :
  Permutation (Pseudo.tokens t1) (Pseudo.tokens t2) ->
  Pseudo.pseudoEmbedVector t1 d = Pseudo.pseudoEmbedVector t2 d.
Proof.
  intros Hp. unfold Pseudo.pseudoEmbedVector, Pseudo.histogram.
  rewrite (token_loop_permutation d _ _ Hp). reflexivity.
Qed.

Lemma pseudoEmbedVector_ignores_token_order_witness :
  Pseudo.pseudoEmbedVector "Degraded: cache-node" 8
  = Pseudo.pseudoEmbedVector "node cache degraded" 8.
Proof.
  apply pseudoEmbedVector_ignores_token_order. vm_compute.
  apply perm_trans with ["cache"; "degraded"; "node"].
  - apply perm_swap.
  - apply perm_trans with ["cache"; "node"; "degraded"].
    + apply perm_skip, perm_swap.
    + apply perm_swap.
Defined.

(** X3. With a positive dimensionality every token increments one slot
    inside the array: the counts before normalisation are non-negative and
    add up to the number of tokens. *)
Theorem histogram_counts_every_token (t : string) (d : nat) :
  (0 < d)%nat ->
  List.length (Pseudo.histogram t d) = d /\
  Forall (fun x => (0 <= x)%Z) (Pseudo.histogram t d) /\
  total (Pseudo.histogram t d) = Z.of_nat (List.length (Pseudo.tokens t)).
Proof.
  intros Hd. split; [apply histogram_length|]. split; [apply histogram_nonneg|].
  apply histogram_total. exact Hd.
Qed.

Lemma histogram_counts_every_token_witness :
  total (Pseudo.histogram "restart the cache, then the node" 3) = 6%Z.
Proof.
  exact (proj2 (proj2 (histogram_counts_every_token "restart the cache, then the node" 3
                         ltac:(lia)))).
Defined.

Lemma pseudoEmbedVector_unit_interval (t : string) (d : nat) :
  Forall (fun x => (0 <= x <= 1)%R) (Pseudo.pseudoEmbedVector t d).
Proof.
  unfold Pseudo.pseudoEmbedVector. cbv zeta. apply Forall_map, Forall_forall.
  intros c Hc.
  pose proof (histogram_nonneg t d) as Hnn. rewrite Forall_forall in Hnn.
  specialize (Hnn c Hc).
  pose proof (square_le_sumSquares _ c Hc) as Hsq.
  set (S := Pseudo.sumSquares (Pseudo.histogram t d)) in *.
  destruct (Z.eqb_spec S 0) as [E|NE].
  - assert (c = 0)%Z by nia. subst c. lra.
  - assert (HposZ : (0 < S)%Z) by nia.
    assert (Hpos : (0 < IZR S)%R) by (apply IZR_lt; exact HposZ).
    assert (Hroot : (0 < sqrt (IZR S))%R) by (apply sqrt_lt_R0; exact Hpos).
    assert (Hc0 : (0 <= IZR c)%R) by (apply IZR_le; exact Hnn).
    assert (Hle : (IZR c <= sqrt (IZR S))%R).
    { apply Rsqr_incr_0_var; [|lra]. unfold Rsqr. rewrite sqrt_sqrt by lra.
      rewrite <- mult_IZR. apply IZR_le. exact Hsq. }
    split.
    + apply Rmult_le_pos; [exact Hc0|]. unfold Rdiv. rewrite Rmult_1_l.
      left. apply Rinv_0_lt_compat. exact Hroot.
    + unfold Rdiv. rewrite Rmult_1_l. apply (Rmult_le_reg_r (sqrt (IZR S))); [exact Hroot|].
      rewrite Rmult_assoc, Rinv_l by lra. lra.
Qed.

(** X4. Every component of an embedding lies between 0 and 1. *)
Theorem pseudoEmbedVector_components_in_unit_interval (t : string) (d : nat) :
  Forall (fun x => (0 <= x <= 1)%R) (Pseudo.pseudoEmbedVector t d).
Proof. exact (pseudoEmbedVector_unit_interval t d). Qed.

(** ** Range and symmetry of the cosine score ([ai/embeddings.ts]) *)

Section CosineRange.

Open Scope R_scope.

Lemma dot_comm (a b : list R) : dot a b = dot b a.
Proof.
  revert b; induction a as [|x a IH]; intros [|y b]; unfold dot in *; simpl;
    try reflexivity.
  rewrite IH. lra.
Qed.

Lemma dot_self (v : list R) : dot v v = sumSquaresR v.
Proof.
  induction v as [|x v IH]; unfold dot in *; simpl; [reflexivity|]. rewrite IH. reflexivity.
Qed.

(** The sum of the squares of [a_i * t + b_i], as a polynomial in [t]. *)
Lemma shifted_sumSquares (a b : list R) (t : R) :
  List.length a = List.length b ->
  sumSquaresR (map (fun p => fst p * t + snd p) (combine a b))
  = sumSquaresR a * t * t + 2 * dot a b * t + sumSquaresR b.
Proof.
  revert b; induction a as [|x a IH]; intros [|y b] Hlen; simpl in Hlen;
    try discriminate; unfold dot in *; simpl.
  - lra.
  - rewrite IH by lia. lra.
Qed.

(** Cauchy-Schwarz. *)
Lemma dot_square_bound (a b : list R) :
  List.length a = List.length b ->
  dot a b * dot a b <= sumSquaresR a * sumSquaresR b.
Proof.
  intros Hlen. pose proof (sumSquaresR_nonneg a) as HA.
  pose proof (sumSquaresR_nonneg b) as HB.
  destruct (Req_dec_T (sumSquaresR a) 0) as [E|NE].
  - rewrite (dot_zero_left a b (sumSquaresR_zero a E)), E. lra.
  - assert (Hpos : 0 < sumSquaresR a) by lra.
    pose proof (sumSquaresR_nonneg
                  (map (fun p => fst p * (- dot a b / sumSquaresR a) + snd p) (combine a b)))
      as Hq.
    rewrite (shifted_sumSquares a b _ Hlen) in Hq.
    set (A := sumSquaresR a) in *. set (B := sumSquaresR b) in *. set (D := dot a b) in *.
    assert (Heq : A * (- D / A) * (- D / A) + 2 * D * (- D / A) + B = B - D * D / A)
      by (field; lra).
    rewrite Heq in Hq.
    assert (Hm : D * D / A <= B) by lra.
    apply (Rmult_le_compat_r A) in Hm; [|lra].
    replace (D * D / A * A) with (D * D) in Hm by (field; lra). lra.
Qed.

Lemma dot_nonneg (a b : list R) :
  Forall (fun x => 0 <= x) a -> Forall (fun x => 0 <= x) b -> 0 <= dot a b.
Proof.
  intros Ha; revert b; induction Ha as [|x a Hx Ha IH]; intros b Hb; unfold dot in *;
    simpl; [lra|].
  destruct Hb as [|y b Hy Hb]; simpl; [lra|].
  specialize (IH b Hb). pose proof (Rmult_le_pos x y Hx Hy). lra.
Qed.

Lemma dot_abs_bound (a b : list R) :
  List.length a = List.length b -> Rabs (dot a b) <= norm a * norm b.
Proof.
  intros Hlen. unfold norm. rewrite <- sqrt_mult by apply sumSquaresR_nonneg.
  rewrite <- sqrt_Rsqr_abs. apply sqrt_le_1_alt. unfold Rsqr.
  apply dot_square_bound. exact Hlen.
Qed.

Lemma cosine_swap_and_self (a : list R) :
  (forall b, List.length a = List.length b -> Embeddings.cosine a b = Embeddings.cosine b a)
  /\ (norm a <> 0 -> Embeddings.cosine a a = Some 1).
Proof.
  split.
  - intros b Hlen. rewrite (cosine_value a b Hlen), (cosine_value b a (eq_sym Hlen)).
    rewrite dot_comm, (Rmult_comm (norm a)). reflexivity.
  - intros Hn. rewrite (cosine_value a a eq_refl), dot_self.
    unfold Embeddings.orOne. destruct (Req_dec_T (norm a * norm a) 0) as [E|NE].
    + destruct (Rmult_integral _ _ E); contradiction.
    + f_equal. unfold norm. rewrite sqrt_sqrt by apply sumSquaresR_nonneg.
      unfold norm in Hn. apply Rinv_r. intros Z. apply Hn. rewrite Z. apply sqrt_0.
Qed.

End CosineRange.

Lemma cosine_in_range (a b : list R) :
  List.length a = List.length b ->
  exists s : R,
    Embeddings.cosine a b = Some s /\ (-1 <= s <= 1)%R /\
    (Forall (fun x => (0 <= x)%R) a -> Forall (fun x => (0 <= x)%R) b -> (0 <= s)%R).
Proof.
  intros Hlen. rewrite (cosine_value a b Hlen). eexists. split; [reflexivity|].
  pose proof (dot_abs_bound a b Hlen) as Hb.
  assert (Hna : (0 <= norm a)%R) by apply sqrt_pos.
  assert (Hnb : (0 <= norm b)%R) by apply sqrt_pos.
  unfold Embeddings.orOne. destruct (Req_dec_T (norm a * norm b) 0) as [E|NE].
  - rewrite E in Hb. pose proof (Rabs_pos (dot a b)).
    assert (Hd : dot a b = 0%R).
    { destruct (Req_dec_T (dot a b) 0) as [Z|NZ]; [exact Z|].
      pose proof (Rabs_pos_lt _ NZ). lra. }
    rewrite Hd. unfold Rdiv. rewrite Rmult_0_l. split; [lra|]. intros _ _. lra.
  - assert (Hpos : (0 < norm a * norm b)%R).
    { pose proof (Rmult_le_pos _ _ Hna Hnb). lra. }
    split.
    + assert (Habs : (Rabs (dot a b / (norm a * norm b)) <= 1)%R).
      { unfold Rdiv. rewrite Rabs_mult.
        rewrite (Rabs_pos_eq (/ (norm a * norm b)))
          by (left; apply Rinv_0_lt_compat; exact Hpos).
        apply (Rmult_le_reg_r (norm a * norm b)); [exact Hpos|].
        rewrite Rmult_assoc, Rinv_l by lra. lra. }
      unfold Rabs in Habs.
      destruct (Rcase_abs (dot a b / (norm a * norm b))); lra.
    + intros Ha Hbn. apply Rmult_le_pos; [apply dot_nonneg; assumption|].
      left. apply Rinv_0_lt_compat. exact Hpos.
Qed.

(** X5. For vectors of equal length the cosine score is a number between
    -1 and 1; it is at least 0 when no component is negative, as for the
    vectors the pseudo embedding produces. *)
Theorem cosine_score_range (a b : list R) :
  List.length a = List.length b ->
  exists s : R,
    Embeddings.cosine a b = Some s /\ (-1 <= s <= 1)%R /\
    (Forall (fun x => (0 <= x)%R) a -> Forall (fun x => (0 <= x)%R) b -> (0 <= s)%R).
Proof. exact (cosine_in_range a b). Qed.

Lemma cosine_score_range_witness :
  exists s : R,
    Embeddings.cosine [3; 4]%R [4; 3]%R = Some s /\ (-1 <= s <= 1)%R /\
    (Forall (fun x => (0 <= x)%R) [3; 4]%R -> Forall (fun x => (0 <= x)%R) [4; 3]%R ->
     (0 <= s)%R).
Proof. exact (cosine_score_range [3; 4]%R [4; 3]%R eq_refl). Defined.

(** X6. The score is symmetric in its two vectors when they are equally
    long. Over exact real arithmetic (floats are idealised as reals: the
    rounding, overflow and underflow of binary64 are outside the statement), a
    vector that is not zero scores 1 against itself. *)
Theorem cosine_symmetric_and_reflexive (a b : list R) :
  List.length a = List.length b ->
  Embeddings.cosine a b = Embeddings.cosine b a /\
  (norm a <> 0%R -> Embeddings.cosine a a = Some 1%R).
Proof.
  intros Hlen. destruct (cosine_swap_and_self a) as [Hsym Hrefl].
  split; [apply Hsym; exact Hlen|exact Hrefl].
Qed.

Lemma cosine_symmetric_and_reflexive_witness :
  Embeddings.cosine [1; 2]%R [2; 0]%R = Embeddings.cosine [2; 0]%R [1; 2]%R.
Proof. exact (proj1 (cosine_symmetric_and_reflexive [1; 2]%R [2; 0]%R eq_refl)). Defined.

(** X7. The score loop runs over the indices of the first vector only: a
    longer second vector is read up to that length, its further components
    are ignored; a shorter second vector makes the score [NaN]. *)
Theorem cosine_length_mismatch (a b : list R) :
  ((List.length a <= List.length b)%nat ->
   Embeddings.cosine a b = Embeddings.cosine a (firstn (List.length a) b) /\
   Embeddings.cosine a b <> None) /\
  ((List.length b < List.length a)%nat -> Embeddings.cosine a b = None).
Proof.
  split.
  - intros Hle. assert (Hsums : forall acc,
        Embeddings.cosineSums a b acc
        = Embeddings.cosineSums a (firstn (List.length a) b) acc).
    { revert b Hle; induction a as [|x a IH]; intros b Hle acc; [reflexivity|].
      destruct b as [|y b]; simpl in Hle; [lia|]. simpl.
      destruct acc as [[d la] lb]. apply IH. lia. }
    split.
    + unfold Embeddings.cosine. rewrite Hsums. reflexivity.
    + unfold Embeddings.cosine.
      pose proof (cosineSums_longer a b (0, 0, 0)%R Hle) as Hs.
      destruct (Embeddings.cosineSums a b (0, 0, 0)%R) as [[[d la] lb]|];
        [discriminate|congruence].
  - intros Hlt. assert (Hsums : forall acc, Embeddings.cosineSums a b acc = None).
    { revert b Hlt; induction a as [|x a IH]; intros b Hlt acc; simpl in Hlt; [lia|].
      destruct b as [|y b]; [reflexivity|]. simpl in Hlt. simpl.
      destruct acc as [[d la] lb]. apply IH. lia. }
    unfold Embeddings.cosine. rewrite Hsums. reflexivity.
Qed.

Lemma cosine_length_mismatch_witness :
  Embeddings.cosine [1; 0]%R [1]%R = None.
Proof.
  exact (proj2 (cosine_length_mismatch [1; 0]%R [1]%R) ltac:(simpl; lia)).
Defined.

(** ** Chunking ([chunkText] in [ai/embeddings.ts]) *)

Section ChunkSizes.

Lemma substring_length (s : string) (i m : nat) :
  String.length (String.substring i m s) = Nat.min m (String.length s - i).
Proof.
  revert i m; induction s as [|c s IH]; intros i m.
  - destruct i, m; reflexivity.
  - destruct i as [|i].
    + destruct m as [|m]; [reflexivity|]. simpl. rewrite IH, Nat.sub_0_r. reflexivity.
    + simpl. apply IH.
Qed.

Lemma chunkLoop_sizes (txt : string) (size : nat) :
  (0 < size)%nat ->
  forall rounds i,
    Forall (fun c => (1 <= String.length c <= size)%nat)
           (Embeddings.chunkLoop rounds txt size i).
Proof.
  intros Hsize. induction rounds as [|n IH]; intros i; simpl; [constructor|].
  destruct (Nat.ltb_spec i (String.length txt)) as [Hlt|Hge]; [|constructor].
  constructor; [|apply IH]. rewrite substring_length. lia.
Qed.

Lemma chunkLoop_full_chunks (txt : string) (size : nat) :
  forall rounds i j,
    (S j < List.length (Embeddings.chunkLoop rounds txt size i))%nat ->
    String.length (nth j (Embeddings.chunkLoop rounds txt size i) EmptyString) = size.
Proof.
  induction rounds as [|n IH]; intros i j Hj; simpl in *; [lia|].
  destruct (Nat.ltb_spec i (String.length txt)) as [Hlt|Hge]; simpl in *; [|lia].
  destruct j as [|j].
  - destruct n as [|n]; simpl in Hj; [lia|].
    destruct (Nat.ltb_spec (i + size) (String.length txt)) as [Hlt2|Hge2]; simpl in Hj; [|lia].
    rewrite substring_length. lia.
  - apply IH. lia.
Qed.

Lemma chunkLoop_count (txt : string) (size : nat) :
  (0 < size)%nat ->
  forall rounds i,
    (String.length txt - i <= rounds)%nat ->
    List.length (Embeddings.chunkLoop rounds txt size i)
    = ((String.length txt - i + (size - 1)) / size)%nat.
Proof.
  intros Hsize. induction rounds as [|n IH]; intros i Hr; simpl.
  - replace (String.length txt - i)%nat with 0%nat by lia.
    symmetry. apply Nat.div_small. lia.
  - destruct (Nat.ltb_spec i (String.length txt)) as [Hlt|Hge]; simpl.
    + rewrite IH by lia.
      destruct (Nat.le_gt_cases (String.length txt - i) size) as [Hlast|Hmore].
      * replace (String.length txt - (i + size))%nat with 0%nat by lia.
        rewrite (Nat.div_small (0 + (size - 1)) size) by lia.
        apply (Nat.div_unique _ size 1 (String.length txt - i - 1)); lia.
      * replace (String.length txt - i + (size - 1))%nat
          with ((String.length txt - (i + size) + (size - 1)) + 1 * size)%nat by lia.
        rewrite Nat.div_add by lia. lia.
    + replace (String.length txt - i)%nat with 0%nat by lia.
      symmetry. apply Nat.div_small. lia.
Qed.

End ChunkSizes.

(** X8. For a positive chunk size, [chunkText] cuts the whole text into
    consecutive pieces without overlap: the chunks, in order, concatenate to
    the text; there are [ceil(length / size)] of them; none is empty or longer
    than the size, and every chunk before the last has exactly the size. An
    empty text has no chunk. *)
Theorem chunkText_partitions_text (txt : string) (size : nat) :
  (0 < size)%nat ->
  fold_right String.append EmptyString (Embeddings.chunkText txt size) = txt /\
  List.length (Embeddings.chunkText txt size)
  = ((String.length txt + (size - 1)) / size)%nat /\
  Forall (fun c => (1 <= String.length c <= size)%nat) (Embeddings.chunkText txt size) /\
  (forall j, (S j < List.length (Embeddings.chunkText txt size))%nat ->
             String.length (nth j (Embeddings.chunkText txt size) EmptyString) = size).
Proof.
  intros Hsize. split; [apply chunkText_covers; exact Hsize|]. unfold Embeddings.chunkText.
  split; [|split].
  - rewrite (chunkLoop_count txt size Hsize) by lia. rewrite Nat.sub_0_r. reflexivity.
  - apply chunkLoop_sizes. exact Hsize.
  - apply chunkLoop_full_chunks.
Qed.

Lemma chunkText_partitions_text_witness :
  fold_right String.append EmptyString (Embeddings.chunkText "abcdefgh" 3) = "abcdefgh" /\
  List.length (Embeddings.chunkText "abcdefgh" 3) = 3%nat.
Proof.
  destruct (chunkText_partitions_text "abcdefgh" 3 ltac:(lia)) as (H1 & H2 & _).
  split; [exact H1|exact H2].
Defined.

(** ** Resource-type inference from a policy file name ([buildEmbeddingIndex]) *)

Section InferenceFacts.

Lemma string_length_append (a b : string) :
  String.length (a ++ b) = (String.length a + String.length b)%nat.
Proof. induction a as [|c a IH]; simpl; [reflexivity|]. rewrite IH. reflexivity. Qed.

Lemma toLowerCase_length (s : string) : String.length (Js.toLowerCase s) = String.length s.
Proof.
  unfold Js.toLowerCase. induction s as [|c s IH]; simpl; [reflexivity|].
  rewrite IH. reflexivity.
Qed.

Lemma toLowerCase_append (a b : string) :
  Js.toLowerCase (a ++ b) = (Js.toLowerCase a ++ Js.toLowerCase b)%string.
Proof. apply mapChars_append. Qed.

Lemma append_same_length (a b c d : string) :
  (a ++ b)%string = (c ++ d)%string -> String.length a = String.length c ->
  a = c /\ b = d.
Proof.
  revert c; induction a as [|x a IH]; intros [|y c] H Hlen; simpl in *; try discriminate.
  - split; [reflexivity|exact H].
  - injection H as Hx H. injection Hlen as Hlen.
    destruct (IH c H Hlen) as [Ha Hb]. subst. split; reflexivity.
Qed.

Lemma substring_take_drop (s : string) (n : nat) :
  (n <= String.length s)%nat ->
  s = (String.substring 0 n s ++ String.substring n (String.length s - n) s)%string.
Proof.
  intros Hn. pose proof (substring_split s 0 n (String.length s - n)) as H.
  simpl Nat.add in H. rewrite <- H.
  replace (n + (String.length s - n))%nat with (String.length s) by lia.
  symmetry. apply substring_whole.
Qed.

Lemma substring_take_append (a b : string) :
  String.substring 0 (String.length a) (a ++ b) = a.
Proof. induction a as [|c a IH]; simpl; [destruct b; reflexivity|]. rewrite IH. reflexivity. Qed.

Lemma substring_drop_append (a b : string) (m : nat) :
  String.substring (String.length a) m (a ++ b) = String.substring 0 m b.
Proof. induction a as [|c a IH]; simpl; [reflexivity|]. exact IH. Qed.

Lemma execPolicyFile_unfold (s : string) :
  Embeddings.execPolicyFile s
  = match (if String.prefix "policyfile_" (Js.toLowerCase s)
           then Embeddings.matchGroupAndExtension
                  (String.substring 11 (String.length s - 11) s)
           else None) with
    | Some group => Some group
    | None =>
        match s with
        | EmptyString => None
        | String _ r => Embeddings.execPolicyFile r
        end
    end.
Proof. destruct s; reflexivity. Qed.

Lemma matchGroupAndExtension_sound (rest group : string) :
  Embeddings.matchGroupAndExtension rest = Some group ->
  group <> EmptyString /\ Embeddings.hasLineTerminator group = false /\
  exists extension, rest = (group ++ extension)%string
                    /\ Js.toLowerCase extension = ".json".
Proof.
  unfold Embeddings.matchGroupAndExtension. cbv zeta.
  destruct (Nat.leb_spec 6 (String.length rest)) as [Hn|Hn]; [|discriminate].
  destruct (String.eqb_spec
              (Js.toLowerCase (String.substring (String.length rest - 5) 5 rest)) ".json")
    as [Hext|Hext]; [|discriminate].
  destruct (Embeddings.hasLineTerminator
              (String.substring 0 (String.length rest - 5) rest)) eqn:Hlt; [discriminate|].
  simpl. intros H. injection H as H. subst group. split; [|split].
  - intros E. apply (f_equal String.length) in E. rewrite substring_length in E.
    simpl in E. lia.
  - exact Hlt.
  - exists (String.substring (String.length rest - 5) 5 rest). split; [|exact Hext].
    rewrite (substring_take_drop rest (String.length rest - 5)) at 1 by lia.
    replace (String.length rest - (String.length rest - 5))%nat with 5%nat by lia.
    reflexivity.
Qed.

Lemma matchGroupAndExtension_complete (group extension : string) :
  group <> EmptyString -> Embeddings.hasLineTerminator group = false ->
  Js.toLowerCase extension = ".json" ->
  Embeddings.matchGroupAndExtension (group ++ extension) = Some group.
Proof.
  intros Hne Hlt Hext.
  assert (Hlen : String.length extension = 5%nat).
  { rewrite <- toLowerCase_length, Hext. reflexivity. }
  unfold Embeddings.matchGroupAndExtension. cbv zeta.
  rewrite string_length_append, Hlen.
  replace (String.length group + 5 - 5)%nat with (String.length group) by lia.
  rewrite substring_take_append, substring_drop_append, Hlt.
  rewrite <- Hlen, substring_whole, Hext.
  assert (Hle : (S (String.length extension)
                 <=? String.length group + String.length extension)%nat = true).
  { apply Nat.leb_le. destruct group; [congruence|]. simpl. lia. }
  rewrite Hle. reflexivity.
Qed.

Lemma execPolicyFile_matches (marker group extension : string) :
  Js.toLowerCase marker = "policyfile_" ->
  Js.toLowerCase extension = ".json" ->
  group <> EmptyString ->
  Embeddings.hasLineTerminator group = false ->
  Embeddings.execPolicyFile (marker ++ group ++ extension) = Some group.
Proof.
  intros Hmark Hext Hne Hlt.
  assert (Hlen : String.length marker = 11%nat).
  { rewrite <- toLowerCase_length, Hmark. reflexivity. }
  rewrite execPolicyFile_unfold.
  assert (Hp : String.prefix "policyfile_" (Js.toLowerCase (marker ++ group ++ extension))
               = true).
  { apply prefix_spec. rewrite toLowerCase_append, Hmark. eexists. reflexivity. }
  rewrite Hp, string_length_append, Hlen.
  replace (11 + String.length (group ++ extension) - 11)%nat
    with (String.length (group ++ extension)) by lia.
  rewrite <- Hlen, substring_drop_append, substring_whole.
  rewrite (matchGroupAndExtension_complete group extension Hne Hlt Hext). reflexivity.
Qed.

End InferenceFacts.

(** X9. Whenever the build infers a resource type from a policy file name,
    the name has the shape the pattern describes: somewhere it reads
    [PolicyFile_] (in any letter case), then the inferred type, then [.json]
    (in any letter case) up to the end; the inferred type is not empty and
    contains no line break. *)
Theorem execPolicyFile_sound (file resourceType : string) :
  Embeddings.execPolicyFile file = Some resourceType ->
  resourceType <> EmptyString /\
  Embeddings.hasLineTerminator resourceType = false /\
  exists before marker extension : string,
    file = (before ++ marker ++ resourceType ++ extension)%string /\
    Js.toLowerCase marker = "policyfile_" /\
    Js.toLowerCase extension = ".json".
Proof.
  induction file as [|c file IH]; intros H; rewrite execPolicyFile_unfold in H.
  - simpl in H. discriminate.
  - destruct (String.prefix "policyfile_" (Js.toLowerCase (String c file))) eqn:Hp.
    + destruct (Embeddings.matchGroupAndExtension
                  (String.substring 11 (String.length (String c file) - 11) (String c file)))
        as [group|] eqn:Hm.
      * injection H as H. subst group.
        destruct (matchGroupAndExtension_sound _ _ Hm) as (Hne & Hlt & ext & Hrest & Hext).
        split; [exact Hne|]. split; [exact Hlt|].
        apply prefix_spec in Hp. destruct Hp as [post Hp].
        assert (Hlen : (11 <= String.length (String c file))%nat).
        { rewrite <- toLowerCase_length, Hp, string_length_append. simpl. lia. }
        pose proof (substring_take_drop (String c file) 11 Hlen) as Hsplit.
        exists EmptyString, (String.substring 0 11 (String c file)), ext.
        split; [|split; [|exact Hext]].
        -- rewrite <- Hrest. exact Hsplit.
        -- rewrite Hsplit, toLowerCase_append in Hp.
           apply append_same_length in Hp; [apply Hp|].
           rewrite toLowerCase_length, substring_length. simpl String.length in *. lia.
      * destruct (IH H) as (Hne & Hlt & before & marker & ext & Hfile & Hmark & Hext).
        split; [exact Hne|]. split; [exact Hlt|].
        exists (String c before), marker, ext. rewrite Hfile. repeat split; assumption.
    + destruct (IH H) as (Hne & Hlt & before & marker & ext & Hfile & Hmark & Hext).
      split; [exact Hne|]. split; [exact Hlt|].
      exists (String c before), marker, ext. rewrite Hfile. repeat split; assumption.
Qed.

Lemma execPolicyFile_sound_witness :
  "a.b" <> EmptyString /\
  Embeddings.hasLineTerminator "a.b" = false /\
  exists before marker extension : string,
    "policyfile_a.b.JSON" = (before ++ marker ++ "a.b" ++ extension)%string /\
    Js.toLowerCase marker = "policyfile_" /\
    Js.toLowerCase extension = ".json".
Proof. exact (execPolicyFile_sound "policyfile_a.b.JSON" "a.b" eq_refl). Defined.

(** X10. A file named [PolicyFile_<X>.json], in any letter case of the
    marker and the extension, with [X] non-empty and free of line breaks,
    gets exactly [X] as its resource type. *)
Theorem execPolicyFile_complete (marker group extension : string) :
  Js.toLowerCase marker = "policyfile_" ->
  Js.toLowerCase extension = ".json" ->
  group <> EmptyString ->
  Embeddings.hasLineTerminator group = false ->
  Embeddings.execPolicyFile (marker ++ group ++ extension) = Some group.
Proof. exact (execPolicyFile_matches marker group extension). Qed.

Lemma execPolicyFile_complete_witness :
  Embeddings.execPolicyFile ("PolicyFile_" ++ "virtualMachines" ++ ".json")
  = Some "virtualMachines".
Proof.
  exact (execPolicyFile_complete "PolicyFile_" "virtualMachines" ".json"
           eq_refl eq_refl ltac:(discriminate) eq_refl).
Defined.

(** ** What the build deposits ([buildEmbeddingIndex]) *)

Section BuildRecords.

Import Types Embeddings.

(** The records of the documentation stage, without the world it threads. *)
Lemma readDocs_fold_records (e : Provider.Embedder) (docDir : string)
    (entries : list (string * option string)) (recs : list EmbeddingRecord) (w : World) :
  fst (fold_left
         (fun (acc : list EmbeddingRecord * World) (entry : string * option string) =>
            let w' := called (ReadFile (pathJoin docDir (fst entry))) (snd acc) in
            match snd entry with
            | Some txt => (fst acc ++ docRecords e (fst entry) txt, w')
            | None => (fst acc, w')
            end)
         entries (recs, w))
  = recs ++ flat_map (fun entry => match snd entry with
                                   | Some txt => docRecords e (fst entry) txt
                                   | None => []
                                   end) entries.
Proof.
  revert recs w; induction entries as [|[f content] entries IH]; intros recs w; simpl.
  - rewrite app_nil_r. reflexivity.
  - destruct content as [txt|]; simpl; rewrite IH; [rewrite <- app_assoc|]; reflexivity.
Qed.

Lemma readDocs_records (e : Provider.Embedder) (root : string) (w : World) :
  fst (readDocs e root w)
  = match documentation (disk w) with
    | Directory entries =>
        flat_map (fun entry => match snd entry with
                               | Some txt => docRecords e (fst entry) txt
                               | None => []
                               end) entries
    | _ => []
    end.
Proof.
  unfold readDocs. destruct (documentation (disk w)) as [| |entries]; try reflexivity.
  cbv zeta. rewrite readDocs_fold_records. reflexivity.
Qed.

Lemma documentationStage_same_documentation (env : Env) (e : Provider.Embedder) (w w' : World) :
  documentation (disk w) = documentation (disk w') ->
  fst (documentationStage env e w) = fst (documentationStage env e w').
Proof.
  intros H. unfold documentationStage.
  destruct (includeDocs env) as [[|]|]; try reflexivity.
  destruct (workspaceRoot env) as [root|]; try reflexivity.
  destruct (Js.truthy root); try reflexivity.
  rewrite !readDocs_records, H. reflexivity.
Qed.

Lemma builtRecords_same_documentation (env : Env) (idx : Indexer.RHCIndex) (w w' : World) :
  documentation (disk w) = documentation (disk w') ->
  builtRecords env idx w = builtRecords env idx w'.
Proof.
  intros H. unfold builtRecords. cbv zeta. f_equal.
  apply documentationStage_same_documentation. exact H.
Qed.

(** What holds of the records of every policy and of every chunk of a
    readable documentation file holds of every deposited record. *)
Lemma builtRecords_Forall (P : EmbeddingRecord -> Prop) (env : Env)
    (idx : Indexer.RHCIndex) (w : World) :
  (forall p, In p (Indexer.policies idx) ->
             Forall P (policyRecords (Provider.createEmbedder (embeddingProvider env)) p)) ->
  (forall root entries f txt,
      includeDocs env = Some true -> workspaceRoot env = Some root ->
      Js.truthy root = true -> documentation (disk w) = Directory entries ->
      In (f, Some txt) entries ->
      Forall P (docRecords (Provider.createEmbedder (embeddingProvider env)) f txt)) ->
  Forall P (builtRecords env idx w).
Proof.
  intros Hpol Hdoc. unfold builtRecords. cbv zeta. apply Forall_app. split.
  - apply Forall_flat_map, Forall_forall. exact Hpol.
  - unfold documentationStage.
    destruct (includeDocs env) as [[|]|] eqn:Hinc; try constructor.
    destruct (workspaceRoot env) as [root|] eqn:Hroot; try constructor.
    destruct (Js.truthy root) eqn:Htr; try constructor.
    rewrite readDocs_records. simpl disk.
    destruct (documentation (disk w)) as [| |entries] eqn:Hdir; try constructor.
    apply Forall_flat_map, Forall_forall. intros [f content] Hin.
    destruct content as [txt|]; [|constructor]. simpl.
    apply (Hdoc root entries f txt); auto.
Qed.

End BuildRecords.

Lemma builtRecords_vectors (env : Embeddings.Env) (idx : Indexer.RHCIndex)
    (w : Embeddings.World) :
  Forall (fun r => Types.vector r
                   = Pseudo.pseudoEmbedVector (Types.text r) (builtDims env))
         (builtRecords env idx w).
Proof.
  unfold builtDims. rewrite effectiveDimsOf_createEmbedder.
  apply builtRecords_Forall.
  - intros p _. unfold Embeddings.policyRecords. cbv zeta. constructor.
    + simpl. rewrite createEmbedder_embed. reflexivity.
    + apply forEachFrom_Forall. intros j ev Hj. simpl.
      rewrite createEmbedder_embed, map_map.
      rewrite (nth_map_at _ _ _ _ _ Hj).
      rewrite (nth_map_at _ _ _ _ _ Hj). reflexivity.
  - intros root entries f txt _ _ _ _ _. unfold Embeddings.docRecords. cbv zeta.
    apply forEachFrom_Forall. intros j c Hj. simpl.
    rewrite createEmbedder_embed, (nth_map_at _ _ _ _ _ Hj). reflexivity.
Qed.

(** X11. In every record a build deposits, the vector is the pseudo
    embedding of the record's own text at the dimensionality of the index:
    the stored text is exactly what was embedded. *)
Theorem built_vector_embeds_own_text (env : Embeddings.Env) (idx : Indexer.RHCIndex)
    (w : Embeddings.World) :
  Forall (fun r => Types.vector r
                   = Pseudo.pseudoEmbedVector (Types.text r) (builtDims env))
         (builtRecords env idx w).
Proof. exact (builtRecords_vectors env idx w). Qed.

(** X12. Every deposited record's id starts with its kind and a colon. A
    policy or event record carries the name of its policy file in [meta] and
    the resource type inferred from that name; a documentation record carries
    no resource type. *)
Theorem built_record_id_and_resource_type (env : Embeddings.Env) (idx : Indexer.RHCIndex)
    (w : Embeddings.World) :
  Forall (fun r =>
            String.prefix (Types.kindName (Types.kind r) ++ ":") (Types.id r) = true /\
            match Types.kind r with
            | Types.doc => Types.resourceType r = None
            | _ => exists f, Types.file (Types.meta r) = Some f /\
                             Types.resourceType r = Embeddings.execPolicyFile f
            end)
         (builtRecords env idx w).
Proof.
  apply builtRecords_Forall.
  - intros p _. unfold Embeddings.policyRecords. cbv zeta. constructor.
    + cbn [Types.kind Types.id Types.kindName Types.resourceType Types.meta Types.file].
      split; [|eexists; split; reflexivity].
      apply prefix_spec. eexists. reflexivity.
    + apply forEachFrom_Forall. intros j ev _.
      cbn [Types.kind Types.id Types.kindName Types.resourceType Types.meta Types.file].
      split; [|eexists; split; reflexivity].
      apply prefix_spec. eexists. reflexivity.
  - intros root entries f txt _ _ _ _ _. unfold Embeddings.docRecords. cbv zeta.
    apply forEachFrom_Forall. intros j c _.
    cbn [Types.kind Types.id Types.kindName Types.resourceType Types.meta Types.file].
    split; [|reflexivity].
    apply prefix_spec. eexists. reflexivity.
Qed.

(** X13. A documentation record exists only when document ingestion is
    switched on, there is a workspace root and the documentation directory
    exists; it is then a chunk, of at most 800 characters, of a file the
    directory lists and that could be read. Unreadable files, a missing
    directory or a disabled setting deposit nothing. *)
Theorem built_doc_record_origin (env : Embeddings.Env) (idx : Indexer.RHCIndex)
    (w : Embeddings.World) (r : Types.EmbeddingRecord) :
  In r (builtRecords env idx w) ->
  Types.kind r = Types.doc ->
  Embeddings.includeDocs env = Some true /\
  (exists root, Embeddings.workspaceRoot env = Some root /\ Js.truthy root = true) /\
  exists entries f txt,
    Embeddings.documentation (Embeddings.disk w) = Embeddings.Directory entries /\
    In (f, Some txt) entries /\
    Types.file (Types.meta r) = Some f /\
    In (Types.text r) (Embeddings.chunkText txt 800) /\
    (1 <= String.length (Types.text r) <= 800)%nat.
Proof.
  intros Hin Hkind.
  pose proof (builtRecords_Forall
    (fun r => Types.kind r = Types.doc ->
       Embeddings.includeDocs env = Some true /\
       (exists root, Embeddings.workspaceRoot env = Some root /\ Js.truthy root = true) /\
       exists entries f txt,
         Embeddings.documentation (Embeddings.disk w) = Embeddings.Directory entries /\
         In (f, Some txt) entries /\
         Types.file (Types.meta r) = Some f /\
         In (Types.text r) (Embeddings.chunkText txt 800) /\
         (1 <= String.length (Types.text r) <= 800)%nat) env idx w) as H.
  rewrite Forall_forall in H. apply H; [| |exact Hin|exact Hkind]; clear H Hin Hkind r.
  - intros p _. unfold Embeddings.policyRecords. cbv zeta. constructor.
    + simpl. discriminate.
    + apply forEachFrom_Forall. intros j ev _. simpl. discriminate.
  - intros root entries f txt Hinc Hroot Htr Hdir Hentry.
    unfold Embeddings.docRecords. cbv zeta.
    apply forEachFrom_Forall. intros j c Hj _. simpl.
    split; [exact Hinc|]. split; [exists root; split; assumption|].
    exists entries, f, txt. split; [exact Hdir|]. split; [exact Hentry|].
    split; [reflexivity|].
    assert (Hc : In c (Embeddings.chunkText txt 800)) by (eapply nth_error_In; exact Hj).
    split; [exact Hc|].
    pose proof (chunkLoop_sizes txt 800 ltac:(lia) (String.length txt) 0) as Hs.
    rewrite Forall_forall in Hs. apply Hs. exact Hc.
Qed.

(** X14. A build is a full recompute: the index it leaves in memory, and the
    version, records and [dims] of the file it writes, depend on the
    configuration, the content index and the documentation directory only,
    not on the index held before nor on the time of the build. The [created]
    stamp of the file is the time of the build that wrote it. So a second
    build, at any later time, leaves the same index in memory and a file that
    differs from the first at most in [created]. *)
Theorem rebuild_is_full_recompute (env : Embeddings.Env) (idx : Indexer.RHCIndex)
    (output output' : bool) (w w' : Embeddings.World) (later : string) :
  Embeddings.baseIndex env = Some idx ->
  Embeddings.documentation (Embeddings.disk w)
  = Embeddings.documentation (Embeddings.disk w') ->
  exists w1 w1' w2 : Embeddings.World,
    Embeddings.buildEmbeddingIndex env output w = Embeddings.Returned tt w1 /\
    Embeddings.buildEmbeddingIndex (atTime later env) output' w' = Embeddings.Returned tt w1' /\
    Embeddings.buildEmbeddingIndex (atTime later env) output' w1 = Embeddings.Returned tt w2 /\
    Embeddings.inMemory w1' = Embeddings.inMemory w1 /\
    Embeddings.dims w1' = Embeddings.dims w1 /\
    Embeddings.inMemory w2 = Embeddings.inMemory w1 /\
    Embeddings.dims w2 = Embeddings.dims w1 /\
    (Embeddings.indexFilePath env <> None ->
     exists p p' p2 : Types.EmbeddingIndexFile,
       Embeddings.indexFile (Embeddings.disk w1) = Some (Embeddings.Document p) /\
       Embeddings.indexFile (Embeddings.disk w1') = Some (Embeddings.Document p') /\
       Embeddings.indexFile (Embeddings.disk w2) = Some (Embeddings.Document p2) /\
       sameButCreated p p' /\ sameButCreated p p2 /\
       Types.created p = Embeddings.now env /\
       Types.created p' = later /\ Types.created p2 = later) /\
    (Embeddings.indexFilePath env = None ->
     Embeddings.disk w2 = Embeddings.disk w1).
Proof.
  intros Hidx Hdoc.
  assert (Hidx' : Embeddings.baseIndex (atTime later env) = Some idx) by exact Hidx.
  destruct (buildEmbeddingIndex_world env output w idx Hidx)
    as (w1 & Hb1 & _ & Hm1 & Hd1 & _ & Hdoc1 & Hfile1 & _ & _).
  destruct (buildEmbeddingIndex_world (atTime later env) output' w' idx Hidx')
    as (w1' & Hb1' & _ & Hm1' & Hd1' & _ & _ & Hfile1' & _ & _).
  destruct (buildEmbeddingIndex_world (atTime later env) output' w1 idx Hidx')
    as (w2 & Hb2 & _ & Hm2 & Hd2 & _ & _ & Hfile2 & Hnone2 & _).
  assert (Hrecs : builtRecords (atTime later env) idx w' = builtRecords env idx w).
  { change (builtRecords (atTime later env) idx w') with (builtRecords env idx w').
    apply builtRecords_same_documentation. symmetry. exact Hdoc. }
  assert (Hrecs2 : builtRecords (atTime later env) idx w1 = builtRecords env idx w).
  { change (builtRecords (atTime later env) idx w1) with (builtRecords env idx w1).
    apply builtRecords_same_documentation. exact Hdoc1. }
  exists w1, w1', w2.
  split; [exact Hb1|]. split; [exact Hb1'|]. split; [exact Hb2|].
  split; [rewrite Hm1', Hm1, Hrecs; reflexivity|].
  split; [rewrite Hd1', Hd1; reflexivity|].
  split; [rewrite Hm2, Hm1, Hrecs2; reflexivity|].
  split; [rewrite Hd2, Hd1; reflexivity|].
  split.
  - intros Hpath.
    exists (builtPayload env idx w), (builtPayload (atTime later env) idx w'),
           (builtPayload (atTime later env) idx w1).
    split; [apply (Hfile1 Hpath)|]. split; [apply (Hfile1' Hpath)|].
    split; [apply (Hfile2 Hpath)|].
    unfold sameButCreated, builtPayload. simpl. rewrite Hrecs, Hrecs2.
    repeat split.
  - intros Hpath. exact (Hnone2 Hpath).
Qed.

Lemma rebuild_is_full_recompute_witness :
  exists w1 w2 : Embeddings.World,
    Embeddings.buildEmbeddingIndex sampleEnv true sampleWorld = Embeddings.Returned tt w1 /\
    Embeddings.buildEmbeddingIndex (atTime "2025-06-01T12:00:00.000Z" sampleEnv) false w1
    = Embeddings.Returned tt w2 /\
    Embeddings.inMemory w2 = Embeddings.inMemory w1 /\
    exists p p2 : Types.EmbeddingIndexFile,
      Embeddings.indexFile (Embeddings.disk w1) = Some (Embeddings.Document p) /\
      Embeddings.indexFile (Embeddings.disk w2) = Some (Embeddings.Document p2) /\
      sameButCreated p p2 /\
      Types.created p = "2025-01-01T00:00:00.000Z" /\
      Types.created p2 = "2025-06-01T12:00:00.000Z".
Proof.
  destruct (rebuild_is_full_recompute sampleEnv sampleIndex true false sampleWorld sampleWorld
              "2025-06-01T12:00:00.000Z" eq_refl eq_refl)
    as (w1 & w1' & w2 & H1 & _ & H2 & _ & _ & Hm & _ & Hfile & _).
  destruct (Hfile ltac:(discriminate)) as (p & p' & p2 & Hp & _ & Hp2 & _ & Hsame & Hc & _ & Hc2).
  exists w1, w2. split; [exact H1|]. split; [exact H2|]. split; [exact Hm|].
  exists p, p2. repeat split; try assumption; apply Hsame.
Defined.

Lemma built_doc_record_origin_witness :
  Embeddings.includeDocs sampleEnv = Some true /\
  (exists root, Embeddings.workspaceRoot sampleEnv = Some root /\ Js.truthy root = true) /\
  exists entries f txt,
    Embeddings.documentation (Embeddings.disk sampleWorld) = Embeddings.Directory entries /\
    In (f, Some txt) entries /\
    Types.file (Types.meta sampleDocRecord) = Some f /\
    In (Types.text sampleDocRecord) (Embeddings.chunkText txt 800) /\
    (1 <= String.length (Types.text sampleDocRecord) <= 800)%nat.
Proof.
  apply (built_doc_record_origin sampleEnv sampleIndex sampleWorld sampleDocRecord).
  - right; right; left; reflexivity.
  - reflexivity.
Defined.

(** ** How build, load and search compose ([ai/embeddings.ts]) *)

Section ComposeFacts.

Import Types Embeddings.

Lemma pseudoEmbedVector_norm_one (t : string) (d : nat) :
  (0 < d)%nat -> Pseudo.tokens t <> [] -> norm (Pseudo.pseudoEmbedVector t d) = 1%R.
Proof.
  intros Hd Htok.
  assert (Hpos : (0 < Pseudo.sumSquares (Pseudo.histogram t d))%Z).
  { pose proof (sumSquares_ge_total (Pseudo.histogram t d)) as Hge.
    rewrite (histogram_total t d Hd) in Hge.
    destruct (Pseudo.tokens t); [congruence|simpl List.length in Hge; lia]. }
  unfold norm, Pseudo.pseudoEmbedVector. cbv zeta.
  destruct (Z.eqb_spec (Pseudo.sumSquares (Pseudo.histogram t d)) 0) as [E|_]; [lia|].
  rewrite sumSquaresR_scaled.
  assert (HposR : (0 < IZR (Pseudo.sumSquares (Pseudo.histogram t d)))%R)
    by (apply IZR_lt; exact Hpos).
  set (s := IZR (Pseudo.sumSquares (Pseudo.histogram t d))) in *.
  assert (Hs : (0 < sqrt s)%R) by (apply sqrt_lt_R0; exact HposR).
  replace (1 / sqrt s * (1 / sqrt s) * s)%R with 1%R; [apply sqrt_1|].
  rewrite <- (sqrt_sqrt s) at 3 by lra. field. lra.
Qed.

Lemma pseudoEmbedVector_nonneg (t : string) (d : nat) :
  Forall (fun x => (0 <= x)%R) (Pseudo.pseudoEmbedVector t d).
Proof.
  eapply Forall_impl; [|apply pseudoEmbedVector_unit_interval]. simpl. intros x Hx. lra.
Qed.

Lemma filter_StronglySorted {A : Type} (R : A -> A -> Prop) (f : A -> bool) (l : list A) :
  StronglySorted R l -> StronglySorted R (filter f l).
Proof.
  induction 1 as [|x l Hs IH Hx]; simpl; [constructor|].
  destruct (f x); [|exact IH]. constructor; [exact IH|].
  rewrite Forall_forall in *. intros y Hy. apply Hx. apply filter_In in Hy. apply Hy.
Qed.

(** The scores of a search over an index that obeys the invariant. *)
Lemma scored_in_range (q : string) (d : nat) (recs : list EmbeddingRecord) :
  indexInvariant d recs ->
  Forall (fun s => exists x, score s = Some x /\ (-1 <= x <= 1)%R)
         (map (scored (Pseudo.pseudoEmbedVector q d)) recs).
Proof.
  intros Hinv. apply Forall_map. eapply Forall_impl; [|exact Hinv].
  intros r Hr. simpl.
  destruct (cosine_in_range (Pseudo.pseudoEmbedVector q d) (vector r))
    as (x & Hx & Hrange & _); [rewrite pseudoEmbedVector_length; auto|].
  exists x. split; assumption.
Qed.

Lemma scored_in_unit_interval (q : string) (d : nat) (recs : list EmbeddingRecord) :
  Forall (fun r => exists t, vector r = Pseudo.pseudoEmbedVector t d) recs ->
  Forall (fun s => exists x, score s = Some x /\ (0 <= x <= 1)%R)
         (map (scored (Pseudo.pseudoEmbedVector q d)) recs).
Proof.
  intros Hvec. apply Forall_map. eapply Forall_impl; [|exact Hvec].
  intros r [t Hr]. simpl. rewrite Hr.
  destruct (cosine_in_range (Pseudo.pseudoEmbedVector q d) (Pseudo.pseudoEmbedVector t d))
    as (x & Hx & Hrange & Hpos); [rewrite !pseudoEmbedVector_length; reflexivity|].
  exists x. split; [exact Hx|]. split; [|apply Hrange].
  apply Hpos; apply pseudoEmbedVector_nonneg.
Qed.

Lemma Forall_filter_weaken {A : Type} (P : A -> Prop) (f : A -> bool) (l : list A) :
  Forall P l -> Forall P (filter f l).
Proof.
  rewrite !Forall_forall. intros H x Hx. apply filter_In in Hx. apply H, Hx.
Qed.

End ComposeFacts.

(** X15. A build establishes everything a search needs. After a build that
    found the content index, a load returns true at once, and every search
    returns (it does not raise): its results are sorted by non-increasing
    score, and every score is a number that is not negative and, over exact
    real arithmetic (floats are idealised as reals: binary64 can exceed 1 by
    a rounding error, which is outside the statement), not above 1. *)
Theorem search_after_build (env : Embeddings.Env) (idx : Indexer.RHCIndex) (output : bool)
    (w : Embeddings.World) (q : string) (k : nat)
    (filterKind : option (list string)) (hint : option string) :
  Embeddings.baseIndex env = Some idx ->
  exists (w1 : Embeddings.World) (res : list Types.SimilarityResult),
    Embeddings.buildEmbeddingIndex env output w = Embeddings.Returned tt w1 /\
    (forall env', Embeddings.ensureEmbeddingsLoaded env' w1 = Embeddings.Returned true w1) /\
    Embeddings.similaritySearch w1 q (Some k) filterKind hint = Embeddings.Returned res w1 /\
    StronglySorted descending res /\
    Forall (fun s => exists x, Types.score s = Some x /\ (0 <= x <= 1)%R) res.
Proof.
  intros Hidx.
  destruct (buildEmbeddingIndex_world env output w idx Hidx)
    as (w1 & Hb & _ & Hm & Hd & _).
  pose proof (similaritySearch_value w1 _ q (Some k) filterKind hint Hm) as Hs.
  match type of Hs with _ = Embeddings.Returned ?res _ => exists w1, res end.
  split; [exact Hb|]. split.
  { intros env'. unfold Embeddings.ensureEmbeddingsLoaded. rewrite Hm. reflexivity. }
  split; [exact Hs|]. rewrite Hd. split.
  - apply firstn_StronglySorted, sortBy_descending, scored_hasScore,
      indexInvariant_filter, builtRecords_invariant.
  - apply firstn_Forall, sortBy_Forall, scored_in_unit_interval, Forall_filter_weaken.
    eapply Forall_impl; [|apply builtRecords_vectors].
    simpl. intros r Hr. eexists. exact Hr.
Qed.

Lemma search_after_build_witness :
  exists (w1 : Embeddings.World) (res : list Types.SimilarityResult),
    Embeddings.buildEmbeddingIndex sampleEnv false sampleWorld = Embeddings.Returned tt w1 /\
    (forall env', Embeddings.ensureEmbeddingsLoaded env' w1 = Embeddings.Returned true w1) /\
    Embeddings.similaritySearch w1 "bar" (Some 5%nat) None None = Embeddings.Returned res w1 /\
    StronglySorted descending res /\
    Forall (fun s => exists x, Types.score s = Some x /\ (0 <= x <= 1)%R) res.
Proof.
  exact (search_after_build sampleEnv sampleIndex false sampleWorld "bar" 5 None None eq_refl).
Defined.

(** X16. Loading twice. A load that finds an index in memory, or a
    persisted file of the current version with the shape a build writes (its
    records and [dims]; a file that parses is taken to have that shape),
    returns true, and from then on every load returns true without a disk
    call and changes nothing, whatever has become of the file. A load that
    returned false caches nothing: the next load looks at the disk again and,
    with the disk unchanged, fails again. *)
Theorem ensureEmbeddingsLoaded_twice (env : Embeddings.Env) (w w1 : Embeddings.World)
    (b : bool) :
  Embeddings.ensureEmbeddingsLoaded env w = Embeddings.Returned b w1 ->
  (Embeddings.inMemory w <> None \/ (exists parsed, loadable env w parsed) ->
   b = true /\
   forall (env' : Embeddings.Env) (d' : Embeddings.Disk),
     Embeddings.ensureEmbeddingsLoaded env' (Embeddings.withDisk d' w1)
     = Embeddings.Returned true (Embeddings.withDisk d' w1)) /\
  (b = false ->
   Embeddings.inMemory w1 = None /\
   exists w2, Embeddings.ensureEmbeddingsLoaded env w1 = Embeddings.Returned false w2 /\
              Embeddings.inMemory w2 = None /\ Embeddings.dims w2 = Embeddings.dims w /\
              addsCalls isRead w1 w2).
Proof.
  intros Hl. destruct (Embeddings.inMemory w) as [recs|] eqn:Hm.
  - unfold Embeddings.ensureEmbeddingsLoaded in Hl. rewrite Hm in Hl.
    injection Hl as Hb Hw. subst b w1. split; [|discriminate]. intros _.
    split; [reflexivity|]. intros env' d'. unfold Embeddings.ensureEmbeddingsLoaded.
    simpl. rewrite Hm. reflexivity.
  - destruct (unavailable_or_loadable env w) as [Hun|[parsed Hld]].
    + destruct (ensureEmbeddingsLoaded_unavailable env w Hm Hun)
        as (w' & Hr & Hm' & Hd' & _ & Hk' & _).
      rewrite Hr in Hl. injection Hl as Hb Hw. subst b w'. split.
      * intros [Hheld|[parsed (Hf & Hstored & Hv)]]; [congruence|]. exfalso.
        destruct Hun as [H|[H|[H|[[raw H]|[p' [H Hp]]]]]]; congruence.
      * intros _. split; [exact Hm'|].
        assert (Hun1 : unavailable env w1).
        { unfold unavailable in *. rewrite Hk'. exact Hun. }
        destruct (ensureEmbeddingsLoaded_unavailable env w1 Hm' Hun1)
          as (w2 & Hr2 & Hm2 & Hd2 & _ & _ & Hc2).
        exists w2. rewrite Hd2, Hd'. auto.
    + destruct (ensureEmbeddingsLoaded_loadable env w parsed Hm Hld)
        as (w' & Hr & Hm' & _).
      rewrite Hr in Hl. injection Hl as Hb Hw. subst b w'. split; [|discriminate].
      intros _. split; [reflexivity|]. intros env' d'.
      unfold Embeddings.ensureEmbeddingsLoaded. simpl. rewrite Hm'. reflexivity.
Qed.

Lemma ensureEmbeddingsLoaded_twice_witness :
  Embeddings.ensureEmbeddingsLoaded azureEnv (Embeddings.initialWorld azureEnv currentDisk)
  = Embeddings.Returned true adoptedWorld /\
  Embeddings.ensureEmbeddingsLoaded sampleEnv (Embeddings.withDisk emptyDisk adoptedWorld)
  = Embeddings.Returned true (Embeddings.withDisk emptyDisk adoptedWorld).
Proof.
  split; [reflexivity|].
  destruct (ensureEmbeddingsLoaded_twice azureEnv
              (Embeddings.initialWorld azureEnv currentDisk) adoptedWorld true eq_refl)
    as [Hloaded _].
  destruct Hloaded as [_ Hlater].
  - right. exists {| Types.version := 2; Types.created := "2024-01-01T00:00:00.000Z";
                     Types.records := sampleRecords; Types.dims := 2 |}.
    split; [discriminate|]. split; reflexivity.
  - apply Hlater.
Defined.

(** ** What a search returns ([similaritySearch]) *)

Section SearchResults.

Import Types Embeddings.

Lemma survives_kind (kinds : list string) (hint : option string) (r : EmbeddingRecord) :
  survives (Some kinds) hint r = true -> In (kindName (kind r)) kinds.
Proof.
  unfold survives, skippedByKind. intros H. apply andb_true_iff in H.
  destruct H as [H _]. rewrite negb_involutive in H.
  apply existsb_exists in H. destruct H as (k & Hk & E).
  apply String.eqb_eq in E. subst k. exact Hk.
Qed.

Lemma truthy_toLowerCase (s : string) : Js.truthy (Js.toLowerCase s) = Js.truthy s.
Proof. destruct s; reflexivity. Qed.

Lemma skippedByHint_case (h1 h2 : string) (r : EmbeddingRecord) :
  Js.toLowerCase h1 = Js.toLowerCase h2 ->
  skippedByHint (Some h1) r = skippedByHint (Some h2) r.
Proof.
  intros H. unfold skippedByHint. destruct (resourceType r) as [rt|]; [|reflexivity].
  rewrite <- (truthy_toLowerCase h1), <- (truthy_toLowerCase h2), H. reflexivity.
Qed.

Lemma StronglySorted_head_dominates (l : list SimilarityResult) (h x : SimilarityResult) :
  StronglySorted descending (h :: l) -> In x (h :: l) -> hasScore h ->
  descending h x.
Proof.
  intros Hs Hin Hh. inversion Hs as [|? ? _ Hall]; subst. destruct Hin as [E|Hin].
  - subst x. unfold descending. unfold hasScore in Hh. destruct (score h); [lra|congruence].
  - rewrite Forall_forall in Hall. apply Hall. exact Hin.
Qed.

End SearchResults.

(** X17. Every result of a search is the scored copy (id, text, meta and the
    cosine against the query vector) of a record of the index that passed the
    filters; with a kind filter, the kind of that record is one of the listed
    kinds, so a filter on events excludes every policy and documentation
    record. When the limit is not smaller than the number of surviving
    records, nothing is dropped: the results are a rearrangement of all of
    them. *)
Theorem similaritySearch_results_are_survivors (w : Embeddings.World)
    (recs : list Types.EmbeddingRecord) (q : string) (k : nat)
    (filterKind : option (list string)) (hint : option string) :
  Embeddings.inMemory w = Some recs ->
  let qv := Pseudo.pseudoEmbedVector q (Embeddings.dims w) in
  exists res : list Types.SimilarityResult,
    Embeddings.similaritySearch w q (Some k) filterKind hint = Embeddings.Returned res w /\
    Forall (fun s => exists r,
              In r recs /\ survives filterKind hint r = true /\
              s = Embeddings.scored qv r /\
              (forall kinds, filterKind = Some kinds ->
                             In (Types.kindName (Types.kind r)) kinds)) res /\
    ((List.length (filter (survives filterKind hint) recs) <= k)%nat ->
     Permutation res (map (Embeddings.scored qv) (filter (survives filterKind hint) recs))).
Proof.
  intros Hm qv. eexists. split; [apply similaritySearch_value; exact Hm|]. split.
  - apply firstn_Forall, sortBy_Forall, Forall_map, Forall_forall.
    intros r Hr. apply filter_In in Hr. destruct Hr as [Hin Hsurv].
    exists r. repeat split; auto.
    intros kinds Hk. subst filterKind. eapply survives_kind. exact Hsurv.
  - intros Hk. rewrite firstn_all2; [apply sortBy_Permutation|].
    rewrite sortBy_length, length_map. exact Hk.
Qed.

Lemma similaritySearch_results_are_survivors_witness :
  exists res : list Types.SimilarityResult,
    Embeddings.similaritySearch loadedWorld "bar" (Some 5%nat) (Some ["event"]) None
    = Embeddings.Returned res loadedWorld /\
    Forall (fun s => exists r,
              In r sampleRecords /\ survives (Some ["event"]) None r = true /\
              s = Embeddings.scored (Pseudo.pseudoEmbedVector "bar" 2) r /\
              (forall kinds, Some ["event"] = Some kinds ->
                             In (Types.kindName (Types.kind r)) kinds)) res /\
    ((List.length (filter (survives (Some ["event"]) None) sampleRecords) <= 5)%nat ->
     Permutation res (map (Embeddings.scored (Pseudo.pseudoEmbedVector "bar" 2))
                          (filter (survives (Some ["event"]) None) sampleRecords))).
Proof.
  exact (similaritySearch_results_are_survivors loadedWorld sampleRecords "bar" 5
           (Some ["event"]) None eq_refl).
Defined.

(** X18. Edge cases of the two filters. An empty list of kinds is still a
    filter and skips every record (an absent filter skips none); a record
    without a resource type is never skipped by a hint; an empty hint is no
    hint; and two hints that differ only in letter case give the same
    search. *)
Theorem similaritySearch_filter_edges (w : Embeddings.World)
    (recs : list Types.EmbeddingRecord) (q : string) (limit : option nat)
    (filterKind : option (list string)) :
  Embeddings.inMemory w = Some recs ->
  Embeddings.similaritySearch w q limit (Some []) None = Embeddings.Returned [] w /\
  (forall hint r, Types.resourceType r = None ->
                  Embeddings.skippedByHint hint r = false) /\
  Embeddings.similaritySearch w q limit filterKind (Some EmptyString)
  = Embeddings.similaritySearch w q limit filterKind None /\
  (forall h1 h2, Js.toLowerCase h1 = Js.toLowerCase h2 ->
     Embeddings.similaritySearch w q limit filterKind (Some h1)
     = Embeddings.similaritySearch w q limit filterKind (Some h2)).
Proof.
  intros Hm. split; [|split; [|split]].
  - rewrite (similaritySearch_value w recs q limit (Some []) None Hm).
    replace (filter (survives (Some []) None) recs) with (@nil Types.EmbeddingRecord).
    + destruct limit as [[|k]|]; reflexivity.
    + symmetry. clear. induction recs as [|r recs IH]; [reflexivity|exact IH].
  - intros hint r Hr. unfold Embeddings.skippedByHint. rewrite Hr.
    destruct hint; reflexivity.
  - rewrite !(similaritySearch_value w recs q limit _ _ Hm). do 4 f_equal.
    apply filter_ext. intros r. unfold survives, Embeddings.skippedByHint.
    destruct (Types.resourceType r); reflexivity.
  - intros h1 h2 Hh. rewrite !(similaritySearch_value w recs q limit _ _ Hm). do 4 f_equal.
    apply filter_ext. intros r. unfold survives.
    rewrite (skippedByHint_case h1 h2 r Hh). reflexivity.
Qed.

Lemma similaritySearch_filter_edges_witness :
  Embeddings.similaritySearch loadedWorld "bar" None (Some []) None
  = Embeddings.Returned [] loadedWorld.
Proof.
  exact (proj1 (similaritySearch_filter_edges loadedWorld sampleRecords "bar" None None
                  eq_refl)).
Defined.

(** X19. An exact match ranks first, over exact real arithmetic (floats are
    idealised as reals: binary64 can move a score by a rounding error, which
    is outside the statement). If a record that passes the filters holds the
    embedding of the query itself (as a built record whose text has the
    query's tokens does), the query has a token, and the index obeys the
    invariant, then the first result of a search with a positive limit has
    score 1, the largest score there is. *)
Theorem exact_match_ranks_first (w : Embeddings.World)
    (recs : list Types.EmbeddingRecord) (r : Types.EmbeddingRecord) (q : string) (k : nat)
    (filterKind : option (list string)) (hint : option string) :
  Embeddings.inMemory w = Some recs ->
  indexInvariant (Embeddings.dims w) recs ->
  (0 < Embeddings.dims w)%nat ->
  Pseudo.tokens q <> [] ->
  In r recs ->
  survives filterKind hint r = true ->
  Types.vector r = Pseudo.pseudoEmbedVector q (Embeddings.dims w) ->
  exists (first : Types.SimilarityResult) (rest : list Types.SimilarityResult),
    Embeddings.similaritySearch w q (Some (S k)) filterKind hint
    = Embeddings.Returned (first :: rest) w /\
    Types.score first = Some 1%R /\
    Forall (fun s => exists x, Types.score s = Some x /\ (x <= 1)%R) rest.
Proof.
  intros Hm Hinv Hd Htok Hin Hsurv Hvec.
  rewrite (similaritySearch_value w recs q (Some (S k)) filterKind hint Hm).
  set (qv := Pseudo.pseudoEmbedVector q (Embeddings.dims w)).
  set (pool := map (Embeddings.scored qv) (filter (survives filterKind hint) recs)).
  assert (Hscores : Forall hasScore pool)
    by (apply scored_hasScore, indexInvariant_filter, Hinv).
  assert (Hrange : Forall (fun s => exists x, Types.score s = Some x /\ (-1 <= x <= 1)%R) pool)
    by (apply scored_in_range, indexInvariant_filter, Hinv).
  assert (Hself : Types.score (Embeddings.scored qv r) = Some 1%R).
  { simpl. rewrite Hvec. fold qv.
    apply (proj2 (cosine_swap_and_self qv)).
    unfold qv. rewrite (pseudoEmbedVector_norm_one q _ Hd Htok). lra. }
  assert (Hmem : In (Embeddings.scored qv r) (Embeddings.sortBy Embeddings.byScoreDescending pool)).
  { apply (Permutation_in _ (Permutation_sym (sortBy_Permutation _ pool))).
    apply in_map, filter_In. split; assumption. }
  pose proof (sortBy_descending pool Hscores) as Hsorted.
  pose proof (sortBy_Forall Embeddings.byScoreDescending _ pool Hscores) as Hsc.
  pose proof (sortBy_Forall Embeddings.byScoreDescending _ pool Hrange) as Hrg.
  destruct (Embeddings.sortBy Embeddings.byScoreDescending pool) as [|first sorted];
    [contradiction|].
  exists first, (firstn k sorted). split; [reflexivity|].
  inversion Hsc as [|? ? Hfirst _]; subst.
  inversion Hrg as [|? ? (x & Hx & Hxr) Hrest]; subst.
  split.
  - pose proof (StronglySorted_head_dominates sorted first _ Hsorted Hmem Hfirst) as Hdom.
    unfold descending in Hdom. rewrite Hx, Hself in Hdom. rewrite Hx. f_equal. lra.
  - apply firstn_Forall. eapply Forall_impl; [|exact Hrest].
    simpl. intros s (y & Hy & Hyr). exists y. split; [exact Hy|lra].
Qed.

Lemma exact_match_ranks_first_witness :
  exists (first : Types.SimilarityResult) (rest : list Types.SimilarityResult),
    Embeddings.similaritySearch docWorld "Restart the cache" (Some 1%nat) None None
    = Embeddings.Returned (first :: rest) docWorld /\
    Types.score first = Some 1%R /\
    Forall (fun s => exists x, Types.score s = Some x /\ (x <= 1)%R) rest.
Proof.
  apply (exact_match_ranks_first docWorld [sampleDocRecord] sampleDocRecord
           "Restart the cache" 0 None None).
  - reflexivity.
  - constructor; [apply pseudoEmbedVector_length|constructor].
  - simpl. lia.
  - vm_compute. discriminate.
  - left. reflexivity.
  - reflexivity.
  - reflexivity.
Defined.

(** ** The answer of an event discovery ([ai/rag.ts]) *)

Section AnswerFacts.

Import Types Embeddings.

Lemma composeAnswer_results (norm : string) (sims : list SimilarityResult) :
  Rag.results (Rag.composeAnswer norm sims)
  = match filter (Rag.overlapsOrScores
                    (Js.filterBoolean (Js.splitWs (Js.toLowerCase norm)))) sims with
    | [] => firstn (Nat.min 5 (List.length sims)) sims
    | kept => kept
    end.
Proof.
  unfold Rag.composeAnswer. cbv zeta.
  destruct (filter _ sims) as [|x kept]; reflexivity.
Qed.

Lemma composeAnswer_keeps (P : list SimilarityResult -> Prop) (norm : string)
    (sims : list SimilarityResult) :
  (forall f, P (filter f sims)) -> (forall n, P (firstn n sims)) ->
  P (Rag.results (Rag.composeAnswer norm sims)).
Proof.
  intros Hf Hn. rewrite composeAnswer_results.
  destruct (filter _ sims) as [|x kept] eqn:Hk; [apply Hn|].
  rewrite <- Hk. apply Hf.
Qed.

Lemma composeAnswer_empty (norm : string) (sims : list SimilarityResult) :
  Rag.results (Rag.composeAnswer norm sims) = [] <-> sims = [].
Proof.
  rewrite composeAnswer_results.
  destruct (filter _ sims) as [|x kept] eqn:Hk.
  - destruct sims as [|s sims]; [tauto|]. simpl. split; discriminate.
  - split; [discriminate|]. intros E. subst sims. discriminate.
Qed.

Lemma filter_length_le {A : Type} (f : A -> bool) (l : list A) :
  (List.length (filter f l) <= List.length l)%nat.
Proof. induction l as [|x l IH]; simpl; [lia|]. destruct (f x); simpl; lia. Qed.

Lemma survives_event (r : EmbeddingRecord) :
  survives (Some ["event"]) None r = true <-> kind r = event.
Proof.
  unfold survives, skippedByKind, skippedByHint.
  destruct (resourceType r); destruct (kind r); simpl; split;
    first [reflexivity | discriminate].
Qed.

Lemma filter_nil_iff {A : Type} (f : A -> bool) (l : list A) :
  filter f l = [] <-> Forall (fun x => f x = false) l.
Proof.
  induction l as [|x l IH]; simpl.
  - split; constructor.
  - destruct (f x) eqn:E.
    + split; [discriminate|]. intros H. inversion H; subst. congruence.
    + rewrite IH. split; [constructor; assumption|]. intros H. inversion H; assumption.
Qed.

Lemma eventsForResourceType_shape (w : World) (recs : list EmbeddingRecord)
    (phrase : string) (limit : option nat) :
  inMemory w = Some recs ->
  indexInvariant (dims w) recs ->
  let k := match limit with Some k => k | None => 15%nat end in
  exists answer : Rag.RagAnswer,
    Rag.eventsForResourceType w phrase limit = Returned answer w /\
    (List.length (Rag.results answer) <= k)%nat /\
    StronglySorted descending (Rag.results answer) /\
    Forall (fun s => exists r, In r recs /\ kind r = event /\
                               sid s = id r /\ stext s = text r /\ smeta s = meta r)
           (Rag.results answer) /\
    (Rag.results answer = [] <-> k = 0%nat \/ Forall (fun r => kind r <> event) recs).
Proof.
  intros Hm Hinv k.
  pose proof (similaritySearch_value w recs (Js.trim phrase ++ " events")%string
                (Some k) (Some ["event"]) None Hm) as Hs.
  cbv beta iota in Hs.
  set (pool := map (scored (Pseudo.pseudoEmbedVector (Js.trim phrase ++ " events") (dims w)))
                   (filter (survives (Some ["event"]) None) recs)) in *.
  set (sims := firstn k (sortBy byScoreDescending pool)) in *.
  assert (Hpool : Forall hasScore pool) by (apply scored_hasScore, indexInvariant_filter, Hinv).
  assert (Hsorted : StronglySorted descending sims)
    by (apply firstn_StronglySorted, sortBy_descending, Hpool).
  assert (Horigin : Forall (fun s => exists r, In r recs /\ kind r = event /\
                               sid s = id r /\ stext s = text r /\ smeta s = meta r) sims).
  { apply firstn_Forall, sortBy_Forall, Forall_map, Forall_forall.
    intros r Hr. apply filter_In in Hr. destruct Hr as [Hin Hsurv].
    exists r. split; [exact Hin|]. split; [apply survives_event, Hsurv|].
    repeat split. }
  assert (Hlen : (List.length sims <= k)%nat) by (apply firstn_le_length).
  exists (Rag.composeAnswer (Js.trim phrase) sims).
  split; [unfold Rag.eventsForResourceType; cbv zeta; fold k; rewrite Hs; reflexivity|].
  split; [|split; [|split]].
  - apply (composeAnswer_keeps (fun l => (List.length l <= k)%nat)).
    + intros f. pose proof (filter_length_le f sims). lia.
    + intros n. pose proof (firstn_le_length n sims).
      assert (List.length (firstn n sims) <= List.length sims)%nat
        by (rewrite length_firstn; lia). lia.
  - apply composeAnswer_keeps.
    + intros f. apply filter_StronglySorted, Hsorted.
    + intros n. apply firstn_StronglySorted, Hsorted.
  - apply composeAnswer_keeps.
    + intros f. apply Forall_filter_weaken, Horigin.
    + intros n. apply firstn_Forall, Horigin.
  - rewrite composeAnswer_empty. unfold sims.
    assert (Hp : pool = [] <-> Forall (fun r => kind r <> event) recs).
    { unfold pool. split.
      - intros E. apply map_eq_nil in E. apply filter_nil_iff in E.
        eapply Forall_impl; [|exact E]. simpl. intros r Hr Hk.
        apply survives_event in Hk. congruence.
      - intros H. replace (filter (survives (Some ["event"]) None) recs)
          with (@nil EmbeddingRecord); [reflexivity|].
        symmetry. apply filter_nil_iff. eapply Forall_impl; [|exact H].
        simpl. intros r Hr. destruct (survives (Some ["event"]) None r) eqn:E; [|reflexivity].
        apply survives_event in E. contradiction. }
    rewrite <- Hp. clearbody pool. clear -pool.
    pose proof (sortBy_length byScoreDescending pool) as Hl.
    destruct (sortBy byScoreDescending pool) as [|s sorted].
    + destruct pool; [|discriminate]. destruct k; simpl; tauto.
    + destruct pool; [discriminate|]. destruct k; simpl.
      * split; [left; reflexivity|reflexivity].
      * split; [discriminate|]. intros [E|E]; discriminate.
Qed.

End AnswerFacts.

(** X20. The answer of an event discovery over a loaded index that obeys the
    invariant: it holds at most [limit] results (15 when no limit is given),
    in descending score order, each the scored copy of an event record of the
    index (never a policy or documentation record); and it is empty exactly
    when the limit is 0 or the index holds no event record, so the fallback
    always shows something when there is an event to show. *)
Theorem eventsForResourceType_answer_shape (w : Embeddings.World)
    (recs : list Types.EmbeddingRecord) (phrase : string) (limit : option nat) :
  Embeddings.inMemory w = Some recs ->
  indexInvariant (Embeddings.dims w) recs ->
  exists answer : Rag.RagAnswer,
    Rag.eventsForResourceType w phrase limit = Embeddings.Returned answer w /\
    (List.length (Rag.results answer) <= match limit with Some k => k | None => 15 end)%nat /\
    StronglySorted descending (Rag.results answer) /\
    Forall (fun s => exists r, In r recs /\ Types.kind r = Types.event /\
                               Types.sid s = Types.id r /\ Types.stext s = Types.text r /\
                               Types.smeta s = Types.meta r)
           (Rag.results answer) /\
    (Rag.results answer = [] <->
     match limit with Some k => k | None => 15%nat end = 0%nat \/
     Forall (fun r => Types.kind r <> Types.event) recs).
Proof. intros Hm Hinv. exact (eventsForResourceType_shape w recs phrase limit Hm Hinv). Qed.

Lemma eventsForResourceType_answer_shape_witness :
  exists answer : Rag.RagAnswer,
    Rag.eventsForResourceType loadedWorld "Foo" None = Embeddings.Returned answer loadedWorld /\
    (List.length (Rag.results answer) <= 15)%nat /\
    StronglySorted descending (Rag.results answer) /\
    Forall (fun s => exists r, In r sampleRecords /\ Types.kind r = Types.event /\
                               Types.sid s = Types.id r /\ Types.stext s = Types.text r /\
                               Types.smeta s = Types.meta r)
           (Rag.results answer) /\
    (Rag.results answer = [] <->
     15%nat = 0%nat \/ Forall (fun r => Types.kind r <> Types.event) sampleRecords).
Proof.
  apply (eventsForResourceType_answer_shape loadedWorld sampleRecords "Foo" None).
  - reflexivity.
  - repeat constructor.
Defined.

(** ** The event-discovery path of the chat handler ([extension.ts]) *)

Section DiscoveryFacts.

Import Types Embeddings.

Lemma eventsForResourceType_empty (w : World) (recs : list EmbeddingRecord)
    (phrase : string) (k : nat) :
  inMemory w = Some recs ->
  exists answer : Rag.RagAnswer,
    Rag.eventsForResourceType w phrase (Some (S k)) = Returned answer w /\
    (Rag.results answer = [] <-> Forall (fun r => kind r <> event) recs).
Proof.
  intros Hm.
  pose proof (similaritySearch_value w recs (Js.trim phrase ++ " events")%string
                (Some (S k)) (Some ["event"]) None Hm) as Hs.
  cbv beta iota in Hs.
  set (pool := map (scored (Pseudo.pseudoEmbedVector (Js.trim phrase ++ " events") (dims w)))
                   (filter (survives (Some ["event"]) None) recs)) in *.
  exists (Rag.composeAnswer (Js.trim phrase) (firstn (S k) (sortBy byScoreDescending pool))).
  split; [unfold Rag.eventsForResourceType; cbv zeta; rewrite Hs; reflexivity|].
  rewrite composeAnswer_empty.
  assert (Hp : pool = [] <-> Forall (fun r => kind r <> event) recs).
  { unfold pool. split.
    - intros E. apply map_eq_nil in E. apply filter_nil_iff in E.
      eapply Forall_impl; [|exact E]. simpl. intros r Hr Hk.
      apply survives_event in Hk. congruence.
    - intros H. replace (filter (survives (Some ["event"]) None) recs)
        with (@nil EmbeddingRecord); [reflexivity|].
      symmetry. apply filter_nil_iff. eapply Forall_impl; [|exact H].
      simpl. intros r Hr. destruct (survives (Some ["event"]) None r) eqn:E; [|reflexivity].
      apply survives_event in E. contradiction. }
  rewrite <- Hp. clearbody pool.
  pose proof (sortBy_length byScoreDescending pool) as Hl.
  destruct (sortBy byScoreDescending pool) as [|s sorted]; destruct pool; try discriminate.
  - simpl. tauto.
  - simpl. split; discriminate.
Qed.

Lemma contextLimit_positive (setting : option nat) :
  exists k, Extension.contextLimit setting = S k.
Proof. destruct setting as [[|k]|]; eexists; reflexivity. Qed.

Lemma streamAnswer_loaded (setting : option nat) (phrase : string) (stream : list string)
    (w : World) (recs : list EmbeddingRecord) :
  inMemory w = Some recs ->
  exists (answer : Rag.RagAnswer) (closing : string),
    Rag.eventsForResourceType w phrase (Some (Extension.contextLimit setting))
    = Returned answer w /\
    Extension.streamAnswer setting phrase stream w
    = (stream ++ [Rag.markdown answer; closing], w) /\
    (closing = Extension.rebuildTip \/ closing = Extension.discoveryFooter) /\
    (closing = Extension.rebuildTip <-> Forall (fun r => kind r <> event) recs).
Proof.
  intros Hm. destruct (contextLimit_positive setting) as [k Hk].
  destruct (eventsForResourceType_empty w recs phrase k Hm) as (answer & Ha & Hempty).
  exists answer. unfold Extension.streamAnswer. cbv zeta. rewrite Hk, Ha.
  destruct (Rag.results answer) as [|r rest] eqn:Hr.
  - exists Extension.rebuildTip. repeat split; auto.
    + intros _. apply Hempty. reflexivity.
  - exists Extension.discoveryFooter. repeat split; auto.
    + discriminate.
    + intros H. apply Hempty in H. discriminate.
Qed.

Lemma discoverEvents_cases (env : Env) (idx : Indexer.RHCIndex) (setting : option nat)
    (phrase : string) (w : World) :
  baseIndex env = Some idx ->
  inMemory w <> None \/ unavailable env w \/ (exists parsed, loadable env w parsed) ->
  exists (announce : list string) (recs : list EmbeddingRecord) (answer : Rag.RagAnswer)
         (closing : string) (w' : World),
    Extension.discoverEvents env setting phrase w
    = (announce ++ [Rag.markdown answer; closing], w') /\
    inMemory w' = Some recs /\
    Rag.eventsForResourceType w' phrase (Some (Extension.contextLimit setting))
    = Returned answer w' /\
    (closing = Extension.rebuildTip \/ closing = Extension.discoveryFooter) /\
    (closing = Extension.rebuildTip <-> Forall (fun r => kind r <> event) recs) /\
    (forall held, inMemory w = Some held -> announce = [] /\ recs = held /\ w' = w) /\
    (forall parsed, inMemory w = None -> loadable env w parsed ->
                    announce = [] /\ recs = records parsed /\ disk w' = disk w) /\
    (inMemory w = None -> unavailable env w ->
     announce = [Extension.buildingNotice] /\ recs = builtRecords env idx w).
Proof.
  intros Hidx Hfile. unfold Extension.discoverEvents.
  destruct (inMemory w) as [held|] eqn:Hm.
  - assert (Hl : ensureEmbeddingsLoaded env w = Returned true w)
      by (unfold ensureEmbeddingsLoaded; rewrite Hm; reflexivity).
    rewrite Hl.
    destruct (streamAnswer_loaded setting phrase [] w held Hm)
      as (answer & closing & Ha & Hs & Hc & Hiff).
    exists [], held, answer, closing, w. rewrite Hs.
    split; [reflexivity|]. split; [exact Hm|]. split; [exact Ha|].
    split; [exact Hc|]. split; [exact Hiff|].
    split; [|split; discriminate].
    intros held' E. injection E as E. subst held'. repeat split.
  - destruct Hfile as [Hheld|[Hun|[parsed Hld]]]; [congruence| |].
    + destruct (ensureEmbeddingsLoaded_unavailable env w Hm Hun)
        as (w1 & Hl & Hm1 & _ & _ & Hdisk & _).
      rewrite Hl. cbv zeta.
      destruct (buildEmbeddingIndex_world env true w1 idx Hidx)
        as (w2 & Hb & _ & Hm2 & _).
      rewrite Hb.
      destruct (streamAnswer_loaded setting phrase [Extension.buildingNotice] w2 _ Hm2)
        as (answer & closing & Ha & Hs & Hc & Hiff).
      exists [Extension.buildingNotice], (builtRecords env idx w1), answer, closing, w2.
      rewrite Hs. split; [reflexivity|]. split; [exact Hm2|]. split; [exact Ha|].
      split; [exact Hc|]. split; [exact Hiff|].
      split; [discriminate|]. split.
      * intros p _ (Hf & Hstored & Hv). exfalso.
        destruct Hun as [H|[H|[H|[[raw H]|[p' [H Hp]]]]]]; congruence.
      * intros _ _. split; [reflexivity|].
        apply builtRecords_same_documentation. rewrite Hdisk. reflexivity.
    + destruct (ensureEmbeddingsLoaded_loadable env w parsed Hm Hld)
        as (w1 & Hl & Hm1 & _ & _ & Hdisk & _).
      rewrite Hl.
      destruct (streamAnswer_loaded setting phrase [] w1 _ Hm1)
        as (answer & closing & Ha & Hs & Hc & Hiff).
      exists [], (records parsed), answer, closing, w1.
      rewrite Hs. split; [reflexivity|]. split; [exact Hm1|]. split; [exact Ha|].
      split; [exact Hc|]. split; [exact Hiff|].
      split; [discriminate|]. split.
      * intros p _ (_ & Hstored & _). destruct Hld as (_ & Hstored' & _).
        rewrite Hstored in Hstored'. injection Hstored' as E. subst p.
        repeat split; auto.
      * intros _ Hun. exfalso. destruct Hld as (Hf & Hstored & Hv).
        destruct Hun as [H|[H|[H|[[raw H]|[p' [H Hp]]]]]]; congruence.
Qed.

End DiscoveryFacts.

(** X21. With a base index built, the event-discovery path of the chat
    handler streams an answer, never a failed build or a failed discovery,
    whenever an index is in memory or the persisted index file is absent,
    unreadable, unparseable, of another version, or a file of the current
    version with the shape a build writes (a file that parses is taken to
    have that shape; a file of the current version without records is outside
    the statement). The index searched is the one in memory, else the
    persisted one when it can be adopted, else a fresh build, and the building
    notice is streamed in the last case only. For a [maxContextEvents] that
    is unset or a natural number (0 becomes 15), the closing message is the
    rebuild tip exactly when the index holds no event record. *)
Theorem discoverEvents_always_answers (env : Embeddings.Env) (idx : Indexer.RHCIndex)
    (setting : option nat) (phrase : string) (w : Embeddings.World) :
  Embeddings.baseIndex env = Some idx ->
  Embeddings.inMemory w <> None \/ unavailable env w \/
  (exists parsed, loadable env w parsed) ->
  exists (announce : list string) (recs : list Types.EmbeddingRecord)
         (answer : Rag.RagAnswer) (closing : string) (w' : Embeddings.World),
    Extension.discoverEvents env setting phrase w
    = (announce ++ [Rag.markdown answer; closing], w') /\
    Embeddings.inMemory w' = Some recs /\
    Rag.eventsForResourceType w' phrase (Some (Extension.contextLimit setting))
    = Embeddings.Returned answer w' /\
    (closing = Extension.rebuildTip \/ closing = Extension.discoveryFooter) /\
    (closing = Extension.rebuildTip <-> Forall (fun r => Types.kind r <> Types.event) recs) /\
    (forall held, Embeddings.inMemory w = Some held ->
                  announce = [] /\ recs = held /\ w' = w) /\
    (forall parsed, Embeddings.inMemory w = None -> loadable env w parsed ->
                    announce = [] /\ recs = Types.records parsed /\
                    Embeddings.disk w' = Embeddings.disk w) /\
    (Embeddings.inMemory w = None -> unavailable env w ->
     announce = [Extension.buildingNotice] /\ recs = builtRecords env idx w).
Proof. exact (discoverEvents_cases env idx setting phrase w). Qed.

Lemma discoverEvents_always_answers_witness :
  exists (announce : list string) (recs : list Types.EmbeddingRecord)
         (answer : Rag.RagAnswer) (closing : string) (w' : Embeddings.World),
    Extension.discoverEvents sampleEnv (Some 0%nat) "Foo" sampleWorld
    = (announce ++ [Rag.markdown answer; closing], w') /\
    Embeddings.inMemory w' = Some recs /\
    Rag.eventsForResourceType w' "Foo" (Some (Extension.contextLimit (Some 0%nat)))
    = Embeddings.Returned answer w' /\
    (closing = Extension.rebuildTip \/ closing = Extension.discoveryFooter) /\
    (closing = Extension.rebuildTip <-> Forall (fun r => Types.kind r <> Types.event) recs) /\
    (forall held, Embeddings.inMemory sampleWorld = Some held ->
                  announce = [] /\ recs = held /\ w' = sampleWorld) /\
    (forall parsed, Embeddings.inMemory sampleWorld = None ->
                    loadable sampleEnv sampleWorld parsed ->
                    announce = [] /\ recs = Types.records parsed /\
                    Embeddings.disk w' = Embeddings.disk sampleWorld) /\
    (Embeddings.inMemory sampleWorld = None -> unavailable sampleEnv sampleWorld ->
     announce = [Extension.buildingNotice] /\ recs = builtRecords sampleEnv sampleIndex sampleWorld).
Proof.
  apply (discoverEvents_always_answers sampleEnv sampleIndex (Some 0%nat) "Foo" sampleWorld).
  - reflexivity.
  - right. left. right. left. reflexivity.
Defined.

(** ** Which embedder a build uses ([ai/provider.ts]) *)

(** X22. The stub provider is chosen by the exact setting [azureOpenAI] and
    by nothing else (an unset key, another value or another letter case give
    the local embedder of 128 dimensions). Whichever embedder is created, it
    returns one vector per text, each of the length the embedder announces as
    its [dims], so the build's fallback to the default dimensionality is never
    taken. *)
Theorem createEmbedder_selection_and_shape (setting : option string) (texts : list string) :
  let e := Provider.createEmbedder setting in
  (setting = Some "azureOpenAI" <-> Provider.dims e = 1536%nat) /\
  (setting <> Some "azureOpenAI" <-> Provider.dims e = 128%nat) /\
  List.length (Provider.embed e texts) = List.length texts /\
  Forall (fun v => List.length v = Provider.dims e) (Provider.embed e texts) /\
  Embeddings.effectiveDimsOf e = Provider.dims e.
Proof.
  cbv zeta.
  assert (Hsel : (setting = Some "azureOpenAI" /\
                  Provider.dims (Provider.createEmbedder setting) = 1536%nat) \/
                 (setting <> Some "azureOpenAI" /\
                  Provider.dims (Provider.createEmbedder setting) = 128%nat)).
  { unfold Provider.createEmbedder, Provider.configuredProvider.
    destruct setting as [p|].
    - destruct (String.eqb_spec p "azureOpenAI") as [E|NE].
      + left. subst p. split; reflexivity.
      + right. split; [congruence|reflexivity].
    - right. split; [discriminate|reflexivity]. }
  split; [|split; [|split; [|split]]].
  - destruct Hsel as [[H1 H2]|[H1 H2]]; split; intros H; auto; try contradiction.
    rewrite H2 in H. discriminate.
  - destruct Hsel as [[H1 H2]|[H1 H2]]; split; intros H; auto; try contradiction.
    rewrite H2 in H. discriminate.
  - rewrite createEmbedder_embed, length_map. reflexivity.
  - rewrite createEmbedder_embed. apply Forall_map, Forall_forall. intros t _.
    apply pseudoEmbedVector_length.
  - apply effectiveDimsOf_createEmbedder.
Qed.

(** ** The search command ([commands/searchEvents.ts]) *)

Section SearchCommand.

Lemma fieldIncludes_mentions (field : option string) (query : string) :
  Js.truthy query = true ->
  SearchEvents.fieldIncludes field (Js.toLowerCase query) = true <-> mentions field query.
Proof.
  intros Hq. unfold SearchEvents.fieldIncludes, mentions, containsIgnoringCase.
  destruct field as [s|].
  - rewrite andb_true_iff, includes_spec. split.
    + intros [_ (pre & post & H)]. exists s. split; [reflexivity|]. exists pre, post. exact H.
    + intros (s' & E & pre & post & H). injection E as E. subst s'. split.
      * destruct s as [|c s]; [|reflexivity]. exfalso.
        destruct query as [|a query]; [discriminate|].
        destruct pre; discriminate.
      * exists pre, post. exact H.
  - split; [discriminate|]. intros (s & E & _). discriminate.
Qed.

Lemma collectMatches_spec (query : string) (index : Indexer.RHCIndex)
    (m : SearchEvents.Match) :
  Js.truthy query = true ->
  In m (SearchEvents.collectMatches (Js.toLowerCase query) index) <->
  exists p e, In p (Indexer.policies index) /\ In e (Indexer.events p) /\
              m = matchOf p e /\
              (mentions (Indexer.eventId e) query \/ mentions (Indexer.title e) query).
Proof.
  intros Hq. unfold SearchEvents.collectMatches. rewrite in_flat_map. split.
  - intros (p & Hp & Hm). apply in_flat_map in Hm. destruct Hm as (e & He & Hm).
    destruct (SearchEvents.fieldIncludes (Indexer.eventId e) (Js.toLowerCase query)
              || SearchEvents.fieldIncludes (Indexer.title e) (Js.toLowerCase query)) eqn:Hf;
      [|contradiction].
    destruct Hm as [Hm|[]]. exists p, e. repeat split; auto.
    apply orb_true_iff in Hf.
    destruct Hf as [Hf|Hf]; [left|right]; apply fieldIncludes_mentions; assumption.
  - intros (p & e & Hp & He & Hm & Hf). exists p. split; [exact Hp|].
    apply in_flat_map. exists e. split; [exact He|].
    assert (Hb : SearchEvents.fieldIncludes (Indexer.eventId e) (Js.toLowerCase query)
                 || SearchEvents.fieldIncludes (Indexer.title e) (Js.toLowerCase query) = true).
    { apply orb_true_iff.
      destruct Hf as [Hf|Hf]; [left|right]; apply fieldIncludes_mentions; assumption. }
    rewrite Hb. left. symmetry. exact Hm.
Qed.

End SearchCommand.

(** X23. For a non-empty search term the search command shows a document
    listing exactly the events whose id or title contains the term, letter
    case ignored on both sides; an event without id and title is never
    listed. *)
Theorem searchEvents_lists_exactly (query : string) (index : Indexer.RHCIndex) :
  Js.truthy query = true ->
  exists matches : list SearchEvents.Match,
    SearchEvents.searchEvents (Some query) index
    = Some (SearchEvents.report query matches) /\
    forall m, In m matches <->
              exists p e, In p (Indexer.policies index) /\ In e (Indexer.events p) /\
                          m = matchOf p e /\
                          (mentions (Indexer.eventId e) query \/
                           mentions (Indexer.title e) query).
Proof.
  intros Hq. exists (SearchEvents.collectMatches (Js.toLowerCase query) index). split.
  - unfold SearchEvents.searchEvents. rewrite Hq. reflexivity.
  - intros m. apply collectMatches_spec. exact Hq.
Qed.

Lemma searchEvents_lists_exactly_witness :
  exists matches : list SearchEvents.Match,
    SearchEvents.searchEvents (Some "TITLE") sampleIndex
    = Some (SearchEvents.report "TITLE" matches) /\
    forall m, In m matches <->
              exists p e, In p (Indexer.policies sampleIndex) /\ In e (Indexer.events p) /\
                          m = matchOf p e /\
                          (mentions (Indexer.eventId e) "TITLE" \/
                           mentions (Indexer.title e) "TITLE").
Proof. exact (searchEvents_lists_exactly "TITLE" sampleIndex eq_refl). Defined.

(** ** Scaffolded files and the build ([scaffold.ts], [ai/embeddings.ts]) *)

Section ScaffoldFacts.

Lemma splitFrom_nonempty (cur s : string) : Scaffold.splitFrom cur s <> [].
Proof.
  revert cur; induction s as [|c s IH]; intros cur; simpl; [discriminate|].
  destruct (Ascii.eqb c "/"); [discriminate|apply IH].
Qed.

Lemma last_splitFrom_chars (p : ascii -> bool) (cur s : string) :
  allChars p cur = true ->
  allChars (fun c => Ascii.eqb c "/" || p c) s = true ->
  allChars p (Scaffold.pop (Scaffold.splitFrom cur s)) = true.
Proof.
  revert cur; induction s as [|c s IH]; intros cur Hcur Hs.
  - exact Hcur.
  - simpl in Hs. apply andb_true_iff in Hs. destruct Hs as [Hc Hs].
    change (Scaffold.splitFrom cur (String c s))
      with (if Ascii.eqb c "/" then cur :: Scaffold.splitFrom EmptyString s
            else Scaffold.splitFrom (cur ++ String c EmptyString) s).
    destruct (Ascii.eqb c "/") eqn:E.
    + pose proof (splitFrom_nonempty EmptyString s) as Hne.
      unfold Scaffold.pop.
      destruct (Scaffold.splitFrom EmptyString s) as [|x l] eqn:Hl; [congruence|].
      change (List.last (cur :: x :: l) EmptyString) with (List.last (x :: l) EmptyString).
      rewrite <- Hl. apply (IH EmptyString); [reflexivity|exact Hs].
    + apply IH; [|exact Hs]. rewrite allChars_append, Hcur. simpl.
      simpl in Hc. rewrite Hc. reflexivity.
Qed.

Lemma shortName_chars (p : ascii -> bool) (resourceType : string) :
  allChars p "Resource" = true ->
  allChars (fun c => Ascii.eqb c "/" || p c) resourceType = true ->
  allChars p (Scaffold.shortName resourceType) = true.
Proof.
  intros Hd Hs. unfold Scaffold.shortName. cbv zeta.
  destruct (Js.truthy _); [|exact Hd].
  apply last_splitFrom_chars; [reflexivity|exact Hs].
Qed.

Lemma allChars_weaken (p q : ascii -> bool) (s : string) :
  (forall c, p c = true -> q c = true) -> allChars p s = true -> allChars q s = true.
Proof.
  intros H. induction s as [|c s IH]; simpl; [reflexivity|].
  intros Hs. apply andb_true_iff in Hs. destruct Hs as [Hc Hs].
  rewrite (H c Hc), (IH Hs). reflexivity.
Qed.

Lemma hasLineTerminator_allChars (s : string) :
  Embeddings.hasLineTerminator s = false <->
  allChars (fun c => negb (Js.isLineTerminator c)) s = true.
Proof.
  unfold Embeddings.hasLineTerminator. induction s as [|c s IH]; simpl; [tauto|].
  destruct (Js.isLineTerminator c); simpl; [split; discriminate|exact IH].
Qed.

Lemma allChars_no_occurrence (c : ascii) (s pre post : string) :
  allChars (fun x => negb (Ascii.eqb x c)) s = true ->
  s <> (pre ++ String c post)%string.
Proof.
  intros H E. subst s. rewrite allChars_append in H. simpl in H.
  rewrite Ascii.eqb_refl in H. simpl in H. rewrite andb_false_r in H. discriminate.
Qed.

Lemma shortName_inferred (resourceType : string) :
  Embeddings.hasLineTerminator resourceType = false ->
  Embeddings.execPolicyFile (Scaffold.policyFileName resourceType)
  = Some (Scaffold.shortName resourceType) /\
  Scaffold.shortName resourceType <> EmptyString /\
  (forall pre post, Scaffold.shortName resourceType <> (pre ++ String "/" post)%string).
Proof.
  intros Hlt.
  assert (Hne : Scaffold.shortName resourceType <> EmptyString).
  { unfold Scaffold.shortName. cbv zeta.
    destruct (Scaffold.pop (Scaffold.split resourceType)) as [|c s]; simpl; discriminate. }
  split; [|split; [exact Hne|]].
  - unfold Scaffold.policyFileName.
    apply execPolicyFile_matches; [reflexivity|reflexivity|exact Hne|].
    apply hasLineTerminator_allChars. apply shortName_chars; [reflexivity|].
    apply hasLineTerminator_allChars in Hlt.
    eapply allChars_weaken; [|exact Hlt]. simpl. intros c Hc. rewrite Hc. apply orb_true_r.
  - intros pre post. apply allChars_no_occurrence.
    apply shortName_chars; [reflexivity|].
    clear. induction resourceType as [|c s IH]; simpl; [reflexivity|].
    rewrite IH. destruct (Ascii.eqb c "/"); reflexivity.
Qed.

End ScaffoldFacts.

(** X24. The policy file that the scaffold creates for a resource type is
    recognised by the embedding build: the resource type the build infers
    from the file name is the scaffold's short name, that is the part of the
    resource type after its last slash ([Resource] when that part is empty),
    never the full type with its namespace. The short name is never empty and
    contains no slash. *)
Theorem scaffolded_policy_is_inferred (resourceType : string) :
  Embeddings.hasLineTerminator resourceType = false ->
  Embeddings.execPolicyFile (Scaffold.policyFileName resourceType)
  = Some (Scaffold.shortName resourceType) /\
  Scaffold.shortName resourceType <> EmptyString /\
  (forall pre post, Scaffold.shortName resourceType <> (pre ++ String "/" post)%string).
Proof. exact (shortName_inferred resourceType). Qed.

Lemma scaffolded_policy_is_inferred_witness :
  Embeddings.execPolicyFile (Scaffold.policyFileName "Microsoft.Sample/serviceName")
  = Some (Scaffold.shortName "Microsoft.Sample/serviceName") /\
  Scaffold.shortName "Microsoft.Sample/serviceName" <> EmptyString /\
  (forall pre post,
      Scaffold.shortName "Microsoft.Sample/serviceName" <> (pre ++ String "/" post)%string).
Proof. exact (scaffolded_policy_is_inferred "Microsoft.Sample/serviceName" eq_refl). Defined.

(** ** The validation rules ([validationTools/rules.ts],
    [validationTools/unreferencedPolicies.ts]) *)

Section RuleFacts.

Lemma issuesWithCode_app (c : string) (a b : list Rules.ValidationIssue) :
  issuesWithCode c (a ++ b) = issuesWithCode c a ++ issuesWithCode c b.
Proof. apply filter_app. Qed.

Lemma issuesWithCode_none (c : string) (l : list Rules.ValidationIssue) :
  Forall (fun i => Rules.code i <> c) l -> issuesWithCode c l = [].
Proof.
  induction 1 as [|i l Hi Hl IH]; simpl; [reflexivity|].
  destruct (String.eqb_spec (Rules.code i) c); [contradiction|exact IH].
Qed.

Lemma Forall_flat_map_each {A B : Type} (P : B -> Prop) (f : A -> list B) (l : list A) :
  (forall x, In x l -> Forall P (f x)) -> Forall P (flat_map f l).
Proof.
  intros H. apply Forall_forall. intros y Hy. apply in_flat_map in Hy.
  destruct Hy as (x & Hx & Hy). specialize (H x Hx). rewrite Forall_forall in H. auto.
Qed.

Lemma eventIssues_codes (f : string) (set : list string)
    (events : list Indexer.RHCEventSummary) :
  Forall (fun i => Rules.file i = f /\
                   (Rules.code i = "RHC001" \/ Rules.code i = "RHC002") /\
                   Rules.severity i = Rules.Error)
         (Rules.eventIssues f set events).
Proof.
  revert set; induction events as [|e rest IH]; intros set; simpl; [constructor|].
  destruct (Indexer.eventId e) as [id|]; [|apply IH].
  destruct (Js.truthy id); [|apply IH].
  apply Forall_app. split; [|apply Forall_app; split; [|apply IH]].
  - destruct (Rules.has id set); [|constructor].
    constructor; [|constructor]. simpl. split; [reflexivity|]. split; [right|]; reflexivity.
  - destruct (_ || _); [|constructor].
    constructor; [|constructor]. simpl. split; [reflexivity|]. split; [left|]; reflexivity.
Qed.

(** The shape of every issue, rule by rule. *)
Lemma runRules_shape (index : Indexer.RHCIndex)
    (rcs : list ResourceConfigs.ResourceConfigIndexEntry) (fc : list (string * string)) :
  Forall (fun i =>
            ((exists p, In p (Indexer.policies index) /\ Rules.file i = Indexer.file p) /\
             In (Rules.code i, Rules.severity i) policyRules) \/
            ((exists rc, In rc rcs /\ Rules.file i = ResourceConfigs.file rc) /\
             In (Rules.code i, Rules.severity i) configRules))
         (Rules.runRules index rcs fc).
Proof.
  unfold Rules.runRules. cbv zeta.
  repeat (apply Forall_app; split); apply Forall_flat_map_each.
  - intros p Hp. eapply Forall_impl; [|apply eventIssues_codes].
    simpl. intros i (Hf & Hc & Hs). left. split; [exists p; auto|].
    rewrite Hs. destruct Hc as [Hc|Hc]; rewrite Hc; simpl; tauto.
  - intros p Hp. destruct (negb _); [|constructor]. constructor; [|constructor].
    left. split; [exists p; auto|]. simpl. tauto.
  - intros rc Hrc. destruct (_ || _); [|constructor]. constructor; [|constructor].
    right. split; [exists rc; auto|]. simpl. tauto.
  - intros rc Hrc. destruct (ResourceConfigs.regionCount rc) as [[|n]|]; try constructor;
      [|constructor].
    right. split; [exists rc; auto|]. simpl. tauto.
  - intros p Hp. destruct (Rules.get fc (Indexer.file p)) as [content|]; [|constructor].
    destruct (_ && _); [|constructor]. constructor; [|constructor].
    left. split; [exists p; auto|]. simpl. tauto.
  - intros p Hp. cbv zeta. destruct (Rules.testEmptyActions _); [|constructor].
    constructor; [|constructor].
    left. split; [exists p; auto|]. simpl. tauto.
  - intros p Hp. cbv zeta. destruct (Rules.matchPlaceholders _); [constructor|].
    constructor; [|constructor].
    left. split; [exists p; auto|]. simpl. tauto.
Qed.

(** The issues of one rule come from the block of that rule. *)
Lemma flat_map_single_code (A : Type) (c : string) (cond : A -> bool)
    (issue : A -> Rules.ValidationIssue) (l : list A) :
  (forall x, Rules.code (issue x) = c) ->
  issuesWithCode c (flat_map (fun x => if cond x then [issue x] else []) l)
  = map issue (filter cond l).
Proof.
  intros Hc. induction l as [|x l IH]; simpl; [reflexivity|].
  rewrite issuesWithCode_app, IH. destruct (cond x); simpl; [|reflexivity].
  rewrite Hc, String.eqb_refl. reflexivity.
Qed.

Lemma flat_map_other_code (A : Type) (c : string) (f : A -> list Rules.ValidationIssue)
    (l : list A) :
  (forall x, Forall (fun i => Rules.code i <> c) (f x)) ->
  issuesWithCode c (flat_map f l) = [].
Proof.
  intros H. apply issuesWithCode_none, Forall_flat_map_each. intros x _. apply H.
Qed.

Lemma eventIssues_other_code (c f : string) (set : list string)
    (events : list Indexer.RHCEventSummary) :
  c <> "RHC001" -> c <> "RHC002" ->
  Forall (fun i => Rules.code i <> c) (Rules.eventIssues f set events).
Proof.
  intros H1 H2. eapply Forall_impl; [|apply eventIssues_codes].
  simpl. intros i (_ & [Hc|Hc] & _); congruence.
Qed.

Lemma runRules_unreferenced (index : Indexer.RHCIndex)
    (rcs : list ResourceConfigs.ResourceConfigIndexEntry) (fc : list (string * string)) :
  map Rules.file (issuesWithCode "RHC003" (Rules.runRules index rcs fc))
  = map Indexer.file (UnreferencedPolicies.unref index rcs).
Proof.
  unfold Rules.runRules. cbv zeta. rewrite !issuesWithCode_app.
  rewrite (flat_map_other_code _ "RHC003"
             (fun p => Rules.eventIssues (Indexer.file p) [] (Indexer.events p)))
    by (intros p; apply eventIssues_other_code; discriminate).
  rewrite (flat_map_single_code _ "RHC003"
             (fun p => negb (Rules.isReferenced (Rules.referenced rcs) (Indexer.file p))))
    by reflexivity.
  repeat (rewrite flat_map_other_code;
          [|intros x; cbv zeta;
            repeat match goal with
                   | |- Forall _ (match ?d with _ => _ end) => destruct d
                   end;
            first [apply Forall_nil
                  | apply Forall_cons; [simpl; discriminate|apply Forall_nil]]]).
  rewrite !app_nil_r. simpl. rewrite map_map. reflexivity.
Qed.

End RuleFacts.

(** X25. The validation rules never report a code other than RHC001 to
    RHC007 and RHC009 (RHC008 is announced in the source but never emitted);
    the severity is fixed by the code; the rules on policies (RHC001, RHC002,
    RHC003, RHC006, RHC007, RHC009) report on policy files of the index only,
    and the rules on resource configs (RHC004, RHC005) on resource configs of
    the index only. *)
Theorem runRules_codes_and_files (index : Indexer.RHCIndex)
    (resourceConfigs : list ResourceConfigs.ResourceConfigIndexEntry)
    (fileContents : list (string * string)) (i : Rules.ValidationIssue) :
  In i (Rules.runRules index resourceConfigs fileContents) ->
  Rules.code i <> "RHC008" /\
  (((exists p, In p (Indexer.policies index) /\ Rules.file i = Indexer.file p) /\
    In (Rules.code i, Rules.severity i) policyRules) \/
   ((exists rc, In rc resourceConfigs /\ Rules.file i = ResourceConfigs.file rc) /\
    In (Rules.code i, Rules.severity i) configRules)).
Proof.
  intros Hi. pose proof (runRules_shape index resourceConfigs fileContents) as H.
  rewrite Forall_forall in H. specialize (H i Hi). split; [|exact H].
  intros E. destruct H as [[_ H]|[_ H]]; rewrite E in H; simpl in H;
    repeat (destruct H as [H|H]; [discriminate|]); exact H.
Qed.

Lemma runRules_codes_and_files_witness :
  let i := {| Rules.file := "Prod/ResourceConfig_Foo.json";
              Rules.message := "MdmAccounts list is empty";
              Rules.code := "RHC005"; Rules.severity := Rules.Warning |} in
  Rules.code i <> "RHC008" /\
  (((exists p, In p (Indexer.policies sampleIndex) /\ Rules.file i = Indexer.file p) /\
    In (Rules.code i, Rules.severity i) policyRules) \/
   ((exists rc, In rc sampleConfigs /\ Rules.file i = ResourceConfigs.file rc) /\
    In (Rules.code i, Rules.severity i) configRules)).
Proof.
  apply (runRules_codes_and_files sampleIndex sampleConfigs sampleContents).
  vm_compute. left. reflexivity.
Defined.

(** X26. The rule RHC003 and the command that lists unreferenced policies
    agree: the files reported by RHC003 are the files of the policies the
    command lists, in the same order. *)
Theorem unreferenced_rule_agrees_with_command (index : Indexer.RHCIndex)
    (resourceConfigs : list ResourceConfigs.ResourceConfigIndexEntry)
    (fileContents : list (string * string)) :
  map Rules.file (issuesWithCode "RHC003" (Rules.runRules index resourceConfigs fileContents))
  = map Indexer.file (UnreferencedPolicies.unref index resourceConfigs).
Proof. exact (runRules_unreferenced index resourceConfigs fileContents). Qed.

Section EventRuleFacts.

Lemma has_add (x y : string) (set : list string) :
  Rules.has x (Rules.add y set) = String.eqb x y || Rules.has x set.
Proof.
  unfold Rules.add. destruct (Rules.has y set) eqn:Hy.
  - destruct (String.eqb_spec x y) as [E|NE]; [subst x; rewrite Hy|]; reflexivity.
  - unfold Rules.has. rewrite existsb_app. simpl. rewrite orb_false_r. apply orb_comm.
Qed.

Lemma issuesWithCode_flat_map (A : Type) (c : string)
    (f : A -> list Rules.ValidationIssue) (l : list A) :
  issuesWithCode c (flat_map f l) = flat_map (fun x => issuesWithCode c (f x)) l.
Proof.
  induction l as [|x l IH]; simpl; [reflexivity|].
  rewrite issuesWithCode_app, IH. reflexivity.
Qed.

Lemma flat_map_nil_iff (A B : Type) (f : A -> list B) (l : list A) :
  flat_map f l = [] <-> Forall (fun x => f x = []) l.
Proof.
  induction l as [|x l IH]; simpl.
  - split; constructor.
  - split.
    + intros H. apply app_eq_nil in H. destruct H as [Hx Hl].
      constructor; [exact Hx|apply IH, Hl].
    + intros H. inversion H as [|? ? Hx Hl]; subst. rewrite Hx. apply IH, Hl.
Qed.

Lemma eventIssues_duplicates (f : string) (set : list string)
    (events : list Indexer.RHCEventSummary) :
  issuesWithCode "RHC002" (Rules.eventIssues f set events) = [] <->
  NoDup (Js.truthyFields (map Indexer.eventId events)) /\
  (forall x, In x (Js.truthyFields (map Indexer.eventId events)) -> Rules.has x set = false).
Proof.
  revert set; induction events as [|e rest IH]; intros set.
  - simpl. split; [intros _; split; [constructor|intros x []]|reflexivity].
  - change (Js.truthyFields (map Indexer.eventId (e :: rest)))
      with ((match Indexer.eventId e with
             | Some s => if Js.truthy s then [s] else []
             | None => []
             end) ++ Js.truthyFields (map Indexer.eventId rest)).
    simpl Rules.eventIssues.
    destruct (Indexer.eventId e) as [id|]; [|apply IH].
    destruct (Js.truthy id); [|apply IH].
    rewrite !issuesWithCode_app.
    assert (Hreq : forall b : bool,
               issuesWithCode "RHC002"
                 (if b
                  then [ {| Rules.file := f;
                            Rules.message :=
                              "Event " ++ id ++ " missing required field (title or reasonType)";
                            Rules.code := "RHC001"; Rules.severity := Rules.Error |} ]
                  else []) = []) by (intros [|]; reflexivity).
    rewrite Hreq. clear Hreq.
    set (ids := Js.truthyFields (map Indexer.eventId rest)) in *.
    destruct (Rules.has id set) eqn:Hid.
    + split; [simpl; discriminate|]. intros [_ H].
      specialize (H id (or_introl eq_refl)). congruence.
    + change (issuesWithCode "RHC002" [] ++ [] ++
              issuesWithCode "RHC002" (Rules.eventIssues f (Rules.add id set) rest))
        with (issuesWithCode "RHC002" (Rules.eventIssues f (Rules.add id set) rest)).
      rewrite IH. clear IH. simpl. split.
      * intros [Hnd H]. split.
        -- constructor; [|exact Hnd]. intros Hin. specialize (H id Hin).
           rewrite has_add, String.eqb_refl in H. discriminate.
        -- intros x [E|Hin]; [subst x; exact Hid|].
           specialize (H x Hin). rewrite has_add in H. apply orb_false_iff in H. apply H.
      * intros [Hnd H]. inversion Hnd as [|? ? Hnin Hnd']; subst. split; [exact Hnd'|].
        intros x Hin. rewrite has_add. apply orb_false_iff. split.
        -- apply String.eqb_neq. intros E. subst x. contradiction.
        -- apply H. right. exact Hin.
Qed.

Lemma runRules_duplicates (index : Indexer.RHCIndex)
    (rcs : list ResourceConfigs.ResourceConfigIndexEntry) (fc : list (string * string)) :
  issuesWithCode "RHC002" (Rules.runRules index rcs fc)
  = flat_map (fun p => issuesWithCode "RHC002"
                         (Rules.eventIssues (Indexer.file p) [] (Indexer.events p)))
             (Indexer.policies index).
Proof.
  unfold Rules.runRules. cbv zeta. rewrite !issuesWithCode_app.
  rewrite issuesWithCode_flat_map.
  repeat (rewrite flat_map_other_code;
          [|intros x; cbv zeta;
            repeat match goal with
                   | |- Forall _ (match ?d with _ => _ end) => destruct d
                   end;
            first [apply Forall_nil
                  | apply Forall_cons; [simpl; discriminate|apply Forall_nil]]]).
  rewrite !app_nil_r. reflexivity.
Qed.

Lemma eventIssues_missing (f : string) (set : list string)
    (events : list Indexer.RHCEventSummary) (i : Rules.ValidationIssue) :
  In i (issuesWithCode "RHC001" (Rules.eventIssues f set events)) <->
  exists e id, In e events /\ Indexer.eventId e = Some id /\ Js.truthy id = true /\
               (Rules.falsy (Indexer.title e) = true \/
                Rules.falsy (Indexer.reasonType e) = true) /\
               i = missingFieldIssue f id.
Proof.
  revert set; induction events as [|e rest IH]; intros set.
  - simpl. split; [intros []|intros (e & id & [] & _)].
  - assert (Hskip : forall set',
               (Indexer.eventId e = None \/
                exists id, Indexer.eventId e = Some id /\ Js.truthy id = false) ->
               (In i (issuesWithCode "RHC001" (Rules.eventIssues f set' rest)) <->
                exists e0 id, In e0 (e :: rest) /\ Indexer.eventId e0 = Some id /\
                              Js.truthy id = true /\
                              (Rules.falsy (Indexer.title e0) = true \/
                               Rules.falsy (Indexer.reasonType e0) = true) /\
                              i = missingFieldIssue f id)).
    { intros set' Hno. rewrite IH. split.
      - intros (e0 & id & Hin & H). exists e0, id. split; [right; exact Hin|exact H].
      - intros (e0 & id & [E|Hin] & Hid & Ht & H).
        + subst e0. exfalso. destruct Hno as [Hn|(id' & Hn & Hf)]; congruence.
        + exists e0, id. auto. }
    simpl Rules.eventIssues.
    destruct (Indexer.eventId e) as [id|] eqn:Hid; [|apply Hskip; left; reflexivity].
    destruct (Js.truthy id) eqn:Ht; [|apply Hskip; right; exists id; auto].
    clear Hskip. rewrite !issuesWithCode_app, !in_app_iff, IH.
    assert (Hdup : forall b : bool,
               In i (issuesWithCode "RHC001"
                       (if b
                        then [ {| Rules.file := f;
                                  Rules.message := "Duplicate EventId " ++ id;
                                  Rules.code := "RHC002"; Rules.severity := Rules.Error |} ]
                        else [])) <-> False) by (intros [|]; simpl; tauto).
    rewrite Hdup. clear Hdup.
    destruct (Rules.falsy (Indexer.title e) || Rules.falsy (Indexer.reasonType e)) eqn:Hm.
    + apply orb_true_iff in Hm. simpl. split.
      * intros [[]|[[E|[]]|(e0 & id0 & Hin & H)]].
        -- exists e, id. repeat split; auto.
        -- exists e0, id0. split; [right; exact Hin|exact H].
      * intros (e0 & id0 & [E|Hin] & Hid0 & Ht0 & Hf0 & Hi).
        -- subst e0. rewrite Hid in Hid0. injection Hid0 as E. subst id0.
           right. left. left. symmetry. exact Hi.
        -- right. right. exists e0, id0. auto.
    + apply orb_false_iff in Hm. destruct Hm as [Hm1 Hm2]. simpl. split.
      * intros [[]|[[]|(e0 & id0 & Hin & H)]].
        exists e0, id0. split; [right; exact Hin|exact H].
      * intros (e0 & id0 & [E|Hin] & Hid0 & Ht0 & Hf0 & Hi).
        -- subst e0. destruct Hf0; congruence.
        -- right. right. exists e0, id0. auto.
Qed.

Lemma runRules_missing (index : Indexer.RHCIndex)
    (rcs : list ResourceConfigs.ResourceConfigIndexEntry) (fc : list (string * string)) :
  issuesWithCode "RHC001" (Rules.runRules index rcs fc)
  = flat_map (fun p => issuesWithCode "RHC001"
                         (Rules.eventIssues (Indexer.file p) [] (Indexer.events p)))
             (Indexer.policies index).
Proof.
  unfold Rules.runRules. cbv zeta. rewrite !issuesWithCode_app.
  rewrite issuesWithCode_flat_map.
  repeat (rewrite flat_map_other_code;
          [|intros x; cbv zeta;
            repeat match goal with
                   | |- Forall _ (match ?d with _ => _ end) => destruct d
                   end;
            first [apply Forall_nil
                  | apply Forall_cons; [simpl; discriminate|apply Forall_nil]]]).
  rewrite !app_nil_r. reflexivity.
Qed.

End EventRuleFacts.

(** X27. Duplicate event ids are judged per policy file: the rules report no
    RHC002 exactly when, in every policy file of the index, the non-empty
    event ids are pairwise different. An id shared by two policy files is no
    duplicate. *)
Theorem duplicate_rule_is_per_policy (index : Indexer.RHCIndex)
    (resourceConfigs : list ResourceConfigs.ResourceConfigIndexEntry)
    (fileContents : list (string * string)) :
  issuesWithCode "RHC002" (Rules.runRules index resourceConfigs fileContents) = [] <->
  Forall (fun p => NoDup (eventIds p)) (Indexer.policies index).
Proof.
  rewrite runRules_duplicates, flat_map_nil_iff, !Forall_forall.
  split; intros H p Hp; specialize (H p Hp).
  - apply eventIssues_duplicates in H. apply H.
  - apply eventIssues_duplicates. split; [exact H|reflexivity].
Qed.

(** X28. The required-field rule: RHC001 is reported exactly for the events
    that have a non-empty id and lack a title or a reason type (absent or
    empty), once per such event, under the policy file and naming the id. An
    event without an id is skipped: it is never reported, whatever else it
    lacks. *)
Theorem required_field_rule (index : Indexer.RHCIndex)
    (resourceConfigs : list ResourceConfigs.ResourceConfigIndexEntry)
    (fileContents : list (string * string)) (i : Rules.ValidationIssue) :
  In i (issuesWithCode "RHC001" (Rules.runRules index resourceConfigs fileContents)) <->
  exists p e id,
    In p (Indexer.policies index) /\ In e (Indexer.events p) /\
    Indexer.eventId e = Some id /\ Js.truthy id = true /\
    (Rules.falsy (Indexer.title e) = true \/ Rules.falsy (Indexer.reasonType e) = true) /\
    i = missingFieldIssue (Indexer.file p) id.
Proof.
  rewrite runRules_missing, in_flat_map. split.
  - intros (p & Hp & Hi). apply eventIssues_missing in Hi.
    destruct Hi as (e & id & H). exists p, e, id. split; [exact Hp|exact H].
  - intros (p & e & id & Hp & H). exists p. split; [exact Hp|].
    apply eventIssues_missing. exists e, id. exact H.
Qed.

Section PlaceholderFacts.

Lemma span_spec (p : ascii -> bool) (s : string) :
  s = (fst (Rules.span p s) ++ snd (Rules.span p s))%string /\
  allChars p (fst (Rules.span p s)) = true.
Proof.
  induction s as [|c s [IH1 IH2]]; simpl; [split; reflexivity|].
  destruct (p c) eqn:Hc; simpl.
  - rewrite <- IH1, Hc, IH2. split; reflexivity.
  - split; reflexivity.
Qed.

Lemma span_stop (p : ascii -> bool) (body : string) (c : ascii) (post : string) :
  allChars p body = true -> p c = false ->
  Rules.span p (body ++ String c post) = (body, String c post).
Proof.
  intros Hb Hc. induction body as [|x body IH]; simpl.
  - rewrite Hc. reflexivity.
  - simpl in Hb. apply andb_true_iff in Hb. destruct Hb as [Hx Hb].
    rewrite Hx, (IH Hb). reflexivity.
Qed.

Lemma prefix_append_stop (p : ascii -> bool) (t a : string) (c : ascii) (b : string) :
  allChars p t = true -> p c = false ->
  String.prefix t (a ++ String c b) = String.prefix t a.
Proof.
  intros Ht Hc. revert t Ht; induction a as [|y a IH]; intros t Ht.
  - destruct t as [|x t]; [reflexivity|]. simpl.
    simpl in Ht. apply andb_true_iff in Ht. destruct Ht as [Hx _].
    destruct (ascii_dec x c) as [E|NE]; [subst x; congruence|reflexivity].
  - destruct t as [|x t]; [reflexivity|]. simpl.
    simpl in Ht. apply andb_true_iff in Ht. destruct Ht as [_ Ht].
    destruct (ascii_dec x y); [apply IH; exact Ht|reflexivity].
Qed.

Lemma placeholderHere_unfold (r : string) :
  Rules.placeholderHere ("<#" ++ r)
  = if String.prefix "SupportCase" r then None
    else if Js.truthy (fst (Rules.span Rules.isPlaceholderChar r))
            && String.prefix "#>" (snd (Rules.span Rules.isPlaceholderChar r))
         then Some ("<#" ++ fst (Rules.span Rules.isPlaceholderChar r) ++ "#>")%string
         else None.
Proof.
  unfold Rules.placeholderHere.
  assert (Hp : String.prefix "<#" ("<#" ++ r) = true)
    by (apply prefix_spec; eexists; reflexivity).
  rewrite Hp.
  assert (Hr : String.substring 2 (String.length ("<#" ++ r) - 2) ("<#" ++ r) = r).
  { simpl. rewrite Nat.sub_0_r. apply substring_whole. }
  rewrite Hr. reflexivity.
Qed.

Lemma placeholderHere_spec (s m : string) :
  Rules.placeholderHere s = Some m <->
  placeholderToken m /\ exists post, s = (m ++ post)%string.
Proof.
  split.
  - intros H.
    destruct (String.prefix "<#" s) eqn:Hp;
      [|unfold Rules.placeholderHere in H; rewrite Hp in H; discriminate].
    apply prefix_spec in Hp. destruct Hp as [r Hs]. subst s.
    rewrite placeholderHere_unfold in H.
    destruct (String.prefix "SupportCase" r) eqn:Hsc; [discriminate|].
    destruct (span_spec Rules.isPlaceholderChar r) as [Hr Hbody].
    set (body := fst (Rules.span Rules.isPlaceholderChar r)) in *.
    set (after := snd (Rules.span Rules.isPlaceholderChar r)) in *.
    clearbody body after.
    destruct (Js.truthy body) eqn:Ht; [|discriminate].
    destruct (String.prefix "#>" after) eqn:Ha; [|discriminate].
    simpl in H. injection H as H. subst m.
    apply prefix_spec in Ha. destruct Ha as [post Ha].
    split.
    + exists body. split; [reflexivity|]. split; [destruct body; discriminate|].
      split; [exact Hbody|].
      assert (Hsame : String.prefix "SupportCase" (body ++ String "#" (String ">" post))
                      = String.prefix "SupportCase" body)
        by (apply (prefix_append_stop Rules.isPlaceholderChar); reflexivity).
      rewrite <- Hsame. subst r after. exact Hsc.
    + exists post. subst r after. simpl. rewrite !string_append_assoc. reflexivity.
  - intros [(body & Hm & Hne & Hbody & Hsc) [post Hs]]. subst m s.
    replace (("<#" ++ body ++ "#>") ++ post)%string
      with ("<#" ++ (body ++ String "#" (String ">" post)))%string
      by (simpl; rewrite !string_append_assoc; reflexivity).
    rewrite placeholderHere_unfold.
    rewrite (prefix_append_stop Rules.isPlaceholderChar) by reflexivity || assumption.
    rewrite Hsc, (span_stop Rules.isPlaceholderChar body "#" (String ">" post) Hbody eq_refl).
    simpl fst. simpl snd.
    assert (Ht : Js.truthy body = true) by (destruct body; [congruence|reflexivity]).
    rewrite Ht.
    assert (Ha : String.prefix "#>" (String "#" (String ">" post)) = true)
      by (apply prefix_spec; exists post; reflexivity).
    rewrite Ha. reflexivity.
Qed.

Lemma placeholderHere_empty : Rules.placeholderHere EmptyString = None.
Proof. reflexivity. Qed.

Lemma matchAllFrom_step (c : ascii) (r : string) :
  Rules.matchAllFrom 0 (String c r)
  = match Rules.placeholderHere (String c r) with
    | Some m => m :: Rules.matchAllFrom (String.length m - 1) r
    | None => Rules.matchAllFrom 0 r
    end.
Proof. reflexivity. Qed.

Lemma matchPlaceholders_nil (content : string) :
  Rules.matchPlaceholders content = [] <->
  forall pre post, content = (pre ++ post)%string -> Rules.placeholderHere post = None.
Proof.
  unfold Rules.matchPlaceholders. induction content as [|c r IH].
  - split; [|reflexivity]. intros _ pre post H.
    destruct pre; [|discriminate]. simpl in H. subst post. reflexivity.
  - rewrite matchAllFrom_step.
    destruct (Rules.placeholderHere (String c r)) as [m|] eqn:Hm.
    + split; [discriminate|]. intros H. specialize (H EmptyString (String c r) eq_refl).
      congruence.
    + rewrite IH. split.
      * intros H pre post E. destruct pre as [|x pre].
        -- simpl in E. subst post. exact Hm.
        -- simpl in E. injection E as _ E. apply (H pre post E).
      * intros H pre post E. apply (H (String c pre) post). simpl. rewrite E. reflexivity.
Qed.

Lemma matchPlaceholders_hasPlaceholder (content : string) :
  Rules.matchPlaceholders content <> [] <-> hasPlaceholder content.
Proof.
  split.
  - intros H. destruct (Rules.matchPlaceholders content) as [|m ms] eqn:Hms; [congruence|].
    clear H. unfold Rules.matchPlaceholders in Hms.
    assert (Hex : forall s k, Rules.matchAllFrom k s <> [] ->
                   exists pre post m', s = (pre ++ post)%string /\
                                       Rules.placeholderHere post = Some m').
    { clear. induction s as [|c r IH]; intros k H; [simpl in H; congruence|].
      destruct k as [|k].
      - rewrite matchAllFrom_step in H.
        destruct (Rules.placeholderHere (String c r)) as [m|] eqn:Hm.
        + exists EmptyString, (String c r), m. split; [reflexivity|exact Hm].
        + destruct (IH 0%nat H) as (pre & post & m' & E & Hp).
          exists (String c pre), post, m'. split; [simpl; rewrite E; reflexivity|exact Hp].
      - simpl in H. destruct (IH k H) as (pre & post & m' & E & Hp).
        exists (String c pre), post, m'. split; [simpl; rewrite E; reflexivity|exact Hp]. }
    destruct (Hex content 0%nat) as (pre & post & m' & E & Hp); [rewrite Hms; discriminate|].
    apply placeholderHere_spec in Hp. destruct Hp as [Htok [post' Hpost]].
    exists pre, m', post'. split; [rewrite E, Hpost; reflexivity|exact Htok].
  - intros (pre & t & post & E & Htok) H.
    pose proof (proj1 (matchPlaceholders_nil content) H pre (t ++ post)%string E) as Hn.
    assert (Hs : Rules.placeholderHere (t ++ post) = Some t)
      by (apply placeholderHere_spec; split; [exact Htok|exists post; reflexivity]).
    congruence.
Qed.

Lemma matchAllFrom_tokens (content : string) (k : nat) :
  Forall placeholderToken (Rules.matchAllFrom k content).
Proof.
  revert k; induction content as [|c r IH]; intros k; [constructor|].
  destruct k as [|k]; [|apply IH].
  rewrite matchAllFrom_step.
  destruct (Rules.placeholderHere (String c r)) as [m|] eqn:Hm; [|apply IH].
  constructor; [|apply IH]. apply placeholderHere_spec in Hm. apply Hm.
Qed.

Lemma has_In (x : string) (set : list string) : Rules.has x set = true <-> In x set.
Proof.
  unfold Rules.has. rewrite existsb_exists. split.
  - intros (y & Hy & E). apply String.eqb_eq in E. subst y. exact Hy.
  - intros H. exists x. split; [exact H|apply String.eqb_refl].
Qed.

Lemma unique_spec (seen matches : list string) :
  NoDup (Rules.unique seen matches) /\
  forall t, In t (Rules.unique seen matches) <-> In t matches /\ ~ In t seen.
Proof.
  revert seen; induction matches as [|m rest IH]; intros seen; simpl.
  - split; [constructor|]. intros t. tauto.
  - destruct (Rules.has m seen) eqn:Hm.
    + apply has_In in Hm. destruct (IH seen) as [Hnd Hin]. split; [exact Hnd|].
      intros t. rewrite Hin. split; [tauto|]. intros [[E|H] Hs]; [subst t; contradiction|tauto].
    + assert (Hnot : ~ In m seen) by (intros H; apply has_In in H; congruence).
      destruct (IH (seen ++ [m])) as [Hnd Hin]. split.
      * constructor; [|exact Hnd]. intros H. apply Hin in H. destruct H as [_ H].
        apply H. apply in_or_app. right. left. reflexivity.
      * intros t. simpl. rewrite Hin, in_app_iff. simpl. split.
        -- intros [E|[H Hs]]; [subst t; tauto|]. split; [tauto|]. tauto.
        -- intros [[E|H] Hs]; [left; exact E|].
           destruct (string_dec m t) as [E|NE]; [left; exact E|]. right. split; [exact H|].
           intros [H'|[H'|[]]]; [contradiction|contradiction].
Qed.

Lemma runRules_placeholders (index : Indexer.RHCIndex)
    (rcs : list ResourceConfigs.ResourceConfigIndexEntry) (fc : list (string * string)) :
  issuesWithCode "RHC006" (Rules.runRules index rcs fc)
  = flat_map (fun p =>
                match Rules.matchPlaceholders
                        (Js.orElse (Rules.get fc (Indexer.file p)) EmptyString) with
                | [] => []
                | m :: ms =>
                    [ {| Rules.file := Indexer.file p;
                         Rules.message := "Unresolved placeholder tokens: "
                                          ++ Js.join ", " (Rules.unique [] (m :: ms));
                         Rules.code := "RHC006"; Rules.severity := Rules.Hint |} ]
                end) (Indexer.policies index).
Proof.
  unfold Rules.runRules. cbv zeta. rewrite !issuesWithCode_app.
  repeat (rewrite flat_map_other_code;
          [|intros x; try apply eventIssues_other_code; try discriminate; cbv zeta;
            repeat match goal with
                   | |- Forall _ (match ?d with _ => _ end) => destruct d
                   end;
            first [apply Forall_nil
                  | apply Forall_cons; [simpl; discriminate|apply Forall_nil]]]).
  simpl app. rewrite issuesWithCode_flat_map. apply flat_map_ext. intros p.
  destruct (Rules.matchPlaceholders _); reflexivity.
Qed.

End PlaceholderFacts.

(** X29. The placeholder rule: RHC006 is reported for a policy file exactly
    when its content holds a token [<#body#>] whose body is non-empty, has no
    [#] and no [>], and does not begin with [SupportCase] (a file without
    known content has none). The message lists placeholder tokens of that
    shape only, each once; the support-case token is never listed. *)
Theorem placeholder_rule (index : Indexer.RHCIndex)
    (resourceConfigs : list ResourceConfigs.ResourceConfigIndexEntry)
    (fileContents : list (string * string)) :
  (forall f,
      (exists i, In i (issuesWithCode "RHC006"
                         (Rules.runRules index resourceConfigs fileContents)) /\
                 Rules.file i = f) <->
      (exists p, In p (Indexer.policies index) /\ Indexer.file p = f /\
                 hasPlaceholder (Js.orElse (Rules.get fileContents f) EmptyString))) /\
  (forall i,
      In i (issuesWithCode "RHC006" (Rules.runRules index resourceConfigs fileContents)) ->
      exists tokens,
        Rules.message i
        = ("Unresolved placeholder tokens: " ++ Js.join ", " tokens)%string /\
        tokens <> [] /\ NoDup tokens /\ Forall placeholderToken tokens /\
        ~ In "<#SupportCase>" tokens).
Proof.
  rewrite runRules_placeholders. split.
  - intros f. split.
    + intros (i & Hi & Hf). apply in_flat_map in Hi. destruct Hi as (p & Hp & Hi).
      destruct (Rules.matchPlaceholders _) as [|m ms] eqn:Hms; [contradiction|].
      destruct Hi as [Hi|[]]. subst i. simpl in Hf. exists p. split; [exact Hp|].
      split; [exact Hf|]. rewrite <- Hf. apply matchPlaceholders_hasPlaceholder.
      rewrite Hms. discriminate.
    + intros (p & Hp & Hf & Hhas). apply matchPlaceholders_hasPlaceholder in Hhas.
      rewrite <- Hf in Hhas.
      destruct (Rules.matchPlaceholders
                  (Js.orElse (Rules.get fileContents (Indexer.file p)) EmptyString))
        as [|m ms] eqn:Hms; [congruence|].
      exists {| Rules.file := Indexer.file p;
                Rules.message := "Unresolved placeholder tokens: "
                                 ++ Js.join ", " (Rules.unique [] (m :: ms));
                Rules.code := "RHC006"; Rules.severity := Rules.Hint |}.
      split; [|exact Hf]. apply in_flat_map. exists p. split; [exact Hp|].
      rewrite Hms. left. reflexivity.
  - intros i Hi. apply in_flat_map in Hi. destruct Hi as (p & Hp & Hi).
    destruct (Rules.matchPlaceholders _) as [|m ms] eqn:Hms; [contradiction|].
    destruct Hi as [Hi|[]]. subst i. exists (Rules.unique [] (m :: ms)).
    destruct (unique_spec [] (m :: ms)) as [Hnd Hin].
    assert (Htok : Forall placeholderToken (Rules.unique [] (m :: ms))).
    { apply Forall_forall. intros t Ht. apply Hin in Ht. destruct Ht as [Ht _].
      pose proof (matchAllFrom_tokens
                    (Js.orElse (Rules.get fileContents (Indexer.file p)) EmptyString) 0) as Hall.
      fold (Rules.matchPlaceholders
              (Js.orElse (Rules.get fileContents (Indexer.file p)) EmptyString)) in Hall.
      rewrite Hms in Hall. rewrite Forall_forall in Hall. apply Hall, Ht. }
    split; [reflexivity|]. split; [|split; [exact Hnd|split; [exact Htok|]]].
    + simpl. discriminate.
    + intros H. rewrite Forall_forall in Htok. destruct (Htok _ H) as (body & E & _).
      simpl in E. injection E as E. clear -E.
      repeat (destruct body as [|? body]; simpl in E; [discriminate|]; injection E as ? E).
      destruct body; discriminate.
Qed.

(** ** The keyword search of the chat handler ([extension.ts]) *)

Section KeywordFacts.

Lemma scoreTokens_counts (hay : string) (searchTokens : list string) (start score : nat) :
  Extension.scoreTokens hay searchTokens start = Some score ->
  score = (start + List.length searchTokens)%nat /\
  Forall (fun st => Js.includes hay st = true) searchTokens.
Proof.
  revert start; induction searchTokens as [|st rest IH]; intros start H; simpl in H.
  - injection H as H. subst score. split; [simpl; lia|constructor].
  - destruct (Js.includes hay st) eqn:Hin; [|discriminate].
    destruct (IH _ H) as [Hs Hall]. split; [simpl; lia|].
    constructor; assumption.
Qed.

Lemma scoreTokens_complete (hay : string) (searchTokens : list string) (start : nat) :
  Forall (fun st => Js.includes hay st = true) searchTokens ->
  Extension.scoreTokens hay searchTokens start
  = Some (start + List.length searchTokens)%nat.
Proof.
  intros H. revert start. induction H as [|st rest Hst Hrest IH]; intros start; simpl.
  - f_equal. lia.
  - rewrite Hst, IH. f_equal. lia.
Qed.

Lemma collectCandidates_spec (policyFilter : option string) (searchTokens : list string)
    (idx : Indexer.RHCIndex) (c : Extension.Candidate) :
  In c (Extension.collectCandidates policyFilter searchTokens idx) <->
  exists p e,
    In p (Indexer.policies idx) /\ In e (Indexer.events p) /\
    c = {| Extension.cscore := List.length searchTokens;
           Extension.cid := Indexer.eventId e; Extension.ctitle := Indexer.title e;
           Extension.cpolicy := Indexer.file p |} /\
    Forall (fun st => Js.includes (Extension.haystack (Indexer.eventId e) (Indexer.title e)) st
                      = true) searchTokens /\
    (forall f, policyFilter = Some f -> Js.truthy f = true ->
               Js.includes (Js.toLowerCase (Indexer.file p)) f = true).
Proof.
  unfold Extension.collectCandidates. rewrite in_flat_map. split.
  - intros (p & Hp & Hc). cbv zeta in Hc.
    match type of Hc with In _ (if ?b then _ else _) => destruct b eqn:Hskip end;
      [contradiction|].
    apply in_flat_map in Hc. destruct Hc as (e & He & Hc). cbv zeta in Hc.
    destruct (Extension.scoreTokens _ searchTokens 0) as [score|] eqn:Hs; [|contradiction].
    destruct Hc as [Hc|[]]. apply scoreTokens_counts in Hs. destruct Hs as [Hscore Hall].
    exists p, e. split; [exact Hp|]. split; [exact He|].
    split; [subst c score; reflexivity|]. split; [exact Hall|].
    intros f Hf Ht. subst policyFilter. rewrite Ht in Hskip. simpl in Hskip.
    destruct (Js.includes _ f); [reflexivity|discriminate].
  - intros (p & e & Hp & He & Hc & Hall & Hfilter). exists p. split; [exact Hp|].
    cbv zeta.
    assert (Hskip : match policyFilter with
                    | Some f => Js.truthy f
                                && negb (Js.includes (Js.toLowerCase (Indexer.file p)) f)
                    | None => false
                    end = false).
    { destruct policyFilter as [f|]; [|reflexivity].
      destruct (Js.truthy f) eqn:Ht; [|reflexivity].
      rewrite (Hfilter f eq_refl Ht). reflexivity. }
    rewrite Hskip. apply in_flat_map. exists e. split; [exact He|]. cbv zeta.
    rewrite (scoreTokens_complete _ _ 0 Hall). left. symmetry. exact Hc.
Qed.

End KeywordFacts.

(** X30. In the keyword search of the chat handler every candidate has the
    same score, the number of search tokens: a candidate is an event of a
    policy that passes the policy filter and whose id and title, joined and
    lower-cased, contain every search token, and each such event is a
    candidate. So the ranking by score never separates two candidates. *)
Theorem keyword_candidates_share_one_score (raw : string) (idx : Indexer.RHCIndex)
    (candidates : list Extension.Candidate) :
  Extension.keywordCandidates raw idx = Some candidates ->
  exists (policyFilter : option string) (searchTokens : list string),
    Extension.parseFilters (Js.splitWs raw) = (policyFilter, searchTokens) /\
    searchTokens <> [] /\
    forall c, In c candidates <->
      exists p e,
        In p (Indexer.policies idx) /\ In e (Indexer.events p) /\
        c = {| Extension.cscore := List.length searchTokens;
               Extension.cid := Indexer.eventId e; Extension.ctitle := Indexer.title e;
               Extension.cpolicy := Indexer.file p |} /\
        Forall (fun st =>
                  Js.includes (Extension.haystack (Indexer.eventId e) (Indexer.title e)) st
                  = true) searchTokens /\
        (forall f, policyFilter = Some f -> Js.truthy f = true ->
                   Js.includes (Js.toLowerCase (Indexer.file p)) f = true).
Proof.
  unfold Extension.keywordCandidates. cbv zeta.
  destruct (Extension.parseFilters (Js.splitWs raw)) as [policyFilter searchTokens].
  simpl fst. simpl snd. intros H.
  destruct searchTokens as [|st rest]; [discriminate|].
  injection H as H. subst candidates.
  exists policyFilter, (st :: rest). split; [reflexivity|]. split; [discriminate|].
  intros c. apply collectCandidates_spec.
Qed.

Lemma keyword_candidates_share_one_score_witness :
  exists (policyFilter : option string) (searchTokens : list string),
    Extension.parseFilters (Js.splitWs "bar policy:FOO title") = (policyFilter, searchTokens) /\
    searchTokens <> [] /\
    forall c,
      In c [ {| Extension.cscore := 2; Extension.cid := Some "Bar";
                Extension.ctitle := Some "Bar Title";
                Extension.cpolicy := "PolicyFile_Foo.json" |} ] <->
      exists p e,
        In p (Indexer.policies sampleIndex) /\ In e (Indexer.events p) /\
        c = {| Extension.cscore := List.length searchTokens;
               Extension.cid := Indexer.eventId e; Extension.ctitle := Indexer.title e;
               Extension.cpolicy := Indexer.file p |} /\
        Forall (fun st =>
                  Js.includes (Extension.haystack (Indexer.eventId e) (Indexer.title e)) st
                  = true) searchTokens /\
        (forall f, policyFilter = Some f -> Js.truthy f = true ->
                   Js.includes (Js.toLowerCase (Indexer.file p)) f = true).
Proof.
  exact (keyword_candidates_share_one_score "bar policy:FOO title" sampleIndex _ eq_refl).
Defined.
